(** * Revenue reporting engine of PalmRunLLC: accrual allocation, deposit
    ledger, period filter and the admin revenue summary.

    The development embeds the functions of the payment routes
    ([parseDateOnly], [getMonthKey], [calculateAccrualAllocations],
    [getPeriodConfig], [monthMatchesPeriod] and the body of the
    [/admin/revenue-summary] handler) and proves properties of them.

    Conventions of the embedding.
    - A JavaScript [Date] is its time value, an integer number of
      milliseconds since the epoch ([Z]).  The calendar functions follow the
      ECMAScript definitions ([Day], [DayFromYear], [YearFromTime],
      [MonthFromTime], [MakeDay]) on the proleptic Gregorian calendar; the
      two-digit-year rule of [Date.UTC] and the limit of 8.64e15 ms on time
      values are not part of the model.
    - Integer-valued Numbers (cents, day counts, counters) are [Z]; their
      sums are exact, as they are in binary64 below 2^53.
    - The Numbers that carry fractions, the monthly rent and the deposit
      amount in currency units, are binary64 floats ([PrimFloat.float]) and
      the products that turn them into cents are computed with the float
      operations, in the order the source writes them.  Cents are integers:
      [Math.round] is taken on finite amounts.
    - Objects used as dictionaries are [gmap string _]; a pass over the
      entries of an object is a [map_fold], whose result does not depend on
      the order of the entries for the passes of this file.
    - The record of the response leaves out [revenueByType] and the sample
      of recent payments, and with them the sort of the query result; the
      breakdown by type is embedded on its own ([Breakdown]).
    - The routes that list and move deposits and record manual refunds
      ([Store]) and the values the dashboard derives from the response
      ([Dashboard]) are embedded after the handler. *)

From Stdlib Require Import ZArith Lia QArith Qround Qabs Lqa List Bool.
From Stdlib Require Import Strings.String Strings.Ascii.
From Stdlib Require Import DecimalString DecimalZ.
From Stdlib Require Import Floats.PrimFloat Floats.FloatOps Floats.SpecFloat.
From stdpp Require Import base option list gmap strings sorting.

Local Open Scope Z_scope.

(* Floor division and modulus by constants are handled by [lia]. *)
Ltac Zify.zify_post_hook ::= Z.to_euclidean_division_equations.

(** ** ECMAScript calendar arithmetic *)

Module Calendar.

Definition msPerDay : Z := 86400000.

(** [Day(t) = floor(t / msPerDay)]. *)
Definition Day (t : Z) : Z := t / msPerDay.

Definition InLeapYear (y : Z) : Z :=
  if (y mod 4 =? 0) && (negb (y mod 100 =? 0) || (y mod 400 =? 0))
  then 1 else 0.

Definition DaysInYear (y : Z) : Z := 365 + InLeapYear y.

Definition DayFromYear (y : Z) : Z :=
  365 * (y - 1970) + (y - 1969) / 4 - (y - 1901) / 100 + (y - 1601) / 400.

(** The year of a day number: the largest [y] with [DayFromYear y <= d].
    The mean-length quotient is at most one year off. *)
Definition YearFromDay (d : Z) : Z :=
  let y := 1970 + (400 * d) / 146097 in
  if d <? DayFromYear y then y - 1
  else if DayFromYear (y + 1) <=? d then y + 1
  else y.

Definition YearFromTime (t : Z) : Z := YearFromDay (Day t).

(** Day within the year on which month [m] (0 = January) begins; [m = 12]
    gives the length of the year. *)
Definition monthStartDay (leap m : Z) : Z :=
  match m with
  | 0 => 0
  | 1 => 31
  | 2 => 59 + leap
  | 3 => 90 + leap
  | 4 => 120 + leap
  | 5 => 151 + leap
  | 6 => 181 + leap
  | 7 => 212 + leap
  | 8 => 243 + leap
  | 9 => 273 + leap
  | 10 => 304 + leap
  | 11 => 334 + leap
  | _ => 365 + leap
  end.

Definition MonthFromDayInYear (leap dy : Z) : Z :=
  if dy <? 31 then 0
  else if dy <? 59 + leap then 1
  else if dy <? 90 + leap then 2
  else if dy <? 120 + leap then 3
  else if dy <? 151 + leap then 4
  else if dy <? 181 + leap then 5
  else if dy <? 212 + leap then 6
  else if dy <? 243 + leap then 7
  else if dy <? 273 + leap then 8
  else if dy <? 304 + leap then 9
  else if dy <? 334 + leap then 10
  else 11.

Definition MonthFromDay (d : Z) : Z :=
  let y := YearFromDay d in
  MonthFromDayInYear (InLeapYear y) (d - DayFromYear y).

Definition MonthFromTime (t : Z) : Z := MonthFromDay (Day t).

(** [MakeDay(year, month, date)]: months outside 0..11 carry into the year,
    dates outside the month carry into the neighbouring months. *)
Definition MakeDay (year month date : Z) : Z :=
  let ym := year + month / 12 in
  let mn := month mod 12 in
  DayFromYear ym + monthStartDay (InLeapYear ym) mn + date - 1.

(** [Date.UTC(year, month, date)], time of day zero. *)
Definition Date_UTC (year month date : Z) : Z :=
  MakeDay year month date * msPerDay.

Definition getUTCFullYear (t : Z) : Z := YearFromTime t.
Definition getUTCMonth (t : Z) : Z := MonthFromTime t.

(** Months counted from year 0: index [12 * y + m]. *)
Definition monthIndex (d : Z) : Z := 12 * YearFromDay d + MonthFromDay d.

(** First day of the month with index [n]. *)
Definition firstDay (n : Z) : Z := MakeDay (n / 12) (n mod 12) 1.

End Calendar.

(** Evaluates [Calendar.monthStartDay] at literal months. *)
Ltac month_table :=
  repeat match goal with
         | |- context [Calendar.monthStartDay ?l (?a + 1)] =>
             let v := eval vm_compute in (a + 1) in change (a + 1) with v
         end;
  cbn [Calendar.monthStartDay].

(** ** JavaScript strings, numbers and values *)

Module JS.

Import Calendar.

(** [String(n)] for an integer Number. *)
Definition Number_toString (z : Z) : string :=
  NilZero.string_of_int (Z.to_int z).

(** A Number that is an integer or [NaN] (the result of [parseInt]). *)
Definition intOrNaN_toString (v : option Z) : string :=
  match v with
  | Some z => Number_toString z
  | None => "NaN"
  end.

Fixpoint zeros (n : nat) : string :=
  match n with
  | O => EmptyString
  | S k => String "0" (zeros k)
  end.

(** [s.padStart(2, '0')]. *)
Definition padStart2 (s : string) : string :=
  (zeros (2 - String.length s) ++ s)%string.

(** Values that reach the engine through the query string or a direct
    call: [undefined], a string, or an integer Number. *)
Inductive jsval :=
| JUndefined
| JString (s : string)
| JNumber (z : Z).

Definition truthy (v : jsval) : bool :=
  match v with
  | JUndefined => false
  | JString s => negb (String.eqb s EmptyString)
  | JNumber z => negb (z =? 0)
  end.

Definition ToString (v : jsval) : string :=
  match v with
  | JUndefined => "undefined"
  | JString s => s
  | JNumber z => Number_toString z
  end.

(** [v === "lit"]. *)
Definition strictEqString (v : jsval) (lit : string) : bool :=
  match v with
  | JString s => String.eqb s lit
  | _ => false
  end.

Definition charCode (c : ascii) : Z := Z.of_N (N_of_ascii c).

(** Decimal digits, and strings made of them. *)
Definition isDigitChar (c : ascii) : Prop :=
  (48 <=? charCode c) && (charCode c <=? 57) = true.

Fixpoint digitString (s : string) : Prop :=
  match s with
  | EmptyString => True
  | String c r => isDigitChar c /\ digitString r
  end.

Definition isWhiteSpace (c : ascii) : bool :=
  let n := charCode c in
  ((9 <=? n) && (n <=? 13)) || (n =? 32).

(** Value of a digit in the given radix (10 or 16). *)
Definition digitValue (radix : Z) (c : ascii) : option Z :=
  let n := charCode c in
  if (48 <=? n) && (n <=? 57) then Some (n - 48)
  else if (radix =? 16) && (97 <=? n) && (n <=? 102) then Some (n - 87)
  else if (radix =? 16) && (65 <=? n) && (n <=? 70) then Some (n - 55)
  else None.

Fixpoint trimStart (cs : list ascii) : list ascii :=
  match cs with
  | c :: r => if isWhiteSpace c then trimStart r else cs
  | [] => []
  end.

(** The longest prefix of digits, as a number; [None] when it is empty. *)
Fixpoint digitPrefix (radix : Z) (cs : list ascii) (acc : option Z) : option Z :=
  match cs with
  | c :: r =>
      match digitValue radix c with
      | Some v => digitPrefix radix r (Some (radix * default 0 acc + v))
      | None => acc
      end
  | [] => acc
  end.

Definition stripSign (cs : list ascii) : bool * list ascii :=
  match cs with
  | "-"%char :: r => (true, r)
  | "+"%char :: r => (false, r)
  | _ => (false, cs)
  end.

Definition stripHexPrefix (cs : list ascii) : option (list ascii) :=
  match cs with
  | "0"%char :: "x"%char :: r => Some r
  | "0"%char :: "X"%char :: r => Some r
  | _ => None
  end.

(** [parseInt(string, radix)] for [radix] 10 ([Some 10]) or absent
    ([None]); the result is an integer or [NaN] ([None]). *)
Definition parseInt (v : jsval) (radix : option Z) : option Z :=
  let cs := trimStart (list_ascii_of_string (ToString v)) in
  let '(neg, cs1) := stripSign cs in
  let '(r, cs2) :=
    match radix, stripHexPrefix cs1 with
    | None, Some rest => (16, rest)
    | _, _ => (10, cs1)
    end in
  match digitPrefix r cs2 None with
  | Some n => Some (if neg then - n else n)
  | None => None
  end.

Fixpoint allDigits (cs : list ascii) (acc : Z) : option Z :=
  match cs with
  | c :: r =>
      match digitValue 10 c with
      | Some v => allDigits r (10 * acc + v)
      | None => None
      end
  | [] => Some acc
  end.

(** The test [/^\d{4}-\d{2}-\d{2}$/] followed by
    [value.split('-').map(Number)]. *)
Definition matchDateOnly (s : string) : option (Z * Z * Z) :=
  match list_ascii_of_string s with
  | [y1; y2; y3; y4; "-"%char; m1; m2; "-"%char; d1; d2] =>
      match allDigits [y1; y2; y3; y4] 0, allDigits [m1; m2] 0,
            allDigits [d1; d2] 0 with
      | Some y, Some m, Some d => Some (y, m, d)
      | _, _, _ => None
      end
  | _ => None
  end.

(** The part of the [Date] string parser every engine shares: the ISO
    date-only form, read as UTC midnight. *)
Definition isoDateOnly (s : string) : option Z :=
  match matchDateOnly s with
  | Some (y, m, d) =>
      if (1 <=? m) && (m <=? 12) && (1 <=? d) &&
         (d <=? MakeDay y m 1 - MakeDay y (m - 1) 1)
      then Some (Date_UTC y (m - 1) d) else None
  | None => None
  end.

End JS.

(** ** Numbers with fractions: binary64 *)

Module Num.

(** The rational a finite float denotes (0 for NaN and the infinities). *)
Definition float_value (x : float) : Q :=
  match Prim2SF x with
  | S754_finite s m e =>
      let n := if s then Zneg m else Zpos m in
      if 0 <=? e then inject_Z (n * 2 ^ e)
      else Qmake n (Pos.pow 2 (Z.to_pos (- e)))
  | _ => 0%Q
  end.

(** Nearest integer, ties towards plus infinity. *)
Definition roundHalfUp (q : Q) : Z := Qfloor (q + (1 # 2)).

(** [Math.round(x)] of a finite [x], as an integer. *)
Definition Math_round (x : float) : Z := roundHalfUp (float_value x).

(** The float nearest to an integer (exact below 2^53). *)
Definition Number_of_Z (z : Z) : float :=
  SF2Prim (binary_normalize prec emax z 0 false).

(** Truthiness of a Number: false for [0], [-0] and [NaN]. *)
Definition truthyNumber (x : float) : bool :=
  negb (PrimFloat.eqb x 0) && negb (PrimFloat.is_nan x).

(** [Number(v || 0)] for a numeric field that may be absent. *)
Definition numberOrZero (v : option float) : float :=
  match v with
  | Some x => if truthyNumber x then x else 0%float
  | None => 0%float
  end.

(** [Math.round(x / d)] for integers [x] and [d > 0]: the exact quotient
    rounded half up. *)
Definition roundDiv (x d : Z) : Z := (2 * x + d) / (2 * d).

End Num.

(** ** The payment routes: accrual allocator and period filter *)

Module Engine.

Import Calendar JS Num.

Definition DAY_IN_MS : Z := 24 * 60 * 60 * 1000.

(** [String(value).padStart(2, '0')] *)
Definition padMonth (value : option Z) : string :=
  padStart2 (intOrNaN_toString value).

(** What a date field of a stored application may hold: nothing
    ([undefined] or [null]), a [Date], or a string. *)
Inductive dateValue :=
| VAbsent
| VDate (t : Z)
| VString (s : string).

Definition truthyDate (v : dateValue) : bool :=
  match v with
  | VAbsent => false
  | VDate _ => true
  | VString s => negb (String.eqb s EmptyString)
  end.

(** [a || b] *)
Definition orElse (a b : dateValue) : dateValue :=
  if truthyDate a then a else b.

Record application := {
  app_id : string;
  leaseGenerated : bool;
  leaseStartDate : dateValue;
  leaseEndDate : dateValue;
  requestedStartDate : dateValue;
  requestedEndDate : dateValue;
  rentalAmount : option float;
  depositAmount : option float
}.

(** The two objects [calculateAccrualAllocations] returns. *)
Record accrual := {
  allocations : gmap string Z;
  nightsByMonth : gmap string Z
}.

Definition emptyAccrual : accrual :=
  {| allocations := ∅; nightsByMonth := ∅ |}.

(** [obj[key] = (obj[key] || 0) + v] *)
Definition addTo (key : string) (v : Z) (obj : gmap string Z) : gmap string Z :=
  <[key := default 0 (obj !! key) + v]> obj.

Definition getMonthKey (date : Z) : string :=
  (Number_toString (getUTCFullYear date) ++ "-" ++
   padMonth (Some (getUTCMonth date + 1)))%string.

Inductive periodConfig :=
| PeriodAll
| PeriodYear (year : option Z)
| PeriodMonth (year month : option Z).

Definition getPeriodConfig (period year month : jsval) : periodConfig :=
  if strictEqString period "year" && truthy year then
    PeriodYear (parseInt year (Some 10))
  else if strictEqString period "month" && truthy year && truthy month then
    PeriodMonth (parseInt year (Some 10)) (parseInt month (Some 10))
  else PeriodAll.

Definition monthMatchesPeriod (monthKey : string) (periodConfig : periodConfig) : bool :=
  match periodConfig with
  | PeriodYear year =>
      String.prefix (intOrNaN_toString year ++ "-") monthKey
  | PeriodMonth year month =>
      String.eqb monthKey (intOrNaN_toString year ++ "-" ++ padMonth month)
  | PeriodAll => true
  end.

Section WithDateParser.

(** [new Date(s)] for a string: its time value, [None] for an Invalid
    Date.  Outside the ISO forms the result depends on the engine. *)
Variable Date_parse : string -> option Z.

Definition parseDateOnly (value : dateValue) : option Z :=
  if negb (truthyDate value) then None
  else match value with
       | VAbsent => None
       | VDate t => Some t
       | VString s =>
           match matchDateOnly s with
           | Some (year, month, day) => Some (Date_UTC year (month - 1) day)
           | None => Date_parse s
           end
       end.

(** One pass through the body of the [while] loop: the accumulated
    objects and the next value of [currentMonth]. *)
Definition accrualStep (leaseStart leaseEnd : Z) (monthlyRent : float)
    (currentMonth : Z) (acc : accrual) : accrual * Z :=
  let monthStart := currentMonth in
  let monthEnd :=
    Date_UTC (getUTCFullYear currentMonth) (getUTCMonth currentMonth + 1) 0 in
  let activeStart := Z.max monthStart leaseStart in
  let activeEnd := Z.min monthEnd leaseEnd in
  let next :=
    Date_UTC (getUTCFullYear currentMonth) (getUTCMonth currentMonth + 1) 1 in
  if activeEnd <? activeStart then (acc, next)
  else
    let activeDays := roundDiv (activeEnd - activeStart) DAY_IN_MS + 1 in
    let daysInMonth := roundDiv (monthEnd - monthStart) DAY_IN_MS + 1 in
    if (activeDays <=? 0) || (daysInMonth <=? 0) then (acc, next)
    else
      let proratedAmount :=
        (monthlyRent * (Number_of_Z activeDays / Number_of_Z daysInMonth))%float in
      let cents := Math_round (proratedAmount * 100)%float in
      let monthKey := getMonthKey monthStart in
      ({| allocations := addTo monthKey cents (allocations acc);
          nightsByMonth := addTo monthKey activeDays (nightsByMonth acc) |},
       next).

(** [while (currentMonth <= finalMonth) { ... }], at most [fuel] passes.
    The result carries the last [currentMonth], so that leaving the loop
    through its condition can be told from running out of fuel. *)
Fixpoint accrualLoop (fuel : nat) (leaseStart leaseEnd : Z) (monthlyRent : float)
    (finalMonth currentMonth : Z) (acc : accrual) : accrual * Z :=
  match fuel with
  | O => (acc, currentMonth)
  | S fuel' =>
      if currentMonth <=? finalMonth then
        let '(acc', next) :=
          accrualStep leaseStart leaseEnd monthlyRent currentMonth acc in
        accrualLoop fuel' leaseStart leaseEnd monthlyRent finalMonth next acc'
      else (acc, currentMonth)
  end.

(** Number of passes that the loop needs at most: one per calendar month
    from the month of [leaseStart] to the month of [leaseEnd], and one more
    for the test that leaves it. *)
Definition accrualFuel (leaseStart leaseEnd : Z) : nat :=
  Z.to_nat (monthIndex (Day leaseEnd) - monthIndex (Day leaseStart) + 2).

(** The three constants the function computes first. *)
Definition leaseStartOf (application : application) : option Z :=
  parseDateOnly (orElse (leaseStartDate application) (requestedStartDate application)).

Definition leaseEndOf (application : application) : option Z :=
  parseDateOnly (orElse (leaseEndDate application) (requestedEndDate application)).

Definition monthlyRentOf (application : application) : float :=
  numberOrZero (rentalAmount application).

Definition calculateAccrualAllocations (application : application) : accrual :=
  match leaseStartOf application, leaseEndOf application with
  | Some leaseStart, Some leaseEnd =>
      if leaseEnd <? leaseStart then emptyAccrual
      else
        let monthlyRent := monthlyRentOf application in
        if negb (truthyNumber monthlyRent) then emptyAccrual
        else
          let currentMonth :=
            Date_UTC (getUTCFullYear leaseStart) (getUTCMonth leaseStart) 1 in
          let finalMonth :=
            Date_UTC (getUTCFullYear leaseEnd) (getUTCMonth leaseEnd) 1 in
          fst (accrualLoop (accrualFuel leaseStart leaseEnd) leaseStart leaseEnd
                 monthlyRent finalMonth currentMonth emptyAccrual)
  | _, _ => emptyAccrual
  end.

End WithDateParser.

End Engine.

(** ** The handler of [GET /admin/revenue-summary] *)

Module Route.

Import Calendar JS Num Engine.

Inductive payment_type :=
| deposit | rent | late_fee | deposit_transfer | admin_transfer | refund | other.

Global Instance payment_type_eq_dec : EqDecision payment_type.
Proof. solve_decision. Defined.

Inductive payment_status :=
| pending | processing | succeeded | failed | canceled.

Inductive refund_category :=
| refund_deposit | refund_rent | refund_other.

Record payment := {
  amount : Z;
  creditCardFee : option Z;
  paymentType : payment_type;
  status : payment_status;
  paidAt : option Z;
  refundAmount : option Z;
  refundCategory : option refund_category;
  applicationId : option string
}.

Definition isSucceeded (p : payment) : bool :=
  match status p with succeeded => true | _ => false end.

Definition isRefund (p : payment) : bool :=
  match paymentType p with refund => true | _ => false end.

Definition isDepositCategory (p : payment) : bool :=
  match refundCategory p with Some refund_deposit => true | _ => false end.

(** [payment.creditCardFee || 0] *)
Definition feeOf (p : payment) : Z := default 0 (creditCardFee p).

(** The [paidAt] condition that the period adds to the payment query. *)
Inductive dateFilter :=
| NoDateFilter
| PaidBetween (gte lt : option Z).

Record cashSummary := {
  totalRevenue : Z;
  netRevenue : Z;
  totalFees : Z;
  refundsTotal : Z;
  paymentCount : nat;
  averagePayment : Q
}.

Record accrualSummaryT := {
  totalEarned : Z;
  occupiedNights : Z;
  averageMonthlyEarned : Z;
  averageNightlyRate : Z;
  monthsInPeriod : Z;
  outstandingDeposits : Z;
  releasedDeposits : Z;
  upcomingRevenue : Z
}.

(** The JSON body of a successful response (without [revenueByType] and the
    sample of recent payments). *)
Record revenueSummary := {
  summary : cashSummary;
  monthlyRevenue : gmap string Z;
  accrualMonthlyRevenue : gmap string Z;
  occupancyByMonth : gmap string Z;
  accrualSummary : accrualSummaryT;
  accrualTimeline : gmap string Z;
  occupancyTimeline : gmap string Z
}.

Inductive response :=
| Forbidden
| ServerError
| Json (body : revenueSummary).

(** State of the [applications.forEach] pass. *)
Record ledger := {
  l_accrualTimeline : gmap string Z;
  l_occupancyTimeline : gmap string Z;
  l_outstandingDeposits : Z;
  l_releasedDeposits : Z
}.

(** State of the two passes that filter the timelines by period. *)
Record periodTotals := {
  totalAccrualEarned : Z;
  totalOccupiedNights : Z;
  monthsCovered : gset string
}.

(** [payments.reduce((sum, payment) => sum + f(payment), 0)] *)
Definition sumOver (f : payment -> Z) (payments : list payment) : Z :=
  fold_left (fun sum payment => sum + f payment) payments 0.

Definition cashSummaryOf (payments : list payment) : cashSummary :=
  let totalRevenue := sumOver amount payments in
  {| totalRevenue := totalRevenue;
     netRevenue := sumOver (fun payment => amount payment - feeOf payment) payments;
     totalFees := sumOver feeOf payments;
     refundsTotal :=
       sumOver (fun payment => Z.abs (amount payment))
         (List.filter (fun payment => isRefund payment || (amount payment <? 0))
            payments);
     paymentCount := length payments;
     averagePayment :=
       if (0 <? length payments)%nat
       then Qmake totalRevenue (Pos.of_nat (length payments))
       else 0%Q |}.

(** [Object.entries(src).forEach(([k, v]) => dst[k] = (dst[k] || 0) + v)] *)
Definition mergeInto (dst src : gmap string Z) : gmap string Z :=
  map_fold (fun k v acc => addTo k v acc) dst src.

(** The two [forEach] passes that apply the period to the timelines. *)
Definition filterAccrual (cfg : periodConfig) (timeline : gmap string Z)
    (t : periodTotals) : periodTotals :=
  map_fold (fun monthKey amount t =>
      if monthMatchesPeriod monthKey cfg then
        {| totalAccrualEarned := totalAccrualEarned t + amount;
           totalOccupiedNights := totalOccupiedNights t;
           monthsCovered := {[monthKey]} ∪ monthsCovered t |}
      else t) t timeline.

Definition filterOccupancy (cfg : periodConfig) (timeline : gmap string Z)
    (t : periodTotals) : periodTotals :=
  map_fold (fun monthKey nights t =>
      if monthMatchesPeriod monthKey cfg then
        {| totalAccrualEarned := totalAccrualEarned t;
           totalOccupiedNights := totalOccupiedNights t + nights;
           monthsCovered := {[monthKey]} ∪ monthsCovered t |}
      else t) t timeline.

Definition periodTotalsOf (cfg : periodConfig)
    (accrualTimeline occupancyTimeline : gmap string Z) : periodTotals :=
  filterOccupancy cfg occupancyTimeline
    (filterAccrual cfg accrualTimeline
       {| totalAccrualEarned := 0; totalOccupiedNights := 0; monthsCovered := ∅ |}).

(** [a || b] on counters. *)
Definition orZ (a b : Z) : Z := if a =? 0 then b else a.

Definition monthsInPeriodOf (cfg : periodConfig) (covered : gset string)
    (accrualTimeline : gmap string Z) : Z :=
  orZ (Z.of_nat (size covered))
    match cfg with
    | PeriodMonth _ _ => 1
    | PeriodYear _ => 12
    | PeriodAll => orZ (Z.of_nat (size accrualTimeline)) 1
    end.

Definition upcomingRevenueOf (currentMonthKey : string)
    (accrualTimeline : gmap string Z) : Z :=
  map_fold (fun monthKey amount upcoming =>
      if String.ltb currentMonthKey monthKey then upcoming + amount
      else upcoming) 0 accrualTimeline.

(** [Object.keys(window).forEach(k => out[k] = timeline[k] || 0)] *)
Definition windowOf (window timeline : gmap string Z) : gmap string Z :=
  map_fold (fun monthKey _ out => <[monthKey := default 0 (timeline !! monthKey)]> out)
    ∅ window.

(** The reduce that builds [depositRefundMap]. *)
Definition refundCentsOf (r : payment) : Z :=
  Z.abs (if negb (amount r =? 0) then amount r
         else match refundAmount r with
              | Some a => a
              | None => 0
              end).

Definition depositRefundMapOf (depositRefundPayments : list payment) : gmap string Z :=
  fold_left (fun map refund =>
      match applicationId refund with
      | None => map
      | Some key => addTo key (refundCentsOf refund) map
      end) depositRefundPayments ∅.

(** [Payment.find({ paymentType: 'refund', refundCategory: 'deposit',
    applicationId: { $exists: true, $ne: null } })] *)
Definition findDepositRefunds (db : list payment) : list payment :=
  List.filter (fun p => isRefund p && isDepositCategory p &&
                        bool_decide (is_Some (applicationId p))) db.

(** [Payment.find({ status: 'succeeded', ...dateFilter })]; a bound that is
    an Invalid Date makes the query fail. *)
Definition findPayments (db : list payment) (f : dateFilter) : option (list payment) :=
  match f with
  | NoDateFilter => Some (List.filter isSucceeded db)
  | PaidBetween (Some gte) (Some lt) =>
      Some (List.filter (fun p =>
              isSucceeded p &&
              match paidAt p with
              | Some t => (gte <=? t) && (t <? lt)
              | None => false
              end) db)
  | PaidBetween _ _ => None
  end.

(** [Application.find({ leaseGenerated: true, leaseStartDate and
    leaseEndDate present and not null })] *)
Definition findApplications (db : list application) : list application :=
  List.filter (fun a =>
      leaseGenerated a &&
      match leaseStartDate a, leaseEndDate a with
      | VAbsent, _ | _, VAbsent => false
      | _, _ => true
      end) db.

Section WithEnvironment.

Variable Date_parse : string -> option Z.

(** Offset of the server's local time from UTC, in milliseconds. *)
Variable tz : Z.

Definition getFullYear (t : Z) : Z := YearFromTime (t + tz).
Definition getMonth (t : Z) : Z := MonthFromTime (t + tz).

(** [new Date(year, month, 1)], local time. *)
Definition newDateLocal (year month date : Z) : Z :=
  MakeDay year month date * msPerDay - tz.

Definition localMonthKey (date : Z) : string :=
  (Number_toString (getFullYear date) ++ "-" ++
   padStart2 (Number_toString (getMonth date + 1)))%string.

Definition addOne (v : option Z) : option Z :=
  match v with
  | Some n => Some (n + 1)
  | None => None
  end.

Definition buildDateFilter (period year month : jsval) : dateFilter :=
  if strictEqString period "year" && truthy year then
    PaidBetween
      (Date_parse (ToString year ++ "-01-01"))
      (Date_parse (intOrNaN_toString (addOne (parseInt year None)) ++ "-01-01"))
  else if strictEqString period "month" && truthy year && truthy month then
    PaidBetween
      (Date_parse (ToString year ++ "-" ++ ToString month ++ "-01"))
      (Date_parse (ToString year ++ "-" ++
                   intOrNaN_toString (addOne (parseInt month None)) ++ "-01"))
  else NoDateFilter.

(** The keys of the last twelve months, [i = 11] down to [0]. *)
Definition trailingMonthKeys (now : Z) : list string :=
  List.map (fun i =>
      localMonthKey (newDateLocal (getFullYear now) (getMonth now - i) 1))
    [11; 10; 9; 8; 7; 6; 5; 4; 3; 2; 1; 0].

Definition addPaymentToMonth (monthlyRevenue : gmap string Z) (payment : payment)
    : gmap string Z :=
  match paidAt payment with
  | Some date =>
      let monthKey := localMonthKey date in
      match monthlyRevenue !! monthKey with
      | Some v => <[monthKey := v + amount payment]> monthlyRevenue
      | None => monthlyRevenue
      end
  | None => monthlyRevenue
  end.

Definition monthlyRevenueOf (now : Z) (payments : list payment) : gmap string Z :=
  fold_left addPaymentToMonth payments
    (fold_left (fun m monthKey => <[monthKey := 0]> m) (trailingMonthKeys now) ∅).

(** The deposit part of one pass of [applications.forEach]. *)
Definition depositStep (nowDate : Z) (depositRefundMap : gmap string Z)
    (application : application) (outstanding released : Z) : Z * Z :=
  let depositCents :=
    Math_round (numberOrZero (depositAmount application) * 100)%float in
  if 0 <? depositCents then
    let refundedCents :=
      Z.min (default 0 (depositRefundMap !! app_id application)) depositCents in
    let heldDeposit := Z.max 0 (depositCents - refundedCents) in
    let leaseEnd := leaseEndOf Date_parse application in
    let released := released + refundedCents in
    match leaseEnd with
    | Some leaseEnd =>
        if nowDate <? leaseEnd then (outstanding + heldDeposit, released)
        else (outstanding, released + heldDeposit)
    | None => (outstanding, released)
    end
  else (outstanding, released).

Definition applicationStep (nowDate : Z) (depositRefundMap : gmap string Z)
    (l : ledger) (application : application) : ledger :=
  let r := calculateAccrualAllocations Date_parse application in
  let '(outstanding, released) :=
    depositStep nowDate depositRefundMap application
      (l_outstandingDeposits l) (l_releasedDeposits l) in
  {| l_accrualTimeline := mergeInto (l_accrualTimeline l) (allocations r);
     l_occupancyTimeline := mergeInto (l_occupancyTimeline l) (nightsByMonth r);
     l_outstandingDeposits := outstanding;
     l_releasedDeposits := released |}.

Definition ledgerOf (nowDate : Z) (depositRefundMap : gmap string Z)
    (applications : list application) : ledger :=
  fold_left (applicationStep nowDate depositRefundMap) applications
    {| l_accrualTimeline := ∅; l_occupancyTimeline := ∅;
       l_outstandingDeposits := 0; l_releasedDeposits := 0 |}.

Definition accrualSummaryOf (cfg : periodConfig) (now : Z) (l : ledger)
    : accrualSummaryT :=
  let t := periodTotalsOf cfg (l_accrualTimeline l) (l_occupancyTimeline l) in
  let monthsInPeriod := monthsInPeriodOf cfg (monthsCovered t) (l_accrualTimeline l) in
  {| totalEarned := totalAccrualEarned t;
     occupiedNights := totalOccupiedNights t;
     averageMonthlyEarned :=
       if 0 <? monthsInPeriod
       then roundDiv (totalAccrualEarned t) monthsInPeriod else 0;
     averageNightlyRate :=
       if 0 <? totalOccupiedNights t
       then roundDiv (totalAccrualEarned t) (totalOccupiedNights t) else 0;
     monthsInPeriod := monthsInPeriod;
     outstandingDeposits := l_outstandingDeposits l;
     releasedDeposits := l_releasedDeposits l;
     upcomingRevenue := upcomingRevenueOf (getMonthKey now) (l_accrualTimeline l) |}.

(** [const { period = 'all', year, month } = req.query] *)
Definition defaultPeriod (period : jsval) : jsval :=
  match period with
  | JUndefined => JString "all"
  | _ => period
  end.

(** The handler.  [isAdmin] is [req.user.role === 'admin']; [period],
    [year], [month] are the query parameters; the two lists are the stored
    payments and applications; [now] is the value of [new Date()]. *)
Definition admin_revenue_summary (isAdmin : bool) (period year month : jsval)
    (paymentsDb : list payment) (applicationsDb : list application) (now : Z)
    : response :=
  if negb isAdmin then Forbidden
  else
    let period := defaultPeriod period in
    let periodConfig := getPeriodConfig period year month in
    match findPayments paymentsDb (buildDateFilter period year month) with
    | None => ServerError
    | Some payments =>
        let monthlyRevenue := monthlyRevenueOf now payments in
        let depositRefundMap := depositRefundMapOf (findDepositRefunds paymentsDb) in
        let l := ledgerOf now depositRefundMap (findApplications applicationsDb) in
        Json {| summary := cashSummaryOf payments;
                monthlyRevenue := monthlyRevenue;
                accrualMonthlyRevenue := windowOf monthlyRevenue (l_accrualTimeline l);
                occupancyByMonth := windowOf monthlyRevenue (l_occupancyTimeline l);
                accrualSummary := accrualSummaryOf periodConfig now l;
                accrualTimeline := l_accrualTimeline l;
                occupancyTimeline := l_occupancyTimeline l |}
    end.

End WithEnvironment.

End Route.

(** ** The quantities the specification names *)

Module Spec.

Import Calendar JS Num Engine Route.

(** Calendar months are numbered from year 0: month [n] is month
    [n mod 12] (0 = January) of year [n / 12]. *)
Definition monthOf (t : Z) : Z := 12 * getUTCFullYear t + getUTCMonth t.

(** First instant of month [n]. *)
Definition monthStart (n : Z) : Z := Date_UTC (n / 12) (n mod 12) 1.

(** Midnight that opens the last day of month [n]. *)
Definition monthEnd (n : Z) : Z := Date_UTC (n / 12) (n mod 12 + 1) 0.

Definition monthKey (n : Z) : string :=
  (Number_toString (n / 12) ++ "-" ++ padMonth (Some (n mod 12 + 1)))%string.

(** Whole days from [a] to [b], rounded half up. *)
Definition daysBetween (a b : Z) : Z := roundDiv (b - a) DAY_IN_MS.

Definition activeStart (leaseStart n : Z) : Z := Z.max (monthStart n) leaseStart.
Definition activeEnd (leaseEnd n : Z) : Z := Z.min (monthEnd n) leaseEnd.

Definition activeDays (leaseStart leaseEnd n : Z) : Z :=
  daysBetween (activeStart leaseStart n) (activeEnd leaseEnd n) + 1.

Definition daysInMonth (n : Z) : Z :=
  daysBetween (monthStart n) (monthEnd n) + 1.

(** The months from the one that contains [leaseStart] through the one that
    contains [leaseEnd], and those of them that are not skipped. *)
Definition monthsSpanned (leaseStart leaseEnd : Z) : list Z :=
  seqZ (monthOf leaseStart) (monthOf leaseEnd - monthOf leaseStart + 1).

Definition isActive (leaseStart leaseEnd n : Z) : bool :=
  negb (activeEnd leaseEnd n <? activeStart leaseStart n).

Definition monthsTouched (leaseStart leaseEnd : Z) : list Z :=
  filter (fun n => isActive leaseStart leaseEnd n) (monthsSpanned leaseStart leaseEnd).

(** The prorated amount of month [n] in cents before rounding, as the
    source computes it: [monthlyRent * (activeDays / daysInMonth) * 100]. *)
Definition proratedCents (monthlyRent : float) (leaseStart leaseEnd n : Z) : float :=
  (monthlyRent *
   (Number_of_Z (activeDays leaseStart leaseEnd n) / Number_of_Z (daysInMonth n)) *
   100)%float.

Definition monthCents (monthlyRent : float) (leaseStart leaseEnd n : Z) : Z :=
  Math_round (proratedCents monthlyRent leaseStart leaseEnd n).



(** What month [n] adds to the two objects. *)
Definition monthStep (monthlyRent : float) (leaseStart leaseEnd : Z)
    (acc : accrual) (n : Z) : accrual :=
  if isActive leaseStart leaseEnd n then
    {| allocations :=
         addTo (monthKey n) (monthCents monthlyRent leaseStart leaseEnd n)
           (allocations acc);
       nightsByMonth :=
         addTo (monthKey n) (activeDays leaseStart leaseEnd n) (nightsByMonth acc) |}
  else acc.

(** The entries of the months touched, for a quantity [f] of the month. *)
Definition monthEntries (f : Z -> Z) (leaseStart leaseEnd : Z) : list (string * Z) :=
  List.map (fun n => (monthKey n, f n)) (monthsTouched leaseStart leaseEnd).

(** Sum of the values of an object. *)
Definition mapSum (m : gmap string Z) : Z :=
  map_fold (fun _ v acc => acc + v) 0 m.

(** Sum of a list of integers and of rationals. *)
Definition sumZ (l : list Z) : Z := fold_right Z.add 0 l.

(** The entries of a timeline whose month key the period accepts, and the
    month keys that the filtered timelines touch. *)
Definition matching (cfg : periodConfig) (timeline : gmap string Z) : gmap string Z :=
  filter (fun kv => monthMatchesPeriod kv.1 cfg = true) timeline.

Definition coveredKeys (cfg : periodConfig)
    (accrualTimeline occupancyTimeline : gmap string Z) : gset string :=
  dom (matching cfg accrualTimeline) ∪ dom (matching cfg occupancyTimeline).

(** The keys of the twelve months that end with the month of [now], in the
    server's local time. *)
Definition trailingWindow (tz now : Z) : list string :=
  List.map (fun i => monthKey (monthOf (now + tz) - i))
    [11; 10; 9; 8; 7; 6; 5; 4; 3; 2; 1; 0].


(** A lease that takes part in the accrual: both dates parse, the end is
    not before the start, and the rent is a non-zero number. *)
Definition participates (Date_parse : string -> option Z) (a : application)
    (leaseStart leaseEnd : Z) : Prop :=
  leaseStartOf Date_parse a = Some leaseStart /\
  leaseEndOf Date_parse a = Some leaseEnd /\
  leaseStart <= leaseEnd /\
  truthyNumber (monthlyRentOf a) = true.

(** A time value that is a calendar date: midnight UTC. *)
Definition dateOnly (t : Z) : Prop := t mod DAY_IN_MS = 0.

End Spec.

(** ** Sample records *)

Module Samples.

Import Calendar JS Num Engine Route.

Definition lease (id : string) (startDate endDate : dateValue)
    (rentalAmount depositAmount : option float) : application :=
  {| app_id := id; leaseGenerated := true;
     leaseStartDate := startDate; leaseEndDate := endDate;
     requestedStartDate := VAbsent; requestedEndDate := VAbsent;
     rentalAmount := rentalAmount; depositAmount := depositAmount |}.

(** 15 January to 10 February 2024, rent 1000.00 a month, deposit 1000.00. *)
Definition leaseJanFeb : application :=
  lease "A-1" (VString "2024-01-15") (VString "2024-02-10")
    (Some 1000%float) (Some 1000%float).

(** The same dates with no rent. *)
Definition leaseNoRent : application :=
  lease "A-2" (VString "2024-01-15") (VString "2024-02-10") (Some 0%float) None.


(** 31 January to 10 February 2024 as [Date]s at 05:00 UTC (midnight in a
    zone five hours behind UTC), rent 1000.00. *)
Definition leaseWithTimeOfDay : application :=
  lease "A-4" (VDate (Date_UTC 2024 0 31 + 5 * 3600000))
    (VDate (Date_UTC 2024 1 10 + 5 * 3600000)) (Some 1000%float) None.

(** A lease without dates. *)
Definition leaseNoDates : application :=
  lease "A-5" VAbsent VAbsent (Some 1000%float) None.

(** A lease with a deposit of 10.00 and one with an end date that does not
    parse. *)
Definition leaseSmallDeposit : application :=
  lease "A-6" (VString "2024-01-15") (VString "2024-02-10")
    (Some 1000%float) (Some 10%float).

Definition leaseBadEnd : application :=
  lease "A-7" (VString "2024-01-15") (VString "soon")
    (Some 1000%float) (Some 10%float).

Definition paid (amount fee : Z) (type : payment_type) (paidAt : Z) : payment :=
  {| amount := amount; creditCardFee := Some fee; paymentType := type;
     status := succeeded; paidAt := Some paidAt; refundAmount := None;
     refundCategory := None; applicationId := None |}.

(** Rent paid in December 2023 and in January 2024, and a refund in
    February 2024. *)
Definition samplePayments : list payment :=
  [ paid 10000 0 rent (Date_UTC 2023 11 5);
    paid 2500 100 rent (Date_UTC 2024 0 5);
    paid (-5000) 0 refund (Date_UTC 2024 1 5) ].

(** 1 February 2024, 12:00 UTC. *)
Definition sampleNow : Z := Date_UTC 2024 1 1 + 12 * 3600000.

End Samples.

(** ** More sample records *)

Module MoreSamples.

Import Calendar JS Num Engine Route Samples.

(** The whole of 2024 at 1000.00 a month. *)
Definition leaseYear2024 : application :=
  lease "A-8" (VString "2024-01-01") (VString "2024-12-31") (Some 1000%float) None.

End MoreSamples.

(** ** The breakdown of the cash revenue by payment type *)

Module Breakdown.

Import Route.

Definition payment_type_code (t : payment_type) : nat :=
  match t with
  | deposit => 0
  | rent => 1
  | late_fee => 2
  | deposit_transfer => 3
  | admin_transfer => 4
  | refund => 5
  | other => 6
  end.

Definition payment_type_of_code (n : nat) : option payment_type :=
  match n with
  | 0 => Some deposit
  | 1 => Some rent
  | 2 => Some late_fee
  | 3 => Some deposit_transfer
  | 4 => Some admin_transfer
  | 5 => Some refund
  | 6 => Some other
  | _ => None
  end%nat.

Global Instance payment_type_countable : Countable payment_type.
Proof.
  apply (inj_countable payment_type_code payment_type_of_code).
  intros []; reflexivity.
Defined.

(** An entry of [revenueByType]: [{ count, amount }]. *)
Record typeRevenue := {
  count : Z;
  amount : Z
}.

(** The reduce that builds [revenueByType], an object keyed by the payment
    type. *)
Definition revenueByTypeOf (payments : list payment) : gmap payment_type typeRevenue :=
  fold_left (fun acc payment =>
      let type := paymentType payment in
      let entry := default {| count := 0; amount := 0 |} (acc !! type) in
      <[type := {| count := count entry + 1;
                   amount := amount entry + Route.amount payment |}]> acc)
    payments ∅.

End Breakdown.

(** ** The revenue dashboard: values derived from the response *)

Module Dashboard.

Import JS Num Engine Route.

(** [revenueByTypeEntries.reduce((sum, [, value]) => sum + (value.amount || 0), 0)] *)
Definition totalRevenueByType (revenueByType : gmap payment_type Breakdown.typeRevenue)
    : Z :=
  map_fold (fun _ value sum => sum + Breakdown.amount value) 0 revenueByType.

(** The order of [Array.prototype.sort] without a comparator, on strings:
    by code units. *)
Definition stringLe (a b : string) : Prop := String.leb a b = true.

Global Instance stringLe_dec a b : Decision (stringLe a b).
Proof. unfold stringLe. apply _. Defined.

(** [Object.keys(cashMonthlyRevenue).sort()] *)
Definition monthKeys (cashMonthlyRevenue : gmap string Z) : list string :=
  merge_sort stringLe (map_to_list cashMonthlyRevenue).*1.

(** [monthKeys.reduce((max, key) => Math.max(max, cash[key] || 0,
    accrual[key] || 0), 0) || 1] *)
Definition maxBarValue (monthKeys : list string)
    (cashMonthlyRevenue accrualMonthlyRevenue : gmap string Z) : Z :=
  orZ (fold_left (fun max key =>
         Z.max max (Z.max (default 0 (cashMonthlyRevenue !! key))
                          (default 0 (accrualMonthlyRevenue !! key))))
         monthKeys 0) 1.

(** A row of the occupancy table, without its label. *)
Record occupancyRow := {
  key : string;
  nights : Z;
  nightlyRate : Z
}.

(** [keys.slice(-6)] *)
Definition lastSix (keys : list string) : list string :=
  drop (length keys - 6) keys.

(** [monthKeys.slice(-6).reverse().map(key => ...)] *)
Definition occupancyRows (monthKeys : list string)
    (occupancyByMonth accrualMonthlyRevenue : gmap string Z) : list occupancyRow :=
  List.map (fun key =>
      let nights := default 0 (occupancyByMonth !! key) in
      let monthlyEarned := default 0 (accrualMonthlyRevenue !! key) in
      {| key := key;
         nights := nights;
         nightlyRate := if 0 <? nights then roundDiv monthlyEarned nights else 0 |})
    (rev (lastSix monthKeys)).

End Dashboard.

(** ** The stored documents and the routes that move deposits

    A payment document carries, beside the fields the revenue summary reads
    ([fields]), the fields of the transfer routes.  Of the schema, the
    validation that [save] runs is modelled for the paths of this record:
    [totalAmount] is required and [creditCardFee] is not negative.  The
    identifiers of new documents are arguments of the routes;
    [stripePaymentIntentId], descriptions, metadata and timestamps are left
    out, and with them the order of a query result sorted by [createdAt].
    Amounts in a request body are integer Numbers. *)

Module Store.

Import JS Num Engine Route.

Inductive payment_method := card | bank_transfer | cash | check.

Record paymentDoc := {
  doc_id : string;
  userId : string;
  fields : payment;
  totalAmount : option Z;
  paymentMethod : payment_method;
  isDepositTransfer : bool;
  transferredFromApplicationId : option string;
  transferredToApplicationId : option string;
  originalDepositAmount : option Z
}.

(** An application with the user it refers to ([None] when [populate] finds
    no user) and its [paymentReceived] flag. *)
Record applicationDoc := {
  lease : application;
  owner : option string;
  paymentReceived : bool
}.

Record store := {
  payments : list paymentDoc;
  applications : list applicationDoc
}.

(** The status of the response. *)
Inductive reply := Ok200 | Err400 | Err403 | Err404 | Err500.

(** Truthiness of an identifier and of an amount of the request. *)
Definition truthyId (v : option string) : bool :=
  match v with
  | Some s => negb (String.eqb s EmptyString)
  | None => false
  end.

Definition truthyAmount (v : option Z) : bool :=
  match v with
  | Some z => negb (z =? 0)
  | None => false
  end.

Definition appIs (id : string) (d : paymentDoc) : bool :=
  match applicationId (fields d) with
  | Some a => String.eqb a id
  | None => false
  end.

(** The validators of the schema that [save] runs. *)
Definition validate (d : paymentDoc) : bool :=
  bool_decide (is_Some (totalAmount d)) && (0 <=? feeOf (fields d)).

(** [await doc.save()] of a new document; [None] when validation fails. *)
Definition save (d : paymentDoc) (s : store) : option store :=
  if validate d then
    Some {| payments := payments s ++ [d]; applications := applications s |}
  else None.

(** [Application.findById(id)] *)
Definition findById (id : string) (s : store) : option applicationDoc :=
  List.find (fun a => String.eqb (app_id (lease a)) id) (applications s).

(** [Application.findOne({ _id: id, userId: user })] *)
Definition findOwned (id user : string) (s : store) : option applicationDoc :=
  List.find (fun a =>
      String.eqb (app_id (lease a)) id &&
      match owner a with
      | Some u => String.eqb u user
      | None => false
      end) (applications s).

(** [app.paymentReceived = true; await app.save()] *)
Definition markReceived (id : string) (s : store) : store :=
  {| payments := payments s;
     applications :=
       List.map (fun a =>
           if String.eqb (app_id (lease a)) id then
             {| lease := lease a; owner := owner a; paymentReceived := true |}
           else a) (applications s) |}.

(** [deposit.transferredToApplicationId = to; await deposit.save()] *)
Definition markTransferred (id to : string) (s : store) : store :=
  {| payments :=
       List.map (fun d =>
           if String.eqb (doc_id d) id then
             {| doc_id := doc_id d; userId := userId d; fields := fields d;
                totalAmount := totalAmount d; paymentMethod := paymentMethod d;
                isDepositTransfer := isDepositTransfer d;
                transferredFromApplicationId := transferredFromApplicationId d;
                transferredToApplicationId := Some to;
                originalDepositAmount := originalDepositAmount d |}
           else d) (payments s);
     applications := applications s |}.

(** The fields of a transfer record; [creditCardFee] takes its default. *)
Definition transferFields (amount : Z) (type : payment_type) (application : string)
    (now : Z) : payment :=
  {| Route.amount := amount; creditCardFee := Some 0; paymentType := type;
     status := succeeded; paidAt := Some now; refundAmount := None;
     refundCategory := None; applicationId := Some application |}.

(** [GET /available-deposits] *)
Definition available_deposits (user : string) (applicationId : option string)
    (s : store) : reply * list paymentDoc :=
  if negb (truthyId applicationId) then (Err400, [])
  else
    let deposits :=
      List.filter (fun d =>
          String.eqb (userId d) user &&
          bool_decide (paymentType (fields d) = deposit) &&
          isSucceeded (fields d) && negb (isDepositTransfer d)) (payments s) in
    (Ok200,
     List.filter (fun deposit => negb (truthyId (transferredToApplicationId deposit)))
       deposits).

(** An entry of [applicationBalances]. *)
Record balance := {
  totalBalance : Z;
  paymentCount : Z
}.

(** [payment.applicationId] after [populate]: the application, or [null]
    when the payment has none or the application is not in the store. *)
Definition populated (s : store) (payment : paymentDoc) : option applicationDoc :=
  match applicationId (fields payment) with
  | Some id => List.find (fun a => String.eqb (app_id (lease a)) id) (applications s)
  | None => None
  end.

(** The [forEach] that groups the available payments by application;
    [payment.applicationId._id] of a payment without application throws. *)
Definition groupBalances (s : store) (availablePayments : list paymentDoc)
    : option (gmap string balance) :=
  fold_left (fun acc payment =>
      match acc, populated s payment with
      | Some applicationBalances, Some application =>
          let appId := app_id (lease application) in
          let entry :=
            default {| totalBalance := 0; paymentCount := 0 |}
              (applicationBalances !! appId) in
          Some (<[appId := {| totalBalance := totalBalance entry + amount (fields payment);
                              paymentCount := paymentCount entry + 1 |}]>
                  applicationBalances)
      | _, _ => None
      end) availablePayments (Some ∅).

(** The payments that [GET /admin/available-deposits] groups. *)
Definition availablePaymentsOf (user : string) (s : store) : list paymentDoc :=
  List.filter (fun payment => negb (truthyId (transferredToApplicationId payment)))
    (List.filter (fun d => String.eqb (userId d) user && isSucceeded (fields d))
       (payments s)).

(** [GET /admin/available-deposits]: the balances by application. *)
Definition admin_available_deposits (isAdmin : bool) (userId : option string)
    (s : store) : reply * gmap string balance :=
  if negb isAdmin then (Err403, ∅)
  else
    match userId with
    | Some user =>
        if negb (truthyId userId) then (Err400, ∅)
        else
          match groupBalances s (availablePaymentsOf user s) with
          | Some applicationBalances => (Ok200, applicationBalances)
          | None => (Err500, ∅)
          end
    | None => (Err400, ∅)
    end.

(** [POST /transfer-deposit] of the user [user]. *)
Definition transfer_deposit (user : string)
    (fromApplicationId toApplicationId : option string) (depositAmount : option Z)
    (now : Z) (newId : string) (s : store) : reply * store :=
  if negb (truthyId fromApplicationId) || negb (truthyId toApplicationId) ||
     negb (truthyAmount depositAmount) then (Err400, s)
  else
    match fromApplicationId, toApplicationId, depositAmount with
    | Some from, Some to, Some depositAmount =>
        match findOwned from user s, findOwned to user s with
        | None, _ => (Err404, s)
        | Some _, None => (Err404, s)
        | Some fromApp, Some toApp =>
            match List.find (fun d =>
                      String.eqb (userId d) user && appIs from d &&
                      bool_decide (paymentType (fields d) = deposit) &&
                      isSucceeded (fields d) && negb (isDepositTransfer d))
                    (payments s) with
            | None => (Err404, s)
            | Some originalDeposit =>
                if amount (fields originalDeposit) <? depositAmount then (Err400, s)
                else
                  let transferPayment :=
                    {| doc_id := newId; userId := user;
                       fields := transferFields depositAmount deposit_transfer to now;
                       totalAmount := None; paymentMethod := card;
                       isDepositTransfer := true;
                       transferredFromApplicationId := Some from;
                       transferredToApplicationId := Some to;
                       originalDepositAmount := Some (amount (fields originalDeposit)) |} in
                  match save transferPayment s with
                  | None => (Err500, s)
                  | Some s1 =>
                      (Ok200,
                       markTransferred (doc_id originalDeposit) to (markReceived to s1))
                  end
            end
        end
    | _, _, _ => (Err400, s)
    end.

(** The succeeded payments of an application of a user, and their sum. *)
Definition sourcePaymentsOf (user application : string) (s : store) : list paymentDoc :=
  List.filter (fun d =>
      String.eqb (userId d) user && appIs application d && isSucceeded (fields d))
    (payments s).

Definition balanceOf (user application : string) (s : store) : Z :=
  fold_left (fun sum payment => sum + amount (fields payment))
    (sourcePaymentsOf user application s) 0.

(** A record of [POST /admin/transfer-amount]. *)
Definition adminTransferDoc (id user application from to : string) (amount depositAmount now : Z)
    : paymentDoc :=
  {| doc_id := id; userId := user;
     fields := transferFields amount admin_transfer application now;
     totalAmount := Some amount; paymentMethod := card;
     isDepositTransfer := true;
     transferredFromApplicationId := Some from;
     transferredToApplicationId := Some to;
     originalDepositAmount := Some depositAmount |}.

(** [POST /admin/transfer-amount] *)
Definition admin_transfer_amount (isAdmin : bool)
    (fromApplicationId toApplicationId : option string) (depositAmount : option Z)
    (nowTo nowFrom : Z) (idTo idFrom : string) (s : store) : reply * store :=
  if negb isAdmin then (Err403, s)
  else if negb (truthyId fromApplicationId) || negb (truthyId toApplicationId) ||
          negb (truthyAmount depositAmount) then (Err400, s)
  else
    match fromApplicationId, toApplicationId, depositAmount with
    | Some from, Some to, Some depositAmount =>
        match findById from s, findById to s with
        | None, _ => (Err404, s)
        | Some _, None => (Err404, s)
        | Some fromApp, Some toApp =>
            match owner fromApp, owner toApp with
            | Some fromUser, Some toUser =>
                if negb (String.eqb fromUser toUser) then (Err400, s)
                else
                  let sourcePayments := sourcePaymentsOf fromUser from s in
                  if (length sourcePayments =? 0)%nat then (Err404, s)
                  else
                    let totalSourceBalance := balanceOf fromUser from s in
                    if totalSourceBalance <? depositAmount then (Err400, s)
                    else
                      let transferPayment :=
                        adminTransferDoc idTo fromUser to from to depositAmount
                          depositAmount nowTo in
                      let transferDebit :=
                        adminTransferDoc idFrom fromUser from from to (- depositAmount)
                          depositAmount nowFrom in
                      match save transferPayment s with
                      | None => (Err500, s)
                      | Some s1 =>
                          match save transferDebit s1 with
                          | None => (Err500, s1)
                          | Some s2 => (Ok200, markReceived to s2)
                          end
                      end
            | _, _ => (Err500, s)
            end
        end
    | _, _, _ => (Err400, s)
    end.

(** [allowedRefundTypes.includes(refundType) ? refundType : 'other'], with
    the default ['deposit'] of an absent [refundType]. *)
Definition normalizeRefundType (refundType : option string) : refund_category :=
  match refundType with
  | None => refund_deposit
  | Some type =>
      if String.eqb type "deposit" then refund_deposit
      else if String.eqb type "rent" then refund_rent
      else refund_other
  end.

(** [POST /admin/manual-refund].  [amount] is [parseFloat(amount)], [None]
    when the body has no amount; [paidAt] is the date of the refund, the
    request's or the current one, [None] when it is an Invalid Date, which
    [save] refuses. *)
Definition manual_refund (isAdmin : bool) (applicationId : option string)
    (amount : option float) (refundType : option string) (paidAt : option Z)
    (newId : string) (s : store) : reply * store :=
  if negb isAdmin then (Err403, s)
  else
    match applicationId, amount with
    | Some id, Some parsedAmount =>
        if negb (truthyId applicationId) then (Err400, s)
        else if PrimFloat.is_nan parsedAmount || (parsedAmount <=? 0)%float
        then (Err400, s)
        else
          match findById id s with
          | None => (Err404, s)
          | Some application =>
              match owner application with
              | None => (Err404, s)
              | Some user =>
                  let cents := Math_round (parsedAmount * 100)%float in
                  let negativeCents := cents * -1 in
                  match paidAt with
                  | None => (Err500, s)
                  | Some paidAt =>
                      let refundPayment :=
                        {| doc_id := newId; userId := user;
                           fields :=
                             {| Route.amount := negativeCents; creditCardFee := Some 0;
                                paymentType := refund; status := succeeded;
                                paidAt := Some paidAt; refundAmount := Some cents;
                                refundCategory := Some (normalizeRefundType refundType);
                                applicationId := Some (app_id (lease application)) |};
                           totalAmount := Some negativeCents; paymentMethod := check;
                           isDepositTransfer := false;
                           transferredFromApplicationId := None;
                           transferredToApplicationId := None;
                           originalDepositAmount := None |} in
                      match save refundPayment s with
                      | None => (Err500, s)
                      | Some s1 => (Ok200, s1)
                      end
                  end
              end
          end
    | _, _ => (Err400, s)
    end.

(** The payments as the revenue summary reads them. *)
Definition paymentsOf (s : store) : list payment := List.map fields (payments s).

End Store.

(** ** A sample store *)

Module StoreSamples.

Import Calendar JS Num Engine Route Samples MoreSamples Store.

Definition paidFor (application : string) (amount : Z) (type : payment_type)
    (paidAt : Z) : payment :=
  {| Route.amount := amount; creditCardFee := Some 0; paymentType := type;
     status := succeeded; paidAt := Some paidAt; refundAmount := None;
     refundCategory := None; applicationId := Some application |}.

Definition stored (id user : string) (p : payment) : paymentDoc :=
  {| doc_id := id; userId := user; fields := p;
     totalAmount := Some (Route.amount p + feeOf p); paymentMethod := card;
     isDepositTransfer := false;
     transferredFromApplicationId := None; transferredToApplicationId := None;
     originalDepositAmount := None |}.

(** One user with two applications; a deposit of 1000.00 and a rent payment
    on the first. *)
Definition sampleStore : store :=
  {| payments :=
       [ stored "P-1" "U-1" (paidFor "A-1" 100000 deposit (Date_UTC 2024 0 2));
         stored "P-2" "U-1" (paidFor "A-1" 54839 rent (Date_UTC 2024 0 15)) ];
     applications :=
       [ {| lease := leaseJanFeb; owner := Some "U-1"%string; paymentReceived := true |};
         {| lease := leaseYear2024; owner := Some "U-1"%string;
            paymentReceived := false |} ] |}.

(** The same store with a payment that refers to no application. *)
Definition storeWithOrphan : store :=
  {| payments :=
       payments sampleStore ++
       [ stored "P-9" "U-1"
           {| Route.amount := 2500; creditCardFee := Some 0; paymentType := other;
              status := succeeded; paidAt := Some (Date_UTC 2024 0 20);
              refundAmount := None; refundCategory := None; applicationId := None |} ];
     applications := applications sampleStore |}.

End StoreSamples.

(** * Properties *)

(** ** The calendar *)

Module CalendarFacts.

Import Calendar.

Lemma DayFromYear_step y : DayFromYear (y + 1) = DayFromYear y + DaysInYear y.
Proof.
  unfold DayFromYear, DaysInYear, InLeapYear.
  destruct (Z.eqb_spec (y mod 4) 0), (Z.eqb_spec (y mod 100) 0),
    (Z.eqb_spec (y mod 400) 0); simpl; lia.
Qed.

Lemma InLeapYear_range y : 0 <= InLeapYear y <= 1.
Proof. unfold InLeapYear. destruct (_ && _); lia. Qed.

Lemma DayFromYear_lt y y' : y < y' -> DayFromYear y < DayFromYear y'.
Proof. unfold DayFromYear. lia. Qed.

Lemma DayFromYear_le y y' : y <= y' -> DayFromYear y <= DayFromYear y'.
Proof. unfold DayFromYear. lia. Qed.

Lemma YearFromDay_spec d :
  DayFromYear (YearFromDay d) <= d < DayFromYear (YearFromDay d + 1).
Proof.
  unfold YearFromDay.
  set (y := 1970 + 400 * d / 146097).
  destruct (Z.ltb_spec d (DayFromYear y)) as [H1|H1].
  - replace (y - 1 + 1) with y by lia. split; [|lia].
    subst y. unfold DayFromYear in *. lia.
  - destruct (Z.leb_spec (DayFromYear (y + 1)) d) as [H2|H2]; [|lia].
    split; [lia|]. subst y. unfold DayFromYear in *. lia.
Qed.

Lemma YearFromDay_unique d y :
  DayFromYear y <= d < DayFromYear (y + 1) -> YearFromDay d = y.
Proof.
  intros H. pose proof (YearFromDay_spec d) as Hs.
  destruct (Z.lt_trichotomy (YearFromDay d) y) as [Hlt|[Heq|Hgt]]; [|done|].
  - pose proof (DayFromYear_le (YearFromDay d + 1) y). lia.
  - pose proof (DayFromYear_le (y + 1) (YearFromDay d)). lia.
Qed.


Lemma YearFromDay_range d :
  let y := YearFromDay d in
  0 <= d - DayFromYear y < 365 + InLeapYear y.
Proof.
  intros y. pose proof (YearFromDay_spec d) as H. fold y in H.
  rewrite DayFromYear_step in H. unfold DaysInYear in H. lia.
Qed.

Lemma MonthFromDayInYear_spec leap dy :
  0 <= leap <= 1 -> 0 <= dy < 365 + leap ->
  let m := MonthFromDayInYear leap dy in
  0 <= m <= 11 /\ monthStartDay leap m <= dy < monthStartDay leap (m + 1).
Proof.
  intros Hl Hd. unfold MonthFromDayInYear.
  repeat (match goal with
          | |- context [?a <? ?b] => destruct (Z.ltb_spec a b)
          end; [month_table; lia|]).
  month_table. lia.
Qed.

Lemma MonthFromDayInYear_unique leap dy m :
  0 <= leap <= 1 -> 0 <= m <= 11 ->
  monthStartDay leap m <= dy < monthStartDay leap (m + 1) ->
  MonthFromDayInYear leap dy = m.
Proof.
  intros Hl Hm.
  assert (m = 0 \/ m = 1 \/ m = 2 \/ m = 3 \/ m = 4 \/ m = 5 \/ m = 6 \/
          m = 7 \/ m = 8 \/ m = 9 \/ m = 10 \/ m = 11) as Hc by lia.
  unfold MonthFromDayInYear.
  repeat (destruct Hc as [->|Hc]; [month_table; intros Hd;
    repeat (match goal with
            | |- context [?a <? ?b] => destruct (Z.ltb_spec a b)
            end; try lia); reflexivity|]).
  subst m. month_table. intros Hd.
  repeat (match goal with
          | |- context [?a <? ?b] => destruct (Z.ltb_spec a b)
          end; try lia).
Qed.

Lemma MonthFromDay_range d : 0 <= MonthFromDay d <= 11.
Proof.
  unfold MonthFromDay.
  apply MonthFromDayInYear_spec;
    [apply InLeapYear_range | apply YearFromDay_range].
Qed.

(** The first day of a month, as year start plus offset in the year. *)
Lemma firstDay_eq n :
  firstDay n = DayFromYear (n / 12) + monthStartDay (InLeapYear (n / 12)) (n mod 12).
Proof.
  unfold firstDay, MakeDay.
  replace (n / 12 + n mod 12 / 12) with (n / 12) by lia.
  replace (n mod 12 mod 12) with (n mod 12) by lia. lia.
Qed.

Lemma firstDay_succ n :
  firstDay (n + 1) =
  DayFromYear (n / 12) + monthStartDay (InLeapYear (n / 12)) (n mod 12 + 1).
Proof.
  rewrite firstDay_eq.
  destruct (Z.eq_dec (n mod 12) 11) as [E|E].
  - replace ((n + 1) / 12) with (n / 12 + 1) by lia.
    replace ((n + 1) mod 12) with 0 by lia.
    rewrite E, DayFromYear_step. unfold DaysInYear. month_table. lia.
  - replace ((n + 1) / 12) with (n / 12) by lia.
    replace ((n + 1) mod 12) with (n mod 12 + 1) by lia. reflexivity.
Qed.

Lemma monthStartDay_step leap m :
  0 <= leap <= 1 -> 0 <= m <= 11 ->
  28 <= monthStartDay leap (m + 1) - monthStartDay leap m <= 31.
Proof.
  intros Hl Hm.
  assert (m = 0 \/ m = 1 \/ m = 2 \/ m = 3 \/ m = 4 \/ m = 5 \/ m = 6 \/
          m = 7 \/ m = 8 \/ m = 9 \/ m = 10 \/ m = 11) as Hc by lia.
  repeat (destruct Hc as [->|Hc]; [month_table; lia|]). subst m. month_table. lia.
Qed.

Lemma monthStartDay_bounds leap m :
  0 <= leap <= 1 -> 0 <= m <= 12 ->
  0 <= monthStartDay leap m <= 365 + leap.
Proof.
  intros Hl Hm.
  assert (m = 0 \/ m = 1 \/ m = 2 \/ m = 3 \/ m = 4 \/ m = 5 \/ m = 6 \/
          m = 7 \/ m = 8 \/ m = 9 \/ m = 10 \/ m = 11 \/ m = 12) as Hc by lia.
  repeat (destruct Hc as [->|Hc]; [month_table; lia|]). subst m. month_table. lia.
Qed.

(** A month has between 28 and 31 days. *)
Lemma firstDay_step n : 28 <= firstDay (n + 1) - firstDay n <= 31.
Proof.
  rewrite firstDay_succ, firstDay_eq.
  pose proof (monthStartDay_step (InLeapYear (n / 12)) (n mod 12)
                (InLeapYear_range _)). lia.
Qed.

Lemma firstDay_lt n n' : n < n' -> firstDay n < firstDay n'.
Proof.
  intros H. replace n' with (n + 1 + Z.of_nat (Z.to_nat (n' - n - 1))) by lia.
  induction (Z.to_nat (n' - n - 1)) as [|k IH].
  - pose proof (firstDay_step n). replace (n + 1 + Z.of_nat 0) with (n + 1) by lia. lia.
  - pose proof (firstDay_step (n + 1 + Z.of_nat k)).
    replace (n + 1 + Z.of_nat (S k)) with (n + 1 + Z.of_nat k + 1) by lia. lia.
Qed.

Lemma firstDay_le n n' : n <= n' -> firstDay n <= firstDay n'.
Proof.
  intros H. destruct (Z.eq_dec n n') as [->|]; [lia|].
  pose proof (firstDay_lt n n'). lia.
Qed.

Lemma firstDay_lt_inv n n' : firstDay n < firstDay n' -> n < n'.
Proof.
  intros H. destruct (Z.lt_ge_cases n n') as [|Hge]; [done|].
  pose proof (firstDay_le n' n). lia.
Qed.

(** A day lies in the month whose first day precedes it most closely. *)
Lemma monthIndex_unique d n :
  firstDay n <= d < firstDay (n + 1) -> monthIndex d = n.
Proof.
  rewrite firstDay_succ, firstDay_eq. intros H.
  pose proof (InLeapYear_range (n / 12)) as Hl.
  pose proof (monthStartDay_bounds (InLeapYear (n / 12)) (n mod 12) Hl).
  pose proof (monthStartDay_bounds (InLeapYear (n / 12)) (n mod 12 + 1) Hl).
  assert (YearFromDay d = n / 12) as Hy.
  { apply YearFromDay_unique. rewrite DayFromYear_step. unfold DaysInYear. lia. }
  unfold monthIndex, MonthFromDay. rewrite Hy.
  rewrite (MonthFromDayInYear_unique _ _ (n mod 12)); lia.
Qed.

Lemma monthIndex_bounds d :
  firstDay (monthIndex d) <= d < firstDay (monthIndex d + 1).
Proof.
  pose proof (MonthFromDay_range d) as Hm.
  pose proof (YearFromDay_range d) as Hy. cbv zeta in Hy.
  pose proof (MonthFromDayInYear_spec (InLeapYear (YearFromDay d))
                (d - DayFromYear (YearFromDay d)) (InLeapYear_range _) Hy) as Hs.
  cbv zeta in Hs. fold (MonthFromDay d) in Hs.
  rewrite firstDay_succ, firstDay_eq. unfold monthIndex.
  replace ((12 * YearFromDay d + MonthFromDay d) / 12) with (YearFromDay d) by lia.
  replace ((12 * YearFromDay d + MonthFromDay d) mod 12) with (MonthFromDay d) by lia.
  lia.
Qed.

Lemma monthIndex_firstDay n : monthIndex (firstDay n) = n.
Proof. apply monthIndex_unique. pose proof (firstDay_step n). lia. Qed.

Lemma monthIndex_mono d d' : d <= d' -> monthIndex d <= monthIndex d'.
Proof.
  intros H. pose proof (monthIndex_bounds d). pose proof (monthIndex_bounds d').
  destruct (Z.le_gt_cases (monthIndex d) (monthIndex d')) as [|Hgt]; [done|].
  pose proof (firstDay_le (monthIndex d' + 1) (monthIndex d)). lia.
Qed.

Lemma YearFromDay_firstDay n : YearFromDay (firstDay n) = n / 12.
Proof.
  pose proof (monthIndex_firstDay n) as H. unfold monthIndex in H.
  pose proof (MonthFromDay_range (firstDay n)). lia.
Qed.

Lemma MonthFromDay_firstDay n : MonthFromDay (firstDay n) = n mod 12.
Proof.
  pose proof (monthIndex_firstDay n) as H. unfold monthIndex in H.
  pose proof (MonthFromDay_range (firstDay n)). lia.
Qed.

Lemma Day_of_midnight d : Day (d * msPerDay) = d.
Proof. unfold Day, msPerDay. lia. Qed.

(** [MakeDay] at a normalised month and at the two dates the loop uses. *)
Lemma MakeDay_firstDay y m : MakeDay y m 1 = firstDay (12 * y + m).
Proof.
  unfold firstDay, MakeDay.
  replace ((12 * y + m) / 12) with (y + m / 12) by lia.
  replace ((12 * y + m) mod 12) with (m mod 12) by lia.
  replace (m mod 12 / 12) with 0 by lia.
  replace (m mod 12 mod 12) with (m mod 12) by lia.
  replace (y + m / 12 + 0) with (y + m / 12) by lia. reflexivity.
Qed.

Lemma MakeDay_next n date :
  MakeDay (n / 12) (n mod 12 + 1) date = firstDay (n + 1) + date - 1.
Proof.
  rewrite firstDay_succ. unfold MakeDay.
  destruct (Z.eq_dec (n mod 12) 11) as [E|E].
  - rewrite E. change ((11 + 1) / 12) with 1. change ((11 + 1) mod 12) with 0.
    rewrite DayFromYear_step. unfold DaysInYear. month_table. lia.
  - replace ((n mod 12 + 1) / 12) with 0 by lia.
    replace ((n mod 12 + 1) mod 12) with (n mod 12 + 1) by lia.
    replace (n / 12 + 0) with (n / 12) by lia. lia.
Qed.

End CalendarFacts.

(** ** Month keys *)

Module KeyFacts.

Import Calendar JS Num Engine Spec CalendarFacts.

Local Open Scope string_scope.

Lemma string_of_uint_digits d : digitString (NilEmpty.string_of_uint d).
Proof. induction d; simpl; auto; split; auto; reflexivity. Qed.

Lemma string_of_uint_nonempty d : NilZero.string_of_uint d <> EmptyString.
Proof. destruct d; discriminate. Qed.

Lemma NilZero_digits d : digitString (NilZero.string_of_uint d).
Proof.
  destruct d; try apply string_of_uint_digits. simpl. split; [reflexivity|exact I].
Qed.

(** A printed integer is a non-empty string of digits, after a minus sign
    when it is negative. *)
Lemma Number_toString_shape z :
  exists u, digitString u /\ u <> EmptyString /\
    (Number_toString z = u \/ Number_toString z = String "-" u).
Proof.
  unfold Number_toString. destruct (Z.to_int z) as [d|d]; simpl;
    exists (NilZero.string_of_uint d);
    auto using NilZero_digits, string_of_uint_nonempty.
Qed.

Lemma Number_toString_inj a b : Number_toString a = Number_toString b -> a = b.
Proof.
  unfold Number_toString. intros H.
  apply DecimalZ.to_int_inj.
  assert (forall z, Z.to_int z <> Decimal.Pos Decimal.Nil /\
                    Z.to_int z <> Decimal.Neg Decimal.Nil) as Hn.
  { intros [|p|p]; simpl; split; try discriminate;
      intros [= Hp]; exact (DecimalPos.Unsigned.to_uint_nonnil p Hp). }
  apply (f_equal NilZero.int_of_string) in H.
  rewrite !NilZero.isi in H by apply Hn. congruence.
Qed.

Lemma digit_not_dash c : isDigitChar c -> c <> "-"%char.
Proof. intros H ->. discriminate H. Qed.

Lemma digit_not_N c : isDigitChar c -> c <> "N"%char.
Proof. intros H ->. discriminate H. Qed.

(** Two digit strings followed by a dash: the dash is at the same place. *)
Lemma digits_dash_split a b r1 r2 :
  digitString a -> digitString b ->
  a ++ String "-" r1 = b ++ String "-" r2 -> a = b /\ r1 = r2.
Proof.
  revert b. induction a as [|c a IH]; intros [|c' b]; simpl.
  - intros _ _ [= ->]. done.
  - intros _ [Hc _] [= <- _]. by destruct (digit_not_dash _ Hc).
  - intros [Hc _] _ [= -> _]. by destruct (digit_not_dash _ Hc).
  - intros [_ Ha] [_ Hb] [= -> H]. destruct (IH b Ha Hb H) as [-> ->]. done.
Qed.

Lemma key_split y y' r r' :
  Number_toString y ++ "-" ++ r = Number_toString y' ++ "-" ++ r' ->
  y = y' /\ r = r'.
Proof.
  destruct (Number_toString_shape y) as (u & Hu & Hne & Hy).
  destruct (Number_toString_shape y') as (u' & Hu' & Hne' & Hy').
  intros H.
  assert (Number_toString y = Number_toString y' /\ r = r') as [E ->].
  { destruct u as [|c u]; [done|]. destruct u' as [|c' u']; [done|].
    destruct Hu as [Hc Hu0], Hu' as [Hc' Hu0'].
    destruct Hy as [Hy|Hy], Hy' as [Hy'|Hy']; rewrite Hy, Hy' in H |- *;
      simpl in H.
    - injection H as -> H.
      destruct (digits_dash_split u u' r r' Hu0 Hu0' H) as [-> ->]. done.
    - injection H as -> _. by destruct (digit_not_dash _ Hc).
    - injection H as <- _. by destruct (digit_not_dash _ Hc').
    - injection H as -> H.
      destruct (digits_dash_split u u' r r' Hu0 Hu0' H) as [-> ->]. done. }
  split; [by apply Number_toString_inj|done].
Qed.

Lemma padMonth_inj m m' :
  (1 <= m <= 12)%Z -> (1 <= m' <= 12)%Z ->
  padMonth (Some m) = padMonth (Some m') -> m = m'.
Proof.
  intros Hm Hm'.
  assert (m = 1 \/ m = 2 \/ m = 3 \/ m = 4 \/ m = 5 \/ m = 6 \/ m = 7 \/
          m = 8 \/ m = 9 \/ m = 10 \/ m = 11 \/ m = 12)%Z as Hc by lia.
  assert (m' = 1 \/ m' = 2 \/ m' = 3 \/ m' = 4 \/ m' = 5 \/ m' = 6 \/ m' = 7 \/
          m' = 8 \/ m' = 9 \/ m' = 10 \/ m' = 11 \/ m' = 12)%Z as Hc' by lia.
  clear Hm Hm'.
  repeat (destruct Hc as [->|Hc]);
    repeat (destruct Hc' as [->|Hc']); subst;
    first [reflexivity | vm_compute; discriminate].
Qed.

Lemma monthKey_inj n n' : monthKey n = monthKey n' -> n = n'.
Proof.
  unfold monthKey. intros H. apply key_split in H as [Hy Hm].
  apply padMonth_inj in Hm; lia.
Qed.

Lemma monthStart_firstDay n : monthStart n = (firstDay n * msPerDay)%Z.
Proof. reflexivity. Qed.

Lemma monthEnd_firstDay n : monthEnd n = ((firstDay (n + 1) - 1) * msPerDay)%Z.
Proof. unfold monthEnd, Date_UTC. rewrite MakeDay_next. f_equal. lia. Qed.

Lemma monthOf_monthIndex t : monthOf t = monthIndex (Day t).
Proof. reflexivity. Qed.

Lemma getMonthKey_monthStart n : getMonthKey (monthStart n) = monthKey n.
Proof.
  unfold getMonthKey, monthKey, getUTCFullYear, getUTCMonth, YearFromTime,
    MonthFromTime.
  rewrite monthStart_firstDay, Day_of_midnight, YearFromDay_firstDay,
    MonthFromDay_firstDay. reflexivity.
Qed.

Lemma getMonthKey_monthKey t : getMonthKey t = monthKey (monthOf t).
Proof.
  unfold getMonthKey, monthKey, monthOf, getUTCFullYear, getUTCMonth,
    YearFromTime, MonthFromTime.
  pose proof (MonthFromDay_range (Day t)).
  replace ((12 * YearFromDay (Day t) + MonthFromDay (Day t)) / 12)%Z
    with (YearFromDay (Day t)) by lia.
  replace ((12 * YearFromDay (Day t) + MonthFromDay (Day t)) mod 12)%Z
    with (MonthFromDay (Day t)) by lia.
  reflexivity.
Qed.

End KeyFacts.

(** ** Objects used as maps *)

Module MapFacts.

Import Spec Engine.

Lemma addTo_fresh k v (m : gmap string Z) :
  m !! k = None -> addTo k v m = <[k := v]> m.
Proof. intros H. unfold addTo. rewrite H. reflexivity. Qed.

(** Adding entries with distinct fresh keys, one after the other, builds
    the map of the entries. *)
Lemma fold_addTo_fresh (l : list (string * Z)) (m : gmap string Z) :
  NoDup (l.*1) -> (forall k, k ∈ l.*1 -> m !! k = None) ->
  fold_left (fun acc kv => addTo kv.1 kv.2 acc) l m = list_to_map l ∪ m.
Proof.
  revert m. induction l as [|[k v] l IH]; intros m Hnd Hfresh; csimpl.
  - by rewrite (left_id_L ∅ (∪)).
  - apply NoDup_cons in Hnd as [Hk Hnd].
    rewrite addTo_fresh by (apply Hfresh; left).
    rewrite IH; [|done|].
    + rewrite <- insert_union_l, <- insert_union_r; [done|].
      by apply not_elem_of_list_to_map_1.
    + intros k' Hk'. rewrite lookup_insert_ne by (intros ->; done).
      apply Hfresh. by right.
Qed.

Lemma fold_addTo_empty (l : list (string * Z)) :
  NoDup (l.*1) ->
  fold_left (fun acc kv => addTo kv.1 kv.2 acc) l ∅ = list_to_map l.
Proof.
  intros H. rewrite fold_addTo_fresh; [|done|intros; apply lookup_empty].
  by rewrite (right_id_L ∅ (∪)).
Qed.

Lemma mapSum_empty : mapSum ∅ = 0.
Proof. unfold mapSum. apply map_fold_empty. Qed.

Lemma mapSum_insert k v (m : gmap string Z) :
  m !! k = None -> mapSum (<[k := v]> m) = mapSum m + v.
Proof.
  intros H. unfold mapSum. rewrite map_fold_insert_L; [done| |done].
  intros. lia.
Qed.

Lemma mapSum_list_to_map (l : list (string * Z)) :
  NoDup (l.*1) -> mapSum (list_to_map l) = sumZ (l.*2).
Proof.
  induction l as [|[k v] l IH]; intros Hnd; csimpl.
  - apply mapSum_empty.
  - apply NoDup_cons in Hnd as [Hk Hnd].
    rewrite mapSum_insert by (by apply not_elem_of_list_to_map_1).
    rewrite IH by done. unfold sumZ. csimpl. lia.
Qed.

End MapFacts.

(** ** The accrual allocator *)

Module AllocatorFacts.

Import Calendar JS Num Engine Spec CalendarFacts KeyFacts MapFacts.

(* The float computations stay folded while the loop is unrolled. *)
Local Opaque Math_round Number_of_Z.

Lemma roundDiv_multiple k : roundDiv (k * DAY_IN_MS) DAY_IN_MS = k.
Proof. unfold roundDiv, DAY_IN_MS. lia. Qed.

Lemma roundDiv_nonneg x : 0 <= x -> 0 <= roundDiv x DAY_IN_MS.
Proof. unfold roundDiv, DAY_IN_MS. lia. Qed.

(** The day count of a month is the distance between two first days. *)
Lemma daysInMonth_firstDay n : daysInMonth n = firstDay (n + 1) - firstDay n.
Proof.
  unfold daysInMonth, daysBetween.
  rewrite monthEnd_firstDay, monthStart_firstDay.
  replace ((firstDay (n + 1) - 1) * msPerDay - firstDay n * msPerDay)
    with ((firstDay (n + 1) - 1 - firstDay n) * DAY_IN_MS)
    by (unfold msPerDay, DAY_IN_MS; lia).
  rewrite roundDiv_multiple. lia.
Qed.

Lemma daysInMonth_range n : 28 <= daysInMonth n <= 31.
Proof. rewrite daysInMonth_firstDay. apply firstDay_step. Qed.

Lemma monthStart_next n :
  Date_UTC (n / 12) (n mod 12 + 1) 1 = monthStart (n + 1).
Proof.
  unfold Date_UTC. rewrite MakeDay_next, monthStart_firstDay. f_equal. lia.
Qed.

Lemma monthStart_le n n' : n <= n' -> monthStart n <= monthStart n'.
Proof.
  intros H. rewrite !monthStart_firstDay. pose proof (firstDay_le n n' H).
  unfold msPerDay. lia.
Qed.

Lemma monthStart_lt n n' : n < n' -> monthStart n < monthStart n'.
Proof.
  intros H. rewrite !monthStart_firstDay. pose proof (firstDay_lt n n' H).
  unfold msPerDay. lia.
Qed.

Lemma getUTC_monthStart n :
  getUTCFullYear (monthStart n) = n / 12 /\ getUTCMonth (monthStart n) = n mod 12.
Proof.
  unfold getUTCFullYear, getUTCMonth, YearFromTime, MonthFromTime.
  rewrite monthStart_firstDay, Day_of_midnight.
  split; [apply YearFromDay_firstDay | apply MonthFromDay_firstDay].
Qed.

(** The month in which the loop starts and the one that ends it. *)
Lemma Date_UTC_monthOf t :
  Date_UTC (getUTCFullYear t) (getUTCMonth t) 1 = monthStart (monthOf t).
Proof.
  unfold Date_UTC, getUTCFullYear, getUTCMonth, YearFromTime, MonthFromTime.
  rewrite MakeDay_firstDay.
  rewrite monthStart_firstDay, monthOf_monthIndex. reflexivity.
Qed.

Lemma monthOf_mono t t' : t <= t' -> monthOf t <= monthOf t'.
Proof.
  intros H. rewrite !monthOf_monthIndex. apply monthIndex_mono.
  unfold Day, msPerDay. lia.
Qed.

Section Lease.

Variable Date_parse : string -> option Z.
Variables (leaseStart leaseEnd : Z) (monthlyRent : float).

(** One pass of the loop at the start of month [n] is the step of that
    month, and moves to the start of the next month. *)
Lemma accrualStep_month n acc :
  accrualStep leaseStart leaseEnd monthlyRent (monthStart n) acc =
  (monthStep monthlyRent leaseStart leaseEnd acc n, monthStart (n + 1)).
Proof.
  pose proof (daysInMonth_range n) as Hd.
  pose proof (roundDiv_nonneg (activeEnd leaseEnd n - activeStart leaseStart n)) as Ha.
  revert Hd Ha.
  unfold accrualStep, monthStep, isActive, monthCents, proratedCents,
    activeDays, daysInMonth, daysBetween, activeStart, activeEnd, monthEnd.
  destruct (getUTC_monthStart n) as [-> ->].
  rewrite monthStart_next, getMonthKey_monthStart.
  generalize (Date_UTC (n / 12) (n mod 12 + 1) 0). intros mEnd Hd Ha.
  destruct (Z.ltb_spec (Z.min mEnd leaseEnd) (Z.max (monthStart n) leaseStart));
    [reflexivity|]. cbn [negb].
  destruct (Z.leb_spec
              (roundDiv (Z.min mEnd leaseEnd - Z.max (monthStart n) leaseStart)
                 DAY_IN_MS + 1) 0); [lia|].
  destruct (Z.leb_spec (roundDiv (mEnd - monthStart n) DAY_IN_MS + 1) 0); [lia|].
  reflexivity.
Qed.

(** With enough fuel the loop runs through the months [n .. n1] and leaves
    at the start of month [n1 + 1]. *)
Lemma accrualLoop_months (k : nat) : forall (fuel : nat) n n1 acc,
  (k < fuel)%nat -> n + Z.of_nat k = n1 + 1 ->
  accrualLoop fuel leaseStart leaseEnd monthlyRent (monthStart n1) (monthStart n) acc =
  (fold_left (monthStep monthlyRent leaseStart leaseEnd) (seqZ n (Z.of_nat k)) acc,
   monthStart (n1 + 1)).
Proof.
  induction k as [|k IH]; intros fuel n n1 acc Hf Hn;
    (destruct fuel as [|fuel]; [lia|]); cbn [accrualLoop].
  - replace n with (n1 + 1) by lia.
    pose proof (monthStart_lt n1 (n1 + 1)).
    destruct (Z.leb_spec (monthStart (n1 + 1)) (monthStart n1)); [lia|].
    reflexivity.
  - pose proof (monthStart_le n n1).
    destruct (Z.leb_spec (monthStart n) (monthStart n1)); [|lia].
    rewrite accrualStep_month.
    rewrite (IH fuel (n + 1) n1) by lia.
    rewrite (seqZ_cons n (Z.of_nat (S k))) by lia.
    replace (Z.pred (Z.of_nat (S k))) with (Z.of_nat k) by lia.
    reflexivity.
Qed.

(** The two objects after the months of a list. *)
Lemma fold_monthStep_allocations ns acc :
  allocations (fold_left (monthStep monthlyRent leaseStart leaseEnd) ns acc) =
  fold_left (fun m kv => addTo kv.1 kv.2 m)
    (List.map (fun n => (monthKey n, monthCents monthlyRent leaseStart leaseEnd n))
       (filter (fun n => isActive leaseStart leaseEnd n) ns))
    (allocations acc).
Proof.
  revert acc. induction ns as [|n ns IH]; intros acc; [reflexivity|].
  cbn [fold_left]. rewrite IH. clear IH.
  destruct (isActive leaseStart leaseEnd n) eqn:E.
  - rewrite filter_cons_True by (by rewrite E).
    unfold monthStep at 1. rewrite E.
    cbn [List.map fold_left nightsByMonth allocations fst snd]. reflexivity.
  - rewrite filter_cons_False by (rewrite E; exact id).
    unfold monthStep at 1. rewrite E. reflexivity.
Qed.

Lemma fold_monthStep_nights ns acc :
  nightsByMonth (fold_left (monthStep monthlyRent leaseStart leaseEnd) ns acc) =
  fold_left (fun m kv => addTo kv.1 kv.2 m)
    (List.map (fun n => (monthKey n, activeDays leaseStart leaseEnd n))
       (filter (fun n => isActive leaseStart leaseEnd n) ns))
    (nightsByMonth acc).
Proof.
  revert acc. induction ns as [|n ns IH]; intros acc; [reflexivity|].
  cbn [fold_left]. rewrite IH. clear IH.
  destruct (isActive leaseStart leaseEnd n) eqn:E.
  - rewrite filter_cons_True by (by rewrite E).
    unfold monthStep at 1. rewrite E.
    cbn [List.map fold_left nightsByMonth allocations fst snd]. reflexivity.
  - rewrite filter_cons_False by (rewrite E; exact id).
    unfold monthStep at 1. rewrite E. reflexivity.
Qed.

Lemma monthEntries_keys f :
  (monthEntries f leaseStart leaseEnd).*1 = monthKey <$> monthsTouched leaseStart leaseEnd.
Proof.
  unfold monthEntries. induction (monthsTouched leaseStart leaseEnd) as [|n l IH];
    [reflexivity|]. csimpl. by rewrite IH.
Qed.

Lemma monthsTouched_NoDup : NoDup (monthsTouched leaseStart leaseEnd).
Proof. apply NoDup_filter, NoDup_seqZ. Qed.

Lemma monthEntries_NoDup f : NoDup ((monthEntries f leaseStart leaseEnd).*1).
Proof.
  rewrite monthEntries_keys. apply NoDup_fmap_2; [|apply monthsTouched_NoDup].
  intros n n'. apply monthKey_inj.
Qed.

Lemma elem_of_monthsTouched n :
  n ∈ monthsTouched leaseStart leaseEnd <->
  monthOf leaseStart <= n <= monthOf leaseEnd /\
  isActive leaseStart leaseEnd n = true.
Proof.
  unfold monthsTouched, monthsSpanned.
  rewrite list_elem_of_filter, elem_of_seqZ, Is_true_true. intuition lia.
Qed.

End Lease.

(** The allocator on a lease that takes part: the objects hold exactly the
    entries of the months touched, and the loop was left through its
    condition. *)
Lemma calculateAccrualAllocations_entries Date_parse a s e :
  participates Date_parse a s e ->
  let r := calculateAccrualAllocations Date_parse a in
  allocations r =
    list_to_map (monthEntries (monthCents (monthlyRentOf a) s e) s e) /\
  nightsByMonth r = list_to_map (monthEntries (activeDays s e) s e) /\
  snd (accrualLoop (accrualFuel s e) s e (monthlyRentOf a)
         (monthStart (monthOf e)) (monthStart (monthOf s)) emptyAccrual) =
    monthStart (monthOf e + 1).
Proof.
  intros (Hs & He & Hle & Hrent). cbv zeta.
  unfold calculateAccrualAllocations. rewrite Hs, He.
  destruct (Z.ltb_spec e s); [lia|]. rewrite Hrent. cbn [negb].
  rewrite !Date_UTC_monthOf.
  pose proof (monthOf_mono s e Hle) as Hm.
  rewrite (accrualLoop_months s e (monthlyRentOf a)
             (Z.to_nat (monthOf e - monthOf s + 1)))
    by (unfold accrualFuel; rewrite <- ?monthOf_monthIndex; lia).
  cbn [fst snd]. rewrite Z2Nat.id by lia.
  rewrite fold_monthStep_allocations, fold_monthStep_nights.
  fold (monthsSpanned s e). fold (monthsTouched s e).
  split; [|split; [|reflexivity]].
  - apply (fold_addTo_empty (monthEntries _ s e)), monthEntries_NoDup.
  - apply (fold_addTo_empty (monthEntries _ s e)), monthEntries_NoDup.
Qed.

End AllocatorFacts.

(** ** Rounding *)

Module RoundFacts.

Import Num Spec.



End RoundFacts.

(** ** The objects of a lease, month by month *)

Module EntryFacts.

Import Calendar JS Num Engine Spec CalendarFacts KeyFacts MapFacts AllocatorFacts.

Local Opaque Math_round Number_of_Z.

Section Entries.

Variables (s e : Z) (f : Z -> Z).

Lemma entries_lookup_touched n :
  n ∈ monthsTouched s e ->
  (list_to_map (monthEntries f s e) : gmap string Z) !! monthKey n = Some (f n).
Proof.
  intros Hn. apply elem_of_list_to_map_1; [apply monthEntries_NoDup|].
  unfold monthEntries. apply list_elem_of_In, List.in_map_iff.
  exists n. split; [done|]. by apply list_elem_of_In.
Qed.

Lemma entries_lookup_inv k v :
  (list_to_map (monthEntries f s e) : gmap string Z) !! k = Some v ->
  exists n, n ∈ monthsTouched s e /\ k = monthKey n /\ v = f n.
Proof.
  intros H. apply elem_of_list_to_map_2 in H.
  unfold monthEntries in H. apply list_elem_of_In, List.in_map_iff in H.
  destruct H as (n & [= <- <-] & Hn). exists n. by rewrite list_elem_of_In.
Qed.


Lemma entries_size :
  size (list_to_map (monthEntries f s e) : gmap string Z) =
  length (monthsTouched s e).
Proof.
  rewrite map_size_list_to_map by apply monthEntries_NoDup.
  unfold monthEntries. by rewrite length_map.
Qed.

Lemma entries_sum :
  mapSum (list_to_map (monthEntries f s e)) = sumZ (List.map f (monthsTouched s e)).
Proof.
  rewrite mapSum_list_to_map by apply monthEntries_NoDup.
  unfold monthEntries. f_equal.
  induction (monthsTouched s e) as [|n l IH]; [reflexivity|].
  csimpl. by rewrite IH.
Qed.

End Entries.

Lemma filter_all {A} (P : A -> Prop) `{forall x, Decision (P x)} (l : list A) :
  (forall x, x ∈ l -> P x) -> filter P l = l.
Proof.
  induction l as [|x l IH]; intros Hl; [reflexivity|].
  rewrite filter_cons_True by (apply Hl; left).
  rewrite IH; [done|]. intros y Hy. apply Hl. by right.
Qed.

(** *** Leases whose dates are calendar dates *)

Section DateOnly.

(** Day numbers of the first and the last day of the lease. *)
Variables (ds de : Z).
Hypothesis Hle : ds <= de.

Local Abbreviation s := (ds * DAY_IN_MS).
Local Abbreviation e := (de * DAY_IN_MS).

Lemma activeDays_dateOnly n :
  Z.max (firstDay n) ds <= Z.min (firstDay (n + 1) - 1) de ->
  activeDays s e n =
  Z.min (firstDay (n + 1) - 1) de - Z.max (firstDay n) ds + 1.
Proof.
  intros H. unfold activeDays, daysBetween, activeStart, activeEnd.
  rewrite monthEnd_firstDay, monthStart_firstDay.
  replace (Z.min ((firstDay (n + 1) - 1) * msPerDay) (de * DAY_IN_MS) -
           Z.max (firstDay n * msPerDay) (ds * DAY_IN_MS))
    with ((Z.min (firstDay (n + 1) - 1) de - Z.max (firstDay n) ds) * DAY_IN_MS)
    by (unfold msPerDay, DAY_IN_MS; lia).
  by rewrite roundDiv_multiple.
Qed.

Lemma isActive_dateOnly n :
  isActive s e n = true <->
  Z.max (firstDay n) ds <= Z.min (firstDay (n + 1) - 1) de.
Proof.
  unfold isActive, activeStart, activeEnd.
  rewrite monthEnd_firstDay, monthStart_firstDay.
  rewrite negb_true_iff, Z.ltb_ge. unfold msPerDay, DAY_IN_MS. lia.
Qed.

Lemma monthOf_dateOnly d : monthOf (d * DAY_IN_MS) = monthIndex d.
Proof. rewrite monthOf_monthIndex. f_equal. unfold Day, msPerDay, DAY_IN_MS. lia. Qed.

(** Every month from the first to the last is touched. *)
Lemma spanned_active n :
  monthIndex ds <= n <= monthIndex de -> isActive s e n = true.
Proof.
  intros Hn. apply isActive_dateOnly.
  pose proof (monthIndex_bounds ds). pose proof (monthIndex_bounds de).
  pose proof (firstDay_le (monthIndex ds + 1) (n + 1)).
  pose proof (firstDay_le n (monthIndex de)).
  pose proof (firstDay_step n). lia.
Qed.

Lemma monthsTouched_dateOnly : monthsTouched s e = monthsSpanned s e.
Proof.
  unfold monthsTouched. apply filter_all. intros n Hn.
  apply Is_true_true, spanned_active.
  unfold monthsSpanned in Hn. apply elem_of_seqZ in Hn.
  rewrite !monthOf_dateOnly in Hn. lia.
Qed.

(** The nights of the months [n .. monthIndex de] add up to the days from
    the start of month [n], or from the first day of the lease if that is
    later, to the last day of the lease. *)
Lemma nights_telescope (k : nat) : forall n,
  monthIndex ds <= n -> n + Z.of_nat (S k) = monthIndex de + 1 ->
  sumZ (List.map (activeDays s e) (seqZ n (Z.of_nat (S k)))) =
  de + 1 - Z.max (firstDay n) ds.
Proof.
  pose proof (monthIndex_bounds ds) as Hs. pose proof (monthIndex_bounds de) as He.
  induction k as [|k IH]; intros n Hn Hk.
  - rewrite (seqZ_cons n) by lia. rewrite (seqZ_nil (Z.succ n)) by lia.
    unfold sumZ. cbn [List.map fold_right].
    assert (n = monthIndex de) as -> by lia.
    pose proof (firstDay_le (monthIndex ds) (monthIndex de)).
    rewrite activeDays_dateOnly; lia.
  - rewrite (seqZ_cons n) by lia.
    replace (Z.pred (Z.of_nat (S (S k)))) with (Z.of_nat (S k)) by lia.
    unfold sumZ. cbn [List.map fold_right]. fold (sumZ (List.map (activeDays s e)
      (seqZ (Z.succ n) (Z.of_nat (S k))))).
    rewrite IH by lia.
    pose proof (firstDay_le (n + 1) (monthIndex de)).
    pose proof (firstDay_le (monthIndex ds + 1) (n + 1)).
    pose proof (firstDay_step n).
    rewrite activeDays_dateOnly by lia.
    replace (Z.succ n) with (n + 1) by lia. lia.
Qed.

Lemma nights_total :
  sumZ (List.map (activeDays s e) (monthsTouched s e)) = de - ds + 1.
Proof.
  rewrite monthsTouched_dateOnly. unfold monthsSpanned.
  rewrite !monthOf_dateOnly.
  pose proof (monthIndex_mono ds de Hle).
  pose proof (monthIndex_bounds ds).
  replace (monthIndex de - monthIndex ds + 1)
    with (Z.of_nat (S (Z.to_nat (monthIndex de - monthIndex ds)))) by lia.
  rewrite nights_telescope by lia. lia.
Qed.

End DateOnly.

End EntryFacts.

(** * The claims about the accrual allocator *)

Module AllocatorClaims.

Import Calendar JS Num Engine Spec Samples.
Import CalendarFacts KeyFacts MapFacts AllocatorFacts EntryFacts RoundFacts.

Local Opaque Math_round Number_of_Z.

Lemma parseDateOnly_None_iff Date_parse v :
  parseDateOnly Date_parse v = None <->
  match v with
  | VAbsent => True
  | VDate _ => False
  | VString str =>
      str = EmptyString \/ (matchDateOnly str = None /\ Date_parse str = None)
  end.
Proof.
  unfold parseDateOnly. destruct v as [|t|str]; cbn [truthyDate negb].
  - done.
  - split; [discriminate|done].
  - destruct (String.eqb_spec str EmptyString); cbn [negb].
    + split; auto.
    + destruct (matchDateOnly str) as [[[y m] d]|].
      * split; [discriminate|]. intros [?|[? _]]; done.
      * split; [auto|]. intros [?|[_ ?]]; done.
Qed.

(** C9: a lease whose start or end date is missing or unparseable (the
    parsed date is [None]), whose end date is before its start date, or
    whose monthly rent is missing or zero, gets empty earned-cents and
    nights allocations; the allocator is a total function, so nothing is
    raised. *)
Theorem malformed_lease_allocates_nothing Date_parse (a : application) :
  leaseStartOf Date_parse a = None \/
  leaseEndOf Date_parse a = None \/
  (exists s e, leaseStartOf Date_parse a = Some s /\
               leaseEndOf Date_parse a = Some e /\ e < s) \/
  rentalAmount a = None \/
  (exists r, rentalAmount a = Some r /\ PrimFloat.eqb r 0 = true) ->
  allocations (calculateAccrualAllocations Date_parse a) = ∅ /\
  nightsByMonth (calculateAccrualAllocations Date_parse a) = ∅.
Proof.
  intros H.
  assert (calculateAccrualAllocations Date_parse a = emptyAccrual) as ->; [|done].
  unfold calculateAccrualAllocations.
  destruct (leaseStartOf Date_parse a) as [s|] eqn:Hs; [|done].
  destruct (leaseEndOf Date_parse a) as [e|] eqn:He; [|done].
  destruct (Z.ltb_spec e s) as [|Hle]; [done|].
  destruct H as [H|[H|[(s' & e' & [= <-] & [= <-] & Hlt)|H]]]; try done; [lia|].
  assert (truthyNumber (monthlyRentOf a) = false) as ->; [|done].
  unfold monthlyRentOf, numberOrZero.
  destruct H as [->|(r & -> & Hr)]; [reflexivity|].
  assert (truthyNumber r = false) as ->
    by (unfold truthyNumber; rewrite Hr; reflexivity).
  reflexivity.
Qed.

Lemma malformed_lease_witness :
  allocations (calculateAccrualAllocations isoDateOnly leaseNoDates) = ∅ /\
  nightsByMonth (calculateAccrualAllocations isoDateOnly leaseNoDates) = ∅.
Proof.
  apply (malformed_lease_allocates_nothing isoDateOnly leaseNoDates).
  left. reflexivity.
Defined.




(** C2 (as amended): for a lease with both dates present, end not before
    start and non-zero rent, whose dates are calendar dates (midnight UTC),
    the night counts of the allocated months add up to the inclusive span
    [(leaseEnd - leaseStart) in days + 1]. *)
Theorem nights_sum_to_inclusive_span Date_parse (a : application) s e :
  participates Date_parse a s e -> dateOnly s -> dateOnly e ->
  mapSum (nightsByMonth (calculateAccrualAllocations Date_parse a)) =
  (e - s) / DAY_IN_MS + 1.
Proof.
  intros Hp Hs He.
  destruct (calculateAccrualAllocations_entries Date_parse a s e Hp) as (_ & -> & _).
  rewrite entries_sum.
  destruct Hp as (_ & _ & Hle & _). unfold dateOnly in Hs, He.
  assert (s = s / DAY_IN_MS * DAY_IN_MS) as Es by (unfold DAY_IN_MS in *; lia).
  assert (e = e / DAY_IN_MS * DAY_IN_MS) as Ee by (unfold DAY_IN_MS in *; lia).
  rewrite Es, Ee at 1 2.
  rewrite nights_total by (unfold DAY_IN_MS in *; lia).
  unfold DAY_IN_MS in *. lia.
Qed.

Lemma nights_sum_witness :
  mapSum (nightsByMonth (calculateAccrualAllocations isoDateOnly leaseJanFeb)) =
  (Date_UTC 2024 1 10 - Date_UTC 2024 0 15) / DAY_IN_MS + 1 /\
  (Date_UTC 2024 1 10 - Date_UTC 2024 0 15) / DAY_IN_MS + 1 = 27.
Proof.
  split; [|reflexivity].
  apply (nights_sum_to_inclusive_span isoDateOnly leaseJanFeb);
    vm_compute; intuition discriminate.
Defined.

(** C2, as stated for every lease, fails on a lease without rent: nothing is
    allocated, and the nights add up to 0 where the span is 27 days. *)
Lemma nights_sum_counterexample :
  let r := calculateAccrualAllocations isoDateOnly leaseNoRent in
  leaseStartOf isoDateOnly leaseNoRent = Some (Date_UTC 2024 0 15) /\
  leaseEndOf isoDateOnly leaseNoRent = Some (Date_UTC 2024 1 10) /\
  (Date_UTC 2024 1 10 - Date_UTC 2024 0 15) / DAY_IN_MS + 1 = 27 /\
  mapSum (nightsByMonth r) = 0.
Proof. vm_compute. repeat split; reflexivity. Qed.

(** Dates that carry a time of day lose nights as well: 31 January is
    skipped because the lease starts after the midnight that opens it. *)
Lemma nights_with_time_of_day :
  let s := Date_UTC 2024 0 31 + 5 * 3600000 in
  let e := Date_UTC 2024 1 10 + 5 * 3600000 in
  let r := calculateAccrualAllocations isoDateOnly leaseWithTimeOfDay in
  leaseStartOf isoDateOnly leaseWithTimeOfDay = Some s /\
  leaseEndOf isoDateOnly leaseWithTimeOfDay = Some e /\
  (e - s) / DAY_IN_MS + 1 = 11 /\
  nightsByMonth r !! "2024-01"%string = None /\
  mapSum (nightsByMonth r) = 10.
Proof. vm_compute. repeat split; reflexivity. Qed.





End AllocatorClaims.

(** * The claim about the period filter *)

Module PeriodClaims.

Import Calendar JS Num Engine Spec KeyFacts.

Local Open Scope string_scope.

Lemma append_assoc (a b c : string) : (a ++ b) ++ c = a ++ (b ++ c).
Proof.
  induction a as [|x a IH]; [reflexivity|].
  change (String x ((a ++ b) ++ c) = String x (a ++ b ++ c)). by rewrite IH.
Qed.

Lemma prefix_app_iff p str :
  String.prefix p str = true <-> exists r, str = p ++ r.
Proof.
  revert str. induction p as [|c p IH]; intros str; cbn [String.prefix].
  - split; [|by destruct str]. intros _. exists str. by destruct str.
  - destruct str as [|c' str]; cbn.
    + split; [discriminate|]. intros [r [=]].
    + destruct (ascii_dec c c') as [->|Hne].
      * rewrite IH. split; intros [r Hr]; exists r; [by rewrite Hr|].
        by injection Hr.
      * split; [discriminate|]. intros [r [= Hc _]]. done.
Qed.

(** A month key begins with a digit or a minus sign. *)
Lemma monthKey_head n :
  exists c r, monthKey n = String c r /\ c <> "N"%char.
Proof.
  unfold monthKey.
  destruct (Number_toString_shape (n / 12)) as (u & Hu & Hne & [-> | ->]).
  - destruct u as [|c u]; [done|]. destruct Hu as [Hc _].
    eexists c, _. split; [reflexivity|]. by apply digit_not_N.
  - eexists "-"%char, _. split; [reflexivity|]. discriminate.
Qed.

Lemma padMonth_not_NaN m :
  (1 <= m <= 12)%Z -> padMonth (Some m) <> padMonth None.
Proof.
  intros Hm.
  assert (m = 1 \/ m = 2 \/ m = 3 \/ m = 4 \/ m = 5 \/ m = 6 \/ m = 7 \/
          m = 8 \/ m = 9 \/ m = 10 \/ m = 11 \/ m = 12)%Z as Hc by lia.
  repeat (destruct Hc as [->|Hc]; [vm_compute; discriminate|]).
  subst. vm_compute. discriminate.
Qed.

Lemma year_filter_on_keys y n :
  String.prefix (Number_toString y ++ "-") (monthKey n) = true <-> (n / 12)%Z = y.
Proof.
  rewrite prefix_app_iff. unfold monthKey. split.
  - intros [r Hr]. rewrite append_assoc in Hr.
    apply key_split in Hr as [Hy _]. done.
  - intros <-. eexists. by rewrite append_assoc.
Qed.

Lemma NaN_filter_on_keys n r : monthKey n <> "NaN" ++ r.
Proof.
  destruct (monthKey_head n) as (c & r' & -> & Hc). intros [= -> _]. done.
Qed.

Lemma config_all year month : getPeriodConfig (JString "all") year month = PeriodAll.
Proof. reflexivity. Qed.

Lemma config_year year month :
  truthy year = true ->
  getPeriodConfig (JString "year") year month = PeriodYear (parseInt year (Some 10%Z)).
Proof. intros H. unfold getPeriodConfig. cbn [strictEqString]. by rewrite H. Qed.

Lemma config_month year month :
  truthy year = true -> truthy month = true ->
  getPeriodConfig (JString "month") year month =
  PeriodMonth (parseInt year (Some 10%Z)) (parseInt month (Some 10%Z)).
Proof.
  intros H H'. unfold getPeriodConfig. cbn [strictEqString]. by rewrite H, H'.
Qed.

Lemma config_missing period year month :
  truthy year = false \/ (period = JString "month" /\ truthy month = false) ->
  getPeriodConfig period year month = PeriodAll.
Proof.
  intros [Hy|[-> Hm]]; unfold getPeriodConfig.
  - by rewrite Hy, !andb_false_r.
  - rewrite Hm, !andb_false_r. reflexivity.
Qed.

Lemma month_without_year_rejected m n :
  monthMatchesPeriod (monthKey n) (PeriodMonth None m) = false.
Proof.
  cbn [monthMatchesPeriod intOrNaN_toString].
  destruct (String.eqb_spec (monthKey n) ("NaN" ++ "-" ++ padMonth m)) as [E|]; [|done].
  by destruct (NaN_filter_on_keys n _ E).
Qed.

Lemma year_without_year_rejected n :
  monthMatchesPeriod (monthKey n) (PeriodYear None) = false.
Proof.
  cbn [monthMatchesPeriod intOrNaN_toString].
  destruct (String.prefix ("NaN" ++ "-") (monthKey n)) eqn:E; [|done].
  apply prefix_app_iff in E as [r Hr]. rewrite append_assoc in Hr.
  by destruct (NaN_filter_on_keys n _ Hr).
Qed.

Lemma month_without_month_rejected y n :
  monthMatchesPeriod (monthKey n) (PeriodMonth y None) = false.
Proof.
  destruct y as [y|]; [|apply month_without_year_rejected].
  cbn [monthMatchesPeriod intOrNaN_toString].
  destruct (String.eqb_spec (monthKey n) (Number_toString y ++ "-" ++ padMonth None))
    as [E|]; [|done].
  unfold monthKey in E. apply key_split in E as [_ E].
  destruct (padMonth_not_NaN (n mod 12 + 1)); [lia|done].
Qed.

(** C5 (as amended): the predicate accepts every month key when the period
    is "all"; for "year" with a year that parses to the integer [y] it
    accepts exactly the month keys whose year is [y]; for "month" with a year
    and a month that parse to [y] and [m] it accepts exactly the key
    "y-mm", the month padded to two digits, so that ("month", 2024, 3)
    accepts "2024-03" and nothing else; a period other than "all" whose year
    is missing (absent or empty), or a "month" period whose month is missing,
    gives the always-true predicate; a year or month that is present but
    does not start with a number gives a predicate that accepts no month
    key.  In no case is an error raised: the two functions are total. *)
Theorem period_filter_cases :
  (forall year month key,
     monthMatchesPeriod key (getPeriodConfig (JString "all") year month) = true) /\
  (forall year month y n,
     truthy year = true -> parseInt year (Some 10%Z) = Some y ->
     (monthMatchesPeriod (monthKey n)
        (getPeriodConfig (JString "year") year month) = true
      <-> (n / 12)%Z = y)) /\
  (forall year month y m key,
     truthy year = true -> truthy month = true ->
     parseInt year (Some 10%Z) = Some y -> parseInt month (Some 10%Z) = Some m ->
     (monthMatchesPeriod key (getPeriodConfig (JString "month") year month) = true
      <-> key = Number_toString y ++ "-" ++ padStart2 (Number_toString m))) /\
  (forall key,
     monthMatchesPeriod key
       (getPeriodConfig (JString "month") (JNumber 2024) (JNumber 3)) = true
     <-> key = "2024-03") /\
  (forall period year month key,
     truthy year = false \/ (period = JString "month" /\ truthy month = false) ->
     monthMatchesPeriod key (getPeriodConfig period year month) = true) /\
  (forall year month n,
     truthy year = true -> parseInt year (Some 10%Z) = None ->
     monthMatchesPeriod (monthKey n)
       (getPeriodConfig (JString "year") year month) = false /\
     (truthy month = true ->
      monthMatchesPeriod (monthKey n)
        (getPeriodConfig (JString "month") year month) = false)) /\
  (forall year month n,
     truthy year = true -> truthy month = true ->
     parseInt month (Some 10%Z) = None ->
     monthMatchesPeriod (monthKey n)
       (getPeriodConfig (JString "month") year month) = false).
Proof.
  split; [|split; [|split; [|split; [|split; [|split]]]]].
  - intros year month key. by rewrite config_all.
  - intros year month y n Hy Hp. rewrite config_year, Hp by done.
    apply year_filter_on_keys.
  - intros year month y m key Hy Hm Hpy Hpm.
    rewrite config_month, Hpy, Hpm by done. apply String.eqb_eq.
  - intros key. rewrite config_month by done.
    change (parseInt (JNumber 2024) (Some 10%Z)) with (Some 2024%Z).
    change (parseInt (JNumber 3) (Some 10%Z)) with (Some 3%Z).
    cbn [monthMatchesPeriod].
    change (intOrNaN_toString (Some 2024%Z) ++ "-" ++ padMonth (Some 3%Z))
      with "2024-03". apply String.eqb_eq.
  - intros period year month key H. by rewrite config_missing.
  - intros year month n Hy Hp. split.
    + rewrite config_year, Hp by done. apply year_without_year_rejected.
    + intros Hm. rewrite config_month, Hp by done.
      apply month_without_year_rejected.
  - intros year month n Hy Hm Hp. rewrite config_month, Hp by done.
    apply month_without_month_rejected.
Qed.

Lemma period_filter_witness :
  (monthMatchesPeriod (monthKey 24290)
     (getPeriodConfig (JString "year") (JString "2024") JUndefined) = true
   <-> (24290 / 12)%Z = 2024%Z) /\
  monthKey 24290 = "2024-03" /\
  (monthMatchesPeriod "2024-03"
     (getPeriodConfig (JString "month") (JString "2024") (JString "3")) = true
   <-> "2024-03" = Number_toString 2024 ++ "-" ++ padStart2 (Number_toString 3)) /\
  monthMatchesPeriod "2024-04"
    (getPeriodConfig (JString "month") (JNumber 2024) (JNumber 3)) = false /\
  monthMatchesPeriod "2023-03"
    (getPeriodConfig (JString "month") (JNumber 2024) (JNumber 3)) = false /\
  monthMatchesPeriod "2023-03"
    (getPeriodConfig (JString "year") JUndefined JUndefined) = true.
Proof.
  destruct period_filter_cases as (_ & Hyear & Hmonth & _ & Hmissing & _).
  split; [apply (Hyear (JString "2024") JUndefined 2024%Z 24290%Z); reflexivity|].
  split; [reflexivity|].
  split; [apply (Hmonth (JString "2024") (JString "3") 2024%Z 3%Z); reflexivity|].
  split; [reflexivity|]. split; [reflexivity|].
  apply Hmissing. left. reflexivity.
Defined.

(** C5, as stated, fails for a malformed year: with [year = "abc"] the
    "year" period does not degrade to "all"; its predicate looks for the
    prefix "NaN-" and rejects the month key "2024-03". *)
Lemma period_filter_counterexample :
  getPeriodConfig (JString "year") (JString "abc") JUndefined = PeriodYear None /\
  monthMatchesPeriod "2024-03"
    (getPeriodConfig (JString "year") (JString "abc") JUndefined) = false /\
  monthMatchesPeriod "2024-03" PeriodAll = true.
Proof. vm_compute. repeat split; reflexivity. Qed.

End PeriodClaims.

(** ** The revenue summary *)

Module RouteFacts.

Import Calendar JS Num Engine Route Spec.
Import CalendarFacts KeyFacts MapFacts AllocatorFacts.

Lemma fold_sum_acc (f : payment -> Z) (l : list payment) (a : Z) :
  fold_left (fun sum payment => sum + f payment) l a = a + sumZ (List.map f l).
Proof.
  revert a. induction l as [|p l IH]; intros a; unfold sumZ; cbn [fold_left List.map fold_right].
  - lia.
  - rewrite IH. unfold sumZ. lia.
Qed.

Lemma sumOver_sumZ f l : sumOver f l = sumZ (List.map f l).
Proof. unfold sumOver. rewrite fold_sum_acc. lia. Qed.


(** *** The windowed maps *)

Lemma windowOf_lookup (window timeline : gmap string Z) k :
  windowOf window timeline !! k =
  (fun _ => default 0 (timeline !! k)) <$> (window !! k).
Proof.
  unfold windowOf.
  apply (map_fold_weak_ind
    (fun (out : gmap string Z) (m : gmap string Z) =>
       out !! k = (fun _ => default 0 (timeline !! k)) <$> (m !! k))).
  - by rewrite !lookup_empty.
  - intros i x m out Hi IH.
    destruct (decide (i = k)) as [->|Hne].
    + by rewrite !lookup_insert_eq.
    + by rewrite !lookup_insert_ne.
Qed.

Lemma windowOf_dom (window timeline : gmap string Z) :
  dom (windowOf window timeline) = dom window.
Proof.
  apply set_eq. intros k. rewrite !elem_of_dom, windowOf_lookup.
  apply fmap_is_Some.
Qed.

(** *** The cash timeline *)

Section Window.

Variable tz : Z.

Lemma localMonthKey_getMonthKey t : localMonthKey tz t = getMonthKey (t + tz).
Proof. reflexivity. Qed.

Lemma trailing_key now i :
  localMonthKey tz (newDateLocal tz (getFullYear tz now) (getMonth tz now - i) 1) =
  monthKey (monthOf (now + tz) - i).
Proof.
  rewrite localMonthKey_getMonthKey. unfold newDateLocal.
  replace (MakeDay (getFullYear tz now) (getMonth tz now - i) 1 * msPerDay - tz + tz)
    with (MakeDay (getFullYear tz now) (getMonth tz now - i) 1 * msPerDay) by lia.
  rewrite MakeDay_firstDay, <- monthStart_firstDay, getMonthKey_monthStart.
  f_equal. unfold monthOf, getFullYear, getMonth, getUTCFullYear, getUTCMonth. lia.
Qed.

Lemma trailingMonthKeys_window now : trailingMonthKeys tz now = trailingWindow tz now.
Proof.
  unfold trailingMonthKeys, trailingWindow.
  cbn [List.map]. by rewrite !trailing_key.
Qed.

Lemma trailingWindow_NoDup now : NoDup (trailingWindow tz now).
Proof.
  unfold trailingWindow.
  assert (Inj (=) (=) (fun i => monthKey (monthOf (now + tz) - i))) as Hinj.
  { intros i j H. apply monthKey_inj in H. lia. }
  apply (NoDup_fmap_2 _).
  apply NoDup_ListNoDup. repeat constructor; cbn; intuition lia.
Qed.

Lemma init_window_dom (keys : list string) (m0 : gmap string Z) :
  dom (fold_left (fun m monthKey => <[monthKey := 0]> m) keys m0) =
  list_to_set keys ∪ dom m0.
Proof.
  revert m0. induction keys as [|k keys IH]; intros m0; cbn [fold_left].
  - by rewrite list_to_set_nil, (left_id_L ∅ (∪)).
  - rewrite IH, dom_insert_L, list_to_set_cons.
    rewrite (assoc_L (∪)). f_equal. apply (comm_L (∪)).
Qed.

Lemma addPaymentToMonth_dom (m : gmap string Z) p :
  dom (addPaymentToMonth tz m p) = dom m.
Proof.
  unfold addPaymentToMonth. destruct (paidAt p) as [t|]; [|done].
  destruct (m !! localMonthKey tz t) as [v|] eqn:E; [|done].
  apply dom_insert_lookup_L. by rewrite E.
Qed.

Lemma fold_payments_dom payments (m0 : gmap string Z) :
  dom (fold_left (addPaymentToMonth tz) payments m0) = dom m0.
Proof.
  revert m0. induction payments as [|p ps IH]; intros m0; cbn [fold_left]; [done|].
  by rewrite IH, addPaymentToMonth_dom.
Qed.

Lemma monthlyRevenueOf_dom now payments :
  dom (monthlyRevenueOf tz now payments) = list_to_set (trailingWindow tz now).
Proof.
  unfold monthlyRevenueOf.
  rewrite fold_payments_dom, init_window_dom, trailingMonthKeys_window, dom_empty_L.
  by rewrite (right_id_L ∅ (∪)).
Qed.


End Window.

(** *** The period totals *)

Section Period.

Variable cfg : periodConfig.

Lemma matching_insert i x (m : gmap string Z) :
  matching cfg (<[i := x]> m) =
  if monthMatchesPeriod i cfg then <[i := x]> (matching cfg m) else matching cfg m.
Proof.
  unfold matching. destruct (monthMatchesPeriod i cfg) eqn:E.
  - by rewrite map_filter_insert_True.
  - rewrite map_filter_insert_not; [done|]. intros y. cbn. by rewrite E.
Qed.

Lemma matching_fresh i (m : gmap string Z) :
  m !! i = None -> matching cfg m !! i = None.
Proof. intros H. apply map_lookup_filter_None. by left. Qed.

Lemma filterAccrual_spec (timeline : gmap string Z) t0 :
  let t := filterAccrual cfg timeline t0 in
  totalAccrualEarned t = totalAccrualEarned t0 + mapSum (matching cfg timeline) /\
  totalOccupiedNights t = totalOccupiedNights t0 /\
  monthsCovered t = dom (matching cfg timeline) ∪ monthsCovered t0.
Proof.
  unfold filterAccrual.
  apply (map_fold_weak_ind
    (fun (t : periodTotals) (m : gmap string Z) =>
       totalAccrualEarned t = totalAccrualEarned t0 + mapSum (matching cfg m) /\
       totalOccupiedNights t = totalOccupiedNights t0 /\
       monthsCovered t = dom (matching cfg m) ∪ monthsCovered t0)).
  - unfold matching. rewrite map_filter_empty, mapSum_empty, dom_empty_L.
    rewrite (left_id_L ∅ (∪)). repeat split; lia.
  - intros i x m t Hi (H1 & H2 & H3). rewrite matching_insert.
    destruct (monthMatchesPeriod i cfg); [|done]. cbn.
    rewrite mapSum_insert by (by apply matching_fresh).
    rewrite dom_insert_L, H3, (assoc_L (∪)). repeat split; lia.
Qed.

Lemma filterOccupancy_spec (timeline : gmap string Z) t0 :
  let t := filterOccupancy cfg timeline t0 in
  totalAccrualEarned t = totalAccrualEarned t0 /\
  totalOccupiedNights t = totalOccupiedNights t0 + mapSum (matching cfg timeline) /\
  monthsCovered t = dom (matching cfg timeline) ∪ monthsCovered t0.
Proof.
  unfold filterOccupancy.
  apply (map_fold_weak_ind
    (fun (t : periodTotals) (m : gmap string Z) =>
       totalAccrualEarned t = totalAccrualEarned t0 /\
       totalOccupiedNights t = totalOccupiedNights t0 + mapSum (matching cfg m) /\
       monthsCovered t = dom (matching cfg m) ∪ monthsCovered t0)).
  - unfold matching. rewrite map_filter_empty, mapSum_empty, dom_empty_L.
    rewrite (left_id_L ∅ (∪)). repeat split; lia.
  - intros i x m t Hi (H1 & H2 & H3). rewrite matching_insert.
    destruct (monthMatchesPeriod i cfg); [|done]. cbn.
    rewrite mapSum_insert by (by apply matching_fresh).
    rewrite dom_insert_L, H3, (assoc_L (∪)). repeat split; lia.
Qed.

Lemma periodTotalsOf_spec (accrual occupancy : gmap string Z) :
  let t := periodTotalsOf cfg accrual occupancy in
  totalAccrualEarned t = mapSum (matching cfg accrual) /\
  totalOccupiedNights t = mapSum (matching cfg occupancy) /\
  monthsCovered t = coveredKeys cfg accrual occupancy.
Proof.
  unfold periodTotalsOf, coveredKeys.
  destruct (filterOccupancy_spec occupancy
              (filterAccrual cfg accrual
                 {| totalAccrualEarned := 0; totalOccupiedNights := 0;
                    monthsCovered := ∅ |})) as (H1 & H2 & H3).
  destruct (filterAccrual_spec accrual
              {| totalAccrualEarned := 0; totalOccupiedNights := 0;
                 monthsCovered := ∅ |}) as (H4 & H5 & H6).
  cbn in H4, H5, H6. rewrite H1, H2, H3, H4, H5, H6.
  rewrite (right_id_L ∅ (∪)), (comm_L (∪)). repeat split; lia.
Qed.

End Period.

Lemma matching_all (m : gmap string Z) : matching PeriodAll m = m.
Proof.
  apply map_eq. intros k. unfold matching.
  destruct (m !! k) as [v|] eqn:E.
  - by apply map_lookup_filter_Some.
  - apply map_lookup_filter_None. by left.
Qed.

(** [roundDiv x d] is [x / d] rounded to the nearest integer, ties up. *)
Lemma roundDiv_spec x d :
  0 < d ->
  2 * x - d < 2 * d * roundDiv x d <= 2 * x + d.
Proof.
  intros Hd. unfold roundDiv.
  pose proof (Z.div_mod (2 * x + d) (2 * d) ltac:(lia)) as H.
  pose proof (Z.mod_pos_bound (2 * x + d) (2 * d) ltac:(lia)) as H'.
  lia.
Qed.

End RouteFacts.

(** * The claims about the revenue summary *)

Module RouteClaims.

Import Calendar JS Num Engine Route Spec Samples.
Import CalendarFacts KeyFacts MapFacts RouteFacts.

(** What the handler returns to an administrator. *)
Lemma admin_revenue_summary_Json Date_parse tz period year month db apps now body :
  admin_revenue_summary Date_parse tz true period year month db apps now = Json body ->
  exists payments,
    findPayments db (buildDateFilter Date_parse (defaultPeriod period) year month)
      = Some payments /\
    let l := ledgerOf Date_parse now (depositRefundMapOf (findDepositRefunds db))
               (findApplications apps) in
    body =
    {| summary := cashSummaryOf payments;
       monthlyRevenue := monthlyRevenueOf tz now payments;
       accrualMonthlyRevenue :=
         windowOf (monthlyRevenueOf tz now payments) (l_accrualTimeline l);
       occupancyByMonth :=
         windowOf (monthlyRevenueOf tz now payments) (l_occupancyTimeline l);
       accrualSummary :=
         accrualSummaryOf (getPeriodConfig (defaultPeriod period) year month) now l;
       accrualTimeline := l_accrualTimeline l;
       occupancyTimeline := l_occupancyTimeline l |}.
Proof.
  unfold admin_revenue_summary. cbn [negb].
  destruct (findPayments db _) as [payments|]; [|discriminate].
  intros [= <-]. by exists payments.
Qed.




(** C10: in every returned summary, [accrualMonthlyRevenue] and
    [occupancyByMonth] have exactly the keys of the twelve-month cash map
    [monthlyRevenue]; at such a key they hold the entry of the global
    [accrualTimeline] (resp. [occupancyTimeline]), or 0 when the timeline has
    none; at any other key they hold nothing, whatever the timelines hold
    there. *)
Theorem windowed_maps_follow_cash_window
    Date_parse tz period year month db apps now body :
  admin_revenue_summary Date_parse tz true period year month db apps now = Json body ->
  dom (accrualMonthlyRevenue body) = dom (monthlyRevenue body) /\
  dom (occupancyByMonth body) = dom (monthlyRevenue body) /\
  (forall k, k ∈ dom (monthlyRevenue body) ->
     accrualMonthlyRevenue body !! k = Some (default 0 (accrualTimeline body !! k)) /\
     occupancyByMonth body !! k = Some (default 0 (occupancyTimeline body !! k))) /\
  (forall k, k ∉ dom (monthlyRevenue body) ->
     accrualMonthlyRevenue body !! k = None /\ occupancyByMonth body !! k = None).
Proof.
  intros H. apply admin_revenue_summary_Json in H as (payments & _ & ->).
  cbn [accrualMonthlyRevenue occupancyByMonth monthlyRevenue accrualTimeline
       occupancyTimeline].
  rewrite !windowOf_dom. split; [done|]. split; [done|]. split.
  - intros k Hk. apply elem_of_dom in Hk as [v Hv].
    by rewrite !windowOf_lookup, Hv.
  - intros k Hk. apply not_elem_of_dom in Hk.
    by rewrite !windowOf_lookup, Hk.
Qed.

Lemma windowed_maps_witness :
  exists body,
    admin_revenue_summary isoDateOnly 0 true JUndefined JUndefined JUndefined
      samplePayments [leaseJanFeb] (Date_UTC 2025 5 15) = Json body /\
    (dom (accrualMonthlyRevenue body) = dom (monthlyRevenue body) /\
     dom (occupancyByMonth body) = dom (monthlyRevenue body) /\
     (forall k, k ∈ dom (monthlyRevenue body) ->
        accrualMonthlyRevenue body !! k = Some (default 0 (accrualTimeline body !! k)) /\
        occupancyByMonth body !! k = Some (default 0 (occupancyTimeline body !! k))) /\
     (forall k, k ∉ dom (monthlyRevenue body) ->
        accrualMonthlyRevenue body !! k = None /\ occupancyByMonth body !! k = None)) /\
    accrualTimeline body !! "2024-01"%string = Some 54839 /\
    accrualMonthlyRevenue body !! "2024-01"%string = None /\
    accrualMonthlyRevenue body !! "2024-07"%string = Some 0.
Proof.
  eexists. split; [reflexivity|]. split; [|vm_compute; auto].
  exact (windowed_maps_follow_cash_window isoDateOnly 0 JUndefined JUndefined
           JUndefined samplePayments [leaseJanFeb] (Date_UTC 2025 5 15) _ eq_refl).
Defined.




(** C7 (as amended): the period totals are the sums of the entries of the
    accrual and occupancy timelines whose month key the period accepts, and
    [monthsInPeriod] is the number of distinct month keys among them; when
    there is none it is 1 for a month request, 12 for a year request and 1
    for "all" (no accrual month was observed then, and the count falls back
    to 1).  [monthsInPeriod] is positive; [averageMonthlyEarned] is
    [totalEarned / monthsInPeriod] rounded half up to a whole cent, and
    [averageNightlyRate] is [totalEarned / occupiedNights] rounded half up,
    or 0 when there are no occupied nights. *)
Theorem accrual_summary_for_period (cfg : periodConfig) (now : Z) (l : ledger) :
  let s := accrualSummaryOf cfg now l in
  let covered := coveredKeys cfg (l_accrualTimeline l) (l_occupancyTimeline l) in
  totalEarned s = mapSum (matching cfg (l_accrualTimeline l)) /\
  occupiedNights s = mapSum (matching cfg (l_occupancyTimeline l)) /\
  (covered <> ∅ -> monthsInPeriod s = Z.of_nat (size covered)) /\
  (covered = ∅ ->
     monthsInPeriod s =
       match cfg with
       | PeriodMonth _ _ => 1
       | PeriodYear _ => 12
       | PeriodAll => 1
       end /\
     (cfg = PeriodAll -> size (l_accrualTimeline l) = 0%nat)) /\
  0 < monthsInPeriod s /\
  averageMonthlyEarned s = roundDiv (totalEarned s) (monthsInPeriod s) /\
  2 * totalEarned s - monthsInPeriod s
    < 2 * monthsInPeriod s * averageMonthlyEarned s
    <= 2 * totalEarned s + monthsInPeriod s /\
  (0 < occupiedNights s ->
     averageNightlyRate s = roundDiv (totalEarned s) (occupiedNights s) /\
     2 * totalEarned s - occupiedNights s
       < 2 * occupiedNights s * averageNightlyRate s
       <= 2 * totalEarned s + occupiedNights s) /\
  (occupiedNights s <= 0 -> averageNightlyRate s = 0).
Proof.
  cbv zeta. unfold accrualSummaryOf.
  cbn [totalEarned occupiedNights averageMonthlyEarned averageNightlyRate monthsInPeriod].
  destruct (periodTotalsOf_spec cfg (l_accrualTimeline l) (l_occupancyTimeline l))
    as (H1 & H2 & H3).
  rewrite H1, H2, H3. clear H1 H2 H3.
  set (covered := coveredKeys cfg (l_accrualTimeline l) (l_occupancyTimeline l)).
  set (total := mapSum (matching cfg (l_accrualTimeline l))).
  set (nights := mapSum (matching cfg (l_occupancyTimeline l))).
  assert (covered = ∅ -> cfg = PeriodAll -> size (l_accrualTimeline l) = 0%nat) as Hall.
  { intros Hc ->. subst covered. unfold coveredKeys in Hc.
    rewrite !matching_all in Hc.
    apply empty_union_L in Hc as [Hd _].
    apply dom_empty_iff_L in Hd. rewrite Hd. apply map_size_empty. }
  assert (covered <> ∅ ->
          monthsInPeriodOf cfg covered (l_accrualTimeline l) = Z.of_nat (size covered))
    as Hne.
  { intros Hc. unfold monthsInPeriodOf, orZ.
    destruct (Z.eqb_spec (Z.of_nat (size covered)) 0) as [E|]; [|done].
    destruct Hc. apply leibniz_equiv, size_empty_iff. lia. }
  assert (covered = ∅ ->
          monthsInPeriodOf cfg covered (l_accrualTimeline l) =
            match cfg with
            | PeriodMonth _ _ => 1
            | PeriodYear _ => 12
            | PeriodAll => 1
            end) as He.
  { intros Hc. unfold monthsInPeriodOf. rewrite Hc, size_empty. cbn [orZ Z.of_nat].
    destruct cfg; try reflexivity.
    rewrite (Hall Hc eq_refl). reflexivity. }
  assert (0 < monthsInPeriodOf cfg covered (l_accrualTimeline l)) as Hpos.
  { destruct (decide (covered = ∅)) as [Hc|Hc].
    - rewrite (He Hc). by destruct cfg.
    - rewrite (Hne Hc). assert (size covered <> 0%nat); [|lia].
      intros E. apply size_empty_iff in E. by apply leibniz_equiv in E. }
  destruct (Z.ltb_spec 0 (monthsInPeriodOf cfg covered (l_accrualTimeline l))); [|lia].
  split; [done|]. split; [done|]. split; [done|]. split; [auto|].
  split; [done|]. split; [done|]. split; [by apply roundDiv_spec|].
  destruct (Z.ltb_spec 0 nights); split; intros; try lia; try done.
  split; [done|]. by apply roundDiv_spec.
Qed.

Lemma accrual_summary_witness :
  exists body,
    admin_revenue_summary isoDateOnly 0 true JUndefined JUndefined JUndefined
      samplePayments [leaseJanFeb] sampleNow = Json body /\
    let s := accrualSummary body in
    totalEarned s = 89322 /\ occupiedNights s = 27 /\ monthsInPeriod s = 2 /\
    averageMonthlyEarned s = roundDiv (totalEarned s) (monthsInPeriod s) /\
    averageMonthlyEarned s = 44661 /\
    averageNightlyRate s = roundDiv (totalEarned s) (occupiedNights s) /\
    averageNightlyRate s = 3308.
Proof.
  eexists. split; [reflexivity|]. cbv zeta.
  match goal with
  | |- context [accrualSummary ?b] =>
      assert (exists l, accrualSummary b = accrualSummaryOf PeriodAll sampleNow l)
        as [l Hl] by (eexists; reflexivity)
  end.
  pose proof (accrual_summary_for_period PeriodAll sampleNow l) as H.
  cbv zeta in H. rewrite <- Hl in H.
  destruct H as (_ & _ & _ & _ & _ & Hm & _ & Hn & _).
  split; [reflexivity|]. split; [reflexivity|]. split; [reflexivity|].
  split; [exact Hm|]. split; [reflexivity|].
  split; [apply Hn; vm_compute; reflexivity|reflexivity].
Defined.

(** C7, as stated, fails twice.  The averages are rounded: for the lease
    15 January to 10 February 2024 at 1000.00, 89322 cents over 27 nights
    give an average nightly rate of 3308, not 89322 / 27.  And for "all"
    without any accrual month the count falls back to 1, not to the number
    of accrual months observed, which is 0. *)
Lemma accrual_summary_counterexample :
  exists body empty,
    admin_revenue_summary isoDateOnly 0 true JUndefined JUndefined JUndefined
      samplePayments [leaseJanFeb] sampleNow = Json body /\
    admin_revenue_summary isoDateOnly 0 true JUndefined JUndefined JUndefined
      samplePayments [] sampleNow = Json empty /\
    totalEarned (accrualSummary body) = 89322 /\
    occupiedNights (accrualSummary body) = 27 /\
    averageNightlyRate (accrualSummary body) = 3308 /\
    Qeq_bool (inject_Z (averageNightlyRate (accrualSummary body)))
      (Qmake (totalEarned (accrualSummary body)) 27) = false /\
    size (accrualTimeline empty) = 0%nat /\
    monthsInPeriod (accrualSummary empty) = 1.
Proof.
  eexists _, _. split; [reflexivity|]. split; [reflexivity|].
  vm_compute. repeat split; reflexivity.
Qed.

(** C4 (as amended): for a lease with positive deposit cents
    [depositCents = Math.round(depositAmount * 100)], with
    [refunded = min(refundedCentsForLease, depositCents)] and
    [held = max(0, depositCents - refunded)], the ledger adds [refunded], the
    capped amount, to released; it adds [held] to outstanding when the lease
    end date is strictly after now, to released when the end date is
    present and not after now, and to neither when the end date does not
    parse.  With an end date and refunds that are not negative, every cent
    of the deposit is counted once.  A lease with [depositAmount = 10]
    (1000 cents), no refunds and a future end date yields outstanding 1000
    and released 0; with a past end date, outstanding 0 and released 1000.
    A lease without positive deposit cents changes nothing. *)
Theorem deposit_classification Date_parse (nowDate : Z)
    (depositRefundMap : gmap string Z) (a : application) (outstanding released : Z) :
  let depositCents := Math_round (numberOrZero (depositAmount a) * 100)%float in
  let refundedCentsForLease := default 0 (depositRefundMap !! app_id a) in
  let refunded := Z.min refundedCentsForLease depositCents in
  let held := Z.max 0 (depositCents - refunded) in
  let result := depositStep Date_parse nowDate depositRefundMap a outstanding released in
  (0 < depositCents ->
     match leaseEndOf Date_parse a with
     | Some leaseEnd =>
         (nowDate < leaseEnd ->
            result = (outstanding + held, released + refunded)) /\
         (leaseEnd <= nowDate ->
            result = (outstanding, released + refunded + held)) /\
         (0 <= refundedCentsForLease ->
            fst result + snd result = outstanding + released + depositCents)
     | None => result = (outstanding, released + refunded)
     end) /\
  (depositCents <= 0 -> result = (outstanding, released)) /\
  depositStep isoDateOnly (Date_UTC 2024 0 20) ∅ leaseSmallDeposit 0 0 = (1000, 0) /\
  depositStep isoDateOnly (Date_UTC 2024 2 1) ∅ leaseSmallDeposit 0 0 = (0, 1000).
Proof.
  cbv zeta. unfold depositStep.
  set (dc := Math_round (numberOrZero (depositAmount a) * 100)%float).
  set (r := default 0 (depositRefundMap !! app_id a)).
  split; [|split; [|split; reflexivity]].
  - intros Hpos. destruct (Z.ltb_spec 0 dc); [|lia].
    destruct (leaseEndOf Date_parse a) as [leaseEnd|]; [|done].
    destruct (Z.ltb_spec nowDate leaseEnd); repeat split; intros; try lia; try done.
    + cbn [fst snd]. lia.
    + cbn [fst snd]. lia.
  - intros Hle. destruct (Z.ltb_spec 0 dc); [lia|done].
Qed.

Lemma deposit_classification_witness :
  let a := leaseSmallDeposit in
  let now := Date_UTC 2024 0 20 in
  let refunds : gmap string Z := {[ "A-6"%string := 400 ]} in
  Math_round (numberOrZero (depositAmount a) * 100)%float = 1000 /\
  leaseEndOf isoDateOnly a = Some (Date_UTC 2024 1 10) /\
  depositStep isoDateOnly now refunds a 0 0 =
    (0 + Z.max 0 (1000 - Z.min 400 1000), 0 + Z.min 400 1000) /\
  depositStep isoDateOnly now refunds a 0 0 = (600, 400).
Proof.
  cbv zeta. split; [reflexivity|]. split; [reflexivity|]. split; [|reflexivity].
  destruct (deposit_classification isoDateOnly (Date_UTC 2024 0 20)
              {[ "A-6"%string := 400 ]} leaseSmallDeposit 0 0) as (H & _).
  cbv zeta in H.
  change (Math_round (numberOrZero (depositAmount leaseSmallDeposit) * 100)%float)
    with 1000 in H.
  change (leaseEndOf isoDateOnly leaseSmallDeposit)
    with (Some (Date_UTC 2024 1 10)) in H.
  change (default 0 (({[ "A-6"%string := 400 ]} : gmap string Z)
                       !! app_id leaseSmallDeposit)) with 400 in H.
  destruct H as (H & _); [lia|]. apply H. vm_compute. reflexivity.
Defined.

(** C4, as stated, fails on its own example and on an over-refund.  The
    deposit amount is in currency units: [depositAmount = 1000] is 100000
    cents, so the lease with no refunds yields outstanding 100000 before
    its end and released 100000 after it, not 1000.  And refunds above the
    deposit are capped: with a deposit of 1000 cents and 1500 cents of
    refunds, 1000 cents are added to released, not 1500. *)
Lemma deposit_counterexample :
  depositAmount leaseJanFeb = Some 1000%float /\
  leaseEndOf isoDateOnly leaseJanFeb = Some (Date_UTC 2024 1 10) /\
  depositStep isoDateOnly (Date_UTC 2024 0 20) ∅ leaseJanFeb 0 0 = (100000, 0) /\
  depositStep isoDateOnly (Date_UTC 2024 2 1) ∅ leaseJanFeb 0 0 = (0, 100000) /\
  depositStep isoDateOnly (Date_UTC 2024 2 1) {[ "A-6"%string := 1500 ]}
    leaseSmallDeposit 0 0 = (0, 1000).
Proof. vm_compute. repeat split; reflexivity. Qed.

(** An end date that does not parse: the held part of the deposit is
    counted neither as outstanding nor as released. *)
Lemma deposit_without_end_date :
  leaseEndOf isoDateOnly leaseBadEnd = None /\
  depositStep isoDateOnly (Date_UTC 2024 2 1) {[ "A-7"%string := 400 ]}
    leaseBadEnd 0 0 = (0, 400).
Proof. vm_compute. split; reflexivity. Qed.

End RouteClaims.

(** * Further properties of the routes and of the dashboard *)

(** ** Sums and folds over lists *)

Module ListFacts.

Import Spec.

Lemma sumZ_nil : sumZ [] = 0.
Proof. reflexivity. Qed.

Lemma sumZ_cons x l : sumZ (x :: l) = x + sumZ l.
Proof. reflexivity. Qed.

Lemma sumZ_nonneg l : (forall x, x ∈ l -> 0 <= x) -> 0 <= sumZ l.
Proof.
  induction l as [|x l IH]; intros H; [done|].
  rewrite sumZ_cons. pose proof (H x ltac:(by left)).
  pose proof (IH ltac:(intros y Hy; apply H; by right)). lia.
Qed.

Lemma sumZ_constant {A} (f : A -> Z) c (l : list A) :
  (forall x, x ∈ l -> f x = c) -> sumZ (List.map f l) = Z.of_nat (length l) * c.
Proof.
  induction l as [|x l IH]; intros H; [reflexivity|].
  cbn [List.map length]. rewrite sumZ_cons.
  rewrite IH by (intros y Hy; apply H; by right).
  rewrite (H x) by (by left). lia.
Qed.

Lemma fold_left_perm {A B} (f : B -> A -> B) :
  (forall b x y, f (f b x) y = f (f b y) x) ->
  forall l l', l ≡ₚ l' -> forall b, fold_left f l b = fold_left f l' b.
Proof.
  intros Hc l l' Hp. induction Hp; intros b; cbn [fold_left].
  - reflexivity.
  - apply IHHp.
  - by rewrite Hc.
  - by rewrite IHHp1.
Qed.

Lemma filter_perm {A} (f : A -> bool) l l' :
  l ≡ₚ l' -> List.filter f l ≡ₚ List.filter f l'.
Proof.
  intros Hp. induction Hp; cbn [List.filter].
  - reflexivity.
  - destruct (f x); [by constructor | done].
  - destruct (f x), (f y); try reflexivity. apply perm_swap.
  - by etrans.
Qed.

Lemma sumZ_app l1 l2 : sumZ (l1 ++ l2) = sumZ l1 + sumZ l2.
Proof.
  induction l1 as [|x l1 IH]; [rewrite sumZ_nil, app_nil_l; lia|].
  rewrite <- app_comm_cons, !sumZ_cons, IH. lia.
Qed.

(** The sum of a quantity over the entries of an object, after a write. *)
Lemma total_insert `{Countable K} {A} (f : A -> Z) (m : gmap K A) k v :
  map_fold (fun _ v sum => sum + f v) 0 (<[k := v]> m) =
  map_fold (fun _ v sum => sum + f v) 0 m - default 0 (f <$> m !! k) + f v.
Proof.
  destruct (m !! k) as [w|] eqn:E; cbn.
  - rewrite <- insert_delete_eq.
    rewrite map_fold_insert_L; [|intros; lia|apply lookup_delete_eq].
    rewrite (map_fold_delete_L _ _ k w m); [lia|intros; lia|done].
  - rewrite map_fold_insert_L; [lia|intros; lia|done].
Qed.

End ListFacts.

Module ParseFacts.

Import Calendar JS Num Engine Spec KeyFacts.

Local Abbreviation chars d := (list_ascii_of_string (NilEmpty.string_of_uint d)).

Lemma digitPrefix_acc d : forall acc : positive,
  digitPrefix 10 (chars d) (Some (Z.pos acc)) = Some (Z.pos (Pos.of_uint_acc d acc)).
Proof.
  induction d; intros acc;
    cbn [NilEmpty.string_of_uint list_ascii_of_string digitPrefix Pos.of_uint_acc];
    [reflexivity | ..];
    (match goal with
     | |- context [digitValue 10 ?c] =>
         let v := eval vm_compute in (digitValue 10 c) in
         change (digitValue 10 c) with v
     end; cbn [default]; rewrite <- IHd;
     apply (f_equal (digitPrefix 10 _)), (f_equal Some)).
  all: unfold id; lia.
Qed.

Lemma digitPrefix_uint d : forall acc : option Z,
  default 0 acc = 0 ->
  digitPrefix 10 (chars d) acc =
  match d with Decimal.Nil => acc | _ => Some (Z.of_N (Pos.of_uint d)) end.
Proof.
  induction d; intros acc Hacc;
    cbn [NilEmpty.string_of_uint list_ascii_of_string digitPrefix Pos.of_uint];
    [reflexivity | ..];
    (match goal with
     | |- context [digitValue 10 ?c] =>
         let v := eval vm_compute in (digitValue 10 c) in
         change (digitValue 10 c) with v
     end; rewrite Hacc).
  - change (10 * 0 + 0) with 0. rewrite IHd by reflexivity. now destruct d.
  - apply (digitPrefix_acc d 1).
  - apply (digitPrefix_acc d 2).
  - apply (digitPrefix_acc d 3).
  - apply (digitPrefix_acc d 4).
  - apply (digitPrefix_acc d 5).
  - apply (digitPrefix_acc d 6).
  - apply (digitPrefix_acc d 7).
  - apply (digitPrefix_acc d 8).
  - apply (digitPrefix_acc d 9).
Qed.

Lemma to_uint_value p :
  Pos.to_uint p <> Decimal.Nil /\ Z.of_N (Pos.of_uint (Pos.to_uint p)) = Z.pos p.
Proof.
  split.
  - intros E. pose proof (DecimalPos.Unsigned.of_to p) as H. rewrite E in H. discriminate.
  - now rewrite DecimalPos.Unsigned.of_to.
Qed.

(** The digits of a positive number, read by [parseInt] with or without
    the radix. *)
Lemma parse_digits d (radix : option Z) :
  d <> Decimal.Nil -> radix = None \/ radix = Some 10 ->
  let cs := chars d in
  trimStart cs = cs /\ stripSign cs = (false, cs) /\
  (let '(r, cs2) :=
     match radix, stripHexPrefix cs with
     | None, Some rest => (16, rest)
     | _, _ => (10, cs)
     end in digitPrefix r cs2 None) = Some (Z.of_N (Pos.of_uint d)).
Proof.
  intros Hd Hr cs.
  assert (digitPrefix 10 cs None = Some (Z.of_N (Pos.of_uint d))) as Hp.
  { unfold cs. rewrite digitPrefix_uint by reflexivity. now destruct d. }
  destruct d as [|l|l|l|l|l|l|l|l|l|l]; [done|..];
    (split; [reflexivity|]; split; [reflexivity|]);
    destruct Hr as [-> | ->]; try exact Hp;
    try (destruct l; exact Hp).
Qed.

Lemma parseInt_Number_toString z (radix : option Z) :
  radix = None \/ radix = Some 10 ->
  parseInt (JString (Number_toString z)) radix = Some z.
Proof.
  intros Hr. unfold parseInt, ToString, Number_toString.
  destruct z as [|p|p]; cbn [Z.to_int NilZero.string_of_int].
  - destruct Hr as [-> | ->]; reflexivity.
  - destruct (to_uint_value p) as [Hn Hv].
    destruct (parse_digits (Pos.to_uint p) radix Hn Hr) as (Ht & Hs & Hd).
    replace (NilZero.string_of_uint (Pos.to_uint p))
      with (NilEmpty.string_of_uint (Pos.to_uint p))
      by (now destruct (Pos.to_uint p)).
    rewrite Ht, Hs. 
    destruct (match radix with None => _ | _ => _ end) as [r cs2].
    rewrite Hd, Hv. reflexivity.
  - destruct (to_uint_value p) as [Hn Hv].
    destruct (parse_digits (Pos.to_uint p) radix Hn Hr) as (Ht & Hs & Hd).
    replace (NilZero.string_of_uint (Pos.to_uint p))
      with (NilEmpty.string_of_uint (Pos.to_uint p))
      by (now destruct (Pos.to_uint p)).
    cbn [list_ascii_of_string trimStart].
    change (isWhiteSpace "-") with false. cbn [stripSign].
    destruct (match radix with None => _ | _ => _ end) as [r cs2].
    rewrite Hd, Hv. reflexivity.
Qed.

End ParseFacts.

Module EngineProps.

Import Calendar JS Num Engine Spec Samples MoreSamples.
Import CalendarFacts KeyFacts MapFacts AllocatorFacts EntryFacts ListFacts ParseFacts.

Local Opaque Math_round Number_of_Z.

Lemma Number_toString_truthy z : truthy (JString (Number_toString z)) = true.
Proof.
  destruct (Number_toString_shape z) as (u & _ & Hne & [-> | ->]).
  - now destruct u.
  - reflexivity.
Qed.

Lemma monthKey_of_year_month y m :
  1 <= m <= 12 ->
  (Number_toString y ++ "-" ++ padMonth (Some m))%string = monthKey (12 * y + (m - 1)).
Proof.
  intros Hm. unfold monthKey.
  replace ((12 * y + (m - 1)) / 12) with y by lia.
  replace ((12 * y + (m - 1)) mod 12 + 1) with m by lia.
  reflexivity.
Qed.

(** X6: the dashboard sends the selected year and month as the decimal strings
    of two integers.  [getPeriodConfig] reads both back: for a year [y] and a
    month [m] from 1 to 12 the configuration of a "year" request is
    [{year, y}] and that of a "month" request is [{month, y, m}]; the "year"
    request then accepts exactly the month keys of year [y], the "month"
    request exactly the key of month [m] of year [y]. *)
Theorem request_round_trip y m (other : jsval) n :
  1 <= m <= 12 ->
  let year := JString (Number_toString y) in
  let month := JString (Number_toString m) in
  getPeriodConfig (JString "year") year other = PeriodYear (Some y) /\
  getPeriodConfig (JString "month") year month = PeriodMonth (Some y) (Some m) /\
  (monthMatchesPeriod (monthKey n) (getPeriodConfig (JString "year") year other) = true
   <-> n / 12 = y) /\
  (monthMatchesPeriod (monthKey n) (getPeriodConfig (JString "month") year month) = true
   <-> n = 12 * y + (m - 1)).
Proof.
  intros Hm year month.
  assert (getPeriodConfig (JString "year") year other = PeriodYear (Some y)) as E1.
  { unfold getPeriodConfig, year. rewrite Number_toString_truthy.
    cbn [strictEqString]. change (String.eqb "year" "year") with true. cbn [andb].
    rewrite parseInt_Number_toString by auto. reflexivity. }
  assert (getPeriodConfig (JString "month") year month = PeriodMonth (Some y) (Some m))
    as E2.
  { unfold getPeriodConfig, year, month. rewrite !Number_toString_truthy.
    cbn [strictEqString]. change (String.eqb "month" "year") with false.
    change (String.eqb "month" "month") with true. cbn [andb].
    rewrite !parseInt_Number_toString by auto. reflexivity. }
  rewrite E1, E2. split; [done|]. split; [done|]. split.
  - cbn [monthMatchesPeriod intOrNaN_toString].
    apply PeriodClaims.year_filter_on_keys.
  - cbn [monthMatchesPeriod intOrNaN_toString].
    rewrite monthKey_of_year_month by done. rewrite String.eqb_eq.
    split; [apply monthKey_inj | by intros ->].
Qed.

Lemma request_round_trip_witness :
  getPeriodConfig (JString "month") (JString (Number_toString 2024))
    (JString (Number_toString 3)) = PeriodMonth (Some 2024) (Some 3) /\
  Number_toString 2024 = "2024"%string /\ Number_toString 3 = "3"%string /\
  (monthMatchesPeriod (monthKey 24290)
     (getPeriodConfig (JString "month") (JString (Number_toString 2024))
        (JString (Number_toString 3))) = true <-> 24290 = 12 * 2024 + (3 - 1)).
Proof.
  pose proof (request_round_trip 2024 3 JUndefined 24290 ltac:(lia)) as (_ & H2 & _ & H4).
  split; [exact H2|]. split; [reflexivity|]. split; [reflexivity|]. exact H4.
Defined.

Lemma MakeDay_date y m d : MakeDay y m d = firstDay (12 * y + m) + (d - 1).
Proof. rewrite <- MakeDay_firstDay. unfold MakeDay. lia. Qed.

(** X1: a string of the form YYYY-MM-DD (year at least 100) is never refused
    by [parseDateOnly] and never reaches the [Date] parser: it is read as
    day [d] counted from the first of month [m] of year [y], midnight UTC,
    without a range check.  The date lies in month [m] exactly when [d] is
    a day of that month; day 0 and earlier fall before it, and a day beyond
    the end of the month falls after it (2024-02-31 is 2 March). *)
Theorem date_string_rolls_over Date_parse str y m d :
  matchDateOnly str = Some (y, m, d) -> 100 <= y ->
  let n := 12 * y + (m - 1) in
  let t := (firstDay n + (d - 1)) * DAY_IN_MS in
  parseDateOnly Date_parse (VString str) = Some t /\
  dateOnly t /\
  (monthOf t = n <-> 1 <= d <= daysInMonth n) /\
  (d <= 0 -> monthOf t < n) /\
  (daysInMonth n < d -> n < monthOf t).
Proof.
  intros Hm _ n t.
  assert (parseDateOnly Date_parse (VString str) = Some t) as Hp.
  { unfold parseDateOnly. rewrite Hm.
    destruct str; [discriminate|]. cbn [truthyDate String.eqb negb].
    unfold Date_UTC. rewrite MakeDay_date. reflexivity. }
  split; [exact Hp|]. unfold t.
  rewrite monthOf_dateOnly, daysInMonth_firstDay.
  pose proof (monthIndex_bounds (firstDay n + (d - 1))) as Hb.
  set (k := monthIndex (firstDay n + (d - 1))) in *.
  split; [|split; [|split]].
  - unfold dateOnly, DAY_IN_MS. lia.
  - split.
    + intros E. rewrite E in Hb. lia.
    + intros Hd. apply monthIndex_unique. lia.
  - intros Hd. destruct (Z.lt_ge_cases k n) as [|Hge]; [done|].
    pose proof (firstDay_le n k Hge). lia.
  - intros Hd. destruct (Z.lt_ge_cases n k) as [|Hge]; [done|].
    pose proof (firstDay_le (k + 1) (n + 1) ltac:(lia)). lia.
Qed.

Lemma date_string_rolls_over_witness :
  matchDateOnly "2024-02-31" = Some (2024, 2, 31) /\
  parseDateOnly isoDateOnly (VString "2024-02-31") = Some (Date_UTC 2024 2 2) /\
  isoDateOnly "2024-02-31" = None /\
  daysInMonth 24289 = 29 /\
  24289 < monthOf (Date_UTC 2024 2 2).
Proof.
  pose proof (date_string_rolls_over isoDateOnly "2024-02-31" 2024 2 31 eq_refl
                ltac:(lia)) as (Hp & _ & _ & _ & Hlt).
  split; [reflexivity|]. split; [exact Hp|]. split; [reflexivity|].
  split; [reflexivity|]. apply Hlt. vm_compute. reflexivity.
Defined.

(** A lease either takes part in the accrual or gets the empty objects. *)
Lemma calculate_cases Date_parse a :
  (exists s e, participates Date_parse a s e) \/
  calculateAccrualAllocations Date_parse a = emptyAccrual.
Proof.
  unfold calculateAccrualAllocations, participates.
  destruct (leaseStartOf Date_parse a) as [s|]; [|by right].
  destruct (leaseEndOf Date_parse a) as [e|]; [|by right].
  destruct (Z.ltb_spec e s); [by right|].
  destruct (truthyNumber (monthlyRentOf a)) eqn:Hr; [|by right].
  left. by exists s, e.
Qed.

Lemma activeDays_range s e n :
  isActive s e n = true -> 1 <= activeDays s e n <= daysInMonth n.
Proof.
  unfold isActive, activeDays, daysInMonth, daysBetween, activeStart, activeEnd.
  rewrite negb_true_iff, Z.ltb_ge.
  pose proof (firstDay_step n) as Hstep.
  rewrite monthEnd_firstDay, monthStart_firstDay.
  set (a := firstDay n) in *. set (b := firstDay (n + 1)) in *.
  unfold roundDiv, msPerDay, DAY_IN_MS. intros H. lia.
Qed.

Lemma allocation_dom Date_parse (a : application) :
  dom (allocations (calculateAccrualAllocations Date_parse a)) =
  dom (nightsByMonth (calculateAccrualAllocations Date_parse a)).
Proof.
  destruct (calculate_cases Date_parse a) as [(s & e & Hp) | ->]; [|reflexivity].
  destruct (calculateAccrualAllocations_entries Date_parse a s e Hp) as (-> & -> & _).
  rewrite !dom_list_to_map_L, !monthEntries_keys. reflexivity.
Qed.

(** X4: the two objects that [calculateAccrualAllocations] returns have the
    same keys, for every application; each key is a month key and the
    nights of a month lie between 1 and the number of days of that month,
    so never above 31. *)
Theorem allocation_objects_agree Date_parse (a : application) :
  let r := calculateAccrualAllocations Date_parse a in
  dom (allocations r) = dom (nightsByMonth r) /\
  (forall k v, nightsByMonth r !! k = Some v ->
     exists n, k = monthKey n /\ 1 <= v <= daysInMonth n /\ v <= 31).
Proof.
  cbv zeta. split; [apply allocation_dom|].
  destruct (calculate_cases Date_parse a) as [(s & e & Hp) | ->].
  - destruct (calculateAccrualAllocations_entries Date_parse a s e Hp) as (_ & -> & _).
    intros k v Hk. apply entries_lookup_inv in Hk as (n & Ht & -> & ->).
    apply elem_of_monthsTouched in Ht as [_ Hact].
    pose proof (activeDays_range s e n Hact). pose proof (daysInMonth_range n).
    exists n. split; [done|]. lia.
  - intros k v Hk. cbn in Hk. by rewrite lookup_empty in Hk.
Qed.

Lemma whole_month_ratio d :
  28 <= d <= 31 -> (Number_of_Z d / Number_of_Z d)%float = 1%float.
Proof.
  intros H.
  assert (d = 28 \/ d = 29 \/ d = 30 \/ d = 31) as [-> | [-> | [-> | ->]]] by lia;
    vm_compute; reflexivity.
Qed.

Section WholeMonths.

Variables (n1 n2 : Z).
Hypothesis Hn : n1 <= n2.

Local Abbreviation ds := (firstDay n1).
Local Abbreviation de := (firstDay (n2 + 1) - 1).

Lemma whole_months_days : ds <= de.
Proof. pose proof (firstDay_lt n1 (n2 + 1)). lia. Qed.

Lemma whole_months_index : monthIndex ds = n1 /\ monthIndex de = n2.
Proof.
  split; [apply monthIndex_firstDay|].
  apply monthIndex_unique. pose proof (firstDay_step n2). lia.
Qed.

Lemma whole_months_touched :
  monthsTouched (ds * DAY_IN_MS) (de * DAY_IN_MS) = seqZ n1 (n2 - n1 + 1).
Proof.
  rewrite (monthsTouched_dateOnly _ _ whole_months_days). unfold monthsSpanned.
  rewrite !monthOf_dateOnly. destruct whole_months_index as [-> ->]. reflexivity.
Qed.

Lemma whole_months_activeDays n :
  n1 <= n <= n2 -> activeDays (ds * DAY_IN_MS) (de * DAY_IN_MS) n = daysInMonth n.
Proof.
  intros Hr. rewrite daysInMonth_firstDay.
  pose proof (firstDay_le n1 n). pose proof (firstDay_le (n + 1) (n2 + 1)).
  pose proof (firstDay_step n).
  rewrite activeDays_dateOnly; lia.
Qed.

End WholeMonths.

(** X5: a lease that runs from the first day of month [n1] to the last day
    of month [n2], with a rent that is not zero, touches every month from
    [n1] to [n2]: each gets all the days of the month as nights and the
    same cents, [Math.round(monthlyRent * 1 * 100)], the quotient of the
    days being exactly 1; the total is that amount times the number of
    months. *)
Theorem whole_months_lease Date_parse (a : application) n1 n2 :
  leaseStartOf Date_parse a = Some (monthStart n1) ->
  leaseEndOf Date_parse a = Some (monthEnd n2) ->
  n1 <= n2 ->
  truthyNumber (monthlyRentOf a) = true ->
  let r := calculateAccrualAllocations Date_parse a in
  let monthly := Math_round (monthlyRentOf a * 1 * 100)%float in
  (forall n, n1 <= n <= n2 ->
     allocations r !! monthKey n = Some monthly /\
     nightsByMonth r !! monthKey n = Some (daysInMonth n)) /\
  size (allocations r) = Z.to_nat (n2 - n1 + 1) /\
  mapSum (allocations r) = (n2 - n1 + 1) * monthly.
Proof.
  intros Hs He Hn Hrent r monthly.
  rewrite monthStart_firstDay in Hs. rewrite monthEnd_firstDay in He.
  change msPerDay with DAY_IN_MS in Hs, He.
  set (s := firstDay n1 * DAY_IN_MS) in *.
  set (e := (firstDay (n2 + 1) - 1) * DAY_IN_MS) in *.
  assert (participates Date_parse a s e) as Hp.
  { split; [done|]. split; [done|]. split; [|done].
    pose proof (whole_months_days n1 n2 Hn). unfold s, e, DAY_IN_MS. lia. }
  destruct (calculateAccrualAllocations_entries Date_parse a s e Hp) as (Ha & Hnights & _).
  fold r in Ha, Hnights.
  assert (forall n, n ∈ monthsTouched s e ->
            monthCents (monthlyRentOf a) s e n = monthly) as Hcents.
  { intros n Hin. unfold s, e in Hin. rewrite (whole_months_touched _ _ Hn) in Hin.
    apply elem_of_seqZ in Hin.
    unfold monthCents, proratedCents, monthly, s, e.
    rewrite (whole_months_activeDays n1 n2 n) by lia.
    rewrite whole_month_ratio by apply daysInMonth_range. reflexivity. }
  assert (length (monthsTouched s e) = Z.to_nat (n2 - n1 + 1)) as Hlen.
  { unfold s, e. rewrite (whole_months_touched _ _ Hn). apply length_seqZ. }
  split; [|split].
  - intros n Hr.
    assert (n ∈ monthsTouched s e) as Hin.
    { unfold s, e. rewrite (whole_months_touched _ _ Hn). apply elem_of_seqZ. lia. }
    rewrite Ha, Hnights. split.
    + rewrite (entries_lookup_touched s e _ n Hin). f_equal. by apply Hcents.
    + rewrite (entries_lookup_touched s e _ n Hin). f_equal.
      by apply whole_months_activeDays.
  - rewrite Ha, entries_size. exact Hlen.
  - rewrite Ha, entries_sum, (sumZ_constant _ monthly) by exact Hcents.
    rewrite Hlen. lia.
Qed.


Lemma whole_months_lease_witness :
  let r := calculateAccrualAllocations isoDateOnly leaseYear2024 in
  monthStart 24288 = Date_UTC 2024 0 1 /\ monthEnd 24299 = Date_UTC 2024 11 31 /\
  Math_round (monthlyRentOf leaseYear2024 * 1 * 100)%float = 100000 /\
  size (allocations r) = 12%nat /\
  mapSum (allocations r) = (24299 - 24288 + 1) * 100000.
Proof.
  pose proof (whole_months_lease isoDateOnly leaseYear2024 24288 24299
                eq_refl eq_refl ltac:(lia) eq_refl) as (_ & Hsize & Hsum).
  split; [reflexivity|]. split; [reflexivity|]. split; [reflexivity|].
  split; [exact Hsize | exact Hsum].
Defined.


(** X3: for a lease with [leaseStart <= leaseEnd] the [while] loop of
    [calculateAccrualAllocations] is left through its condition: with at
    least [accrualFuel] passes allowed the result does not depend on the
    bound, the loop has handled the months from that of [leaseStart] to that
    of [leaseEnd], one pass each, and ends with [currentMonth] on the first
    day of the month after [leaseEnd], which is later than [finalMonth]. *)
Theorem allocation_loop_terminates (s e : Z) (monthlyRent : float) (fuel : nat) :
  s <= e -> (accrualFuel s e <= fuel)%nat ->
  let currentMonth := Date_UTC (getUTCFullYear s) (getUTCMonth s) 1 in
  let finalMonth := Date_UTC (getUTCFullYear e) (getUTCMonth e) 1 in
  let run := accrualLoop fuel s e monthlyRent finalMonth currentMonth emptyAccrual in
  run = accrualLoop (accrualFuel s e) s e monthlyRent finalMonth currentMonth
          emptyAccrual /\
  fst run =
    fold_left (monthStep monthlyRent s e) (monthsSpanned s e) emptyAccrual /\
  snd run = monthStart (monthOf e + 1) /\
  finalMonth < snd run.
Proof.
  intros Hle Hfuel. cbv zeta. rewrite !Date_UTC_monthOf.
  pose proof (monthOf_mono s e Hle) as Hm.
  assert (accrualFuel s e = Z.to_nat (monthOf e - monthOf s + 2)) as Ef
    by (unfold accrualFuel; by rewrite <- !monthOf_monthIndex).
  rewrite (accrualLoop_months s e monthlyRent (Z.to_nat (monthOf e - monthOf s + 1))
             fuel) by lia.
  rewrite (accrualLoop_months s e monthlyRent (Z.to_nat (monthOf e - monthOf s + 1))
             (accrualFuel s e)) by lia.
  cbn [fst snd]. rewrite Z2Nat.id by lia.
  split; [done|]. split; [done|]. split; [done|].
  apply monthStart_lt. lia.
Qed.

Lemma allocation_loop_witness :
  let s := Date_UTC 2024 0 15 in
  let e := Date_UTC 2024 1 10 in
  accrualFuel s e = 3%nat /\
  snd (accrualLoop 100 s e 1000 (Date_UTC 2024 1 1) (Date_UTC 2024 0 1) emptyAccrual) =
    Date_UTC 2024 2 1 /\
  accrualLoop 100 s e 1000 (Date_UTC 2024 1 1) (Date_UTC 2024 0 1) emptyAccrual =
    accrualLoop 3 s e 1000 (Date_UTC 2024 1 1) (Date_UTC 2024 0 1) emptyAccrual.
Proof.
  cbv zeta.
  destruct (allocation_loop_terminates (Date_UTC 2024 0 15) (Date_UTC 2024 1 10)
              1000 100) as (H1 & _ & H3 & _).
  { vm_compute. discriminate. }
  { vm_compute. lia. }
  split; [reflexivity|]. split; [exact H3 | exact H1].
Defined.


(** X2: two dates have the same month key exactly when they lie in the same
    UTC calendar month of the same year, whatever the year: distinct months
    never share an entry of a timeline. *)
Theorem month_keys_identify_months (t t' : Z) :
  getMonthKey t = getMonthKey t' <->
  getUTCFullYear t = getUTCFullYear t' /\ getUTCMonth t = getUTCMonth t'.
Proof.
  rewrite !getMonthKey_monthKey. split.
  - intros E. apply monthKey_inj in E. unfold monthOf in E.
    pose proof (MonthFromDay_range (Day t)). pose proof (MonthFromDay_range (Day t')).
    unfold getUTCMonth, MonthFromTime in *. lia.
  - intros [Ey Em]. unfold monthOf. by rewrite Ey, Em.
Qed.

End EngineProps.

(** ** The ledger of the revenue summary *)

Module SummaryFacts.

Import Calendar JS Num Engine Route Spec.
Import CalendarFacts KeyFacts MapFacts AllocatorFacts RouteFacts ListFacts.

Local Opaque Math_round Number_of_Z.

Lemma mergeInto_lookup (dst src : gmap string Z) k :
  mergeInto dst src !! k =
  match src !! k with
  | Some v => Some (default 0 (dst !! k) + v)
  | None => dst !! k
  end.
Proof.
  unfold mergeInto.
  apply (map_fold_weak_ind
    (fun (out : gmap string Z) (m : gmap string Z) =>
       out !! k = match m !! k with
                  | Some v => Some (default 0 (dst !! k) + v)
                  | None => dst !! k
                  end)).
  - by rewrite lookup_empty.
  - intros i x m out Hi IH. unfold addTo.
    destruct (decide (i = k)) as [->|Hne].
    + rewrite !lookup_insert_eq. rewrite Hi in IH. by rewrite IH.
    + by rewrite !lookup_insert_ne.
Qed.

Lemma mergeInto_default (dst src : gmap string Z) k :
  default 0 (mergeInto dst src !! k) = default 0 (dst !! k) + default 0 (src !! k).
Proof. rewrite mergeInto_lookup. destruct (src !! k); cbn; lia. Qed.

Lemma mergeInto_is_Some (dst src : gmap string Z) k :
  is_Some (mergeInto dst src !! k) <-> is_Some (dst !! k) \/ is_Some (src !! k).
Proof.
  rewrite mergeInto_lookup. destruct (src !! k) as [v|].
  - split; [by right; eexists | by eexists].
  - split; [by left | intros [H|[? H]]; [done | discriminate]].
Qed.

(** Merging a list of objects, one after the other. *)
Lemma merge_all_default (ms : list (gmap string Z)) : forall (dst : gmap string Z) k,
  default 0 (fold_left mergeInto ms dst !! k) =
  default 0 (dst !! k) + sumZ (List.map (fun m => default 0 (m !! k)) ms).
Proof.
  induction ms as [|m ms IH]; intros dst k; cbn [fold_left List.map].
  - unfold sumZ. cbn. lia.
  - rewrite IH, mergeInto_default. unfold sumZ. cbn [fold_right]. lia.
Qed.

Lemma merge_all_is_Some (ms : list (gmap string Z)) : forall (dst : gmap string Z) k,
  is_Some (fold_left mergeInto ms dst !! k) <->
  is_Some (dst !! k) \/ exists m, m ∈ ms /\ is_Some (m !! k).
Proof.
  induction ms as [|m ms IH]; intros dst k; cbn [fold_left].
  - split; [by left | intros [H|(m & Hm & _)]; [done | by apply elem_of_nil in Hm]].
  - rewrite IH, mergeInto_is_Some. split.
    + intros [[H|H]|(m' & Hm' & H)].
      * by left.
      * right. exists m. split; [by left | done].
      * right. exists m'. split; [by right | done].
    + intros [H|(m' & Hm' & H)].
      * by left; left.
      * apply elem_of_cons in Hm' as [->|Hm'].
        -- by left; right.
        -- right. by exists m'.
Qed.

Section Ledger.

Variable Date_parse : string -> option Z.
Variables (nowDate : Z) (depositRefundMap : gmap string Z).

Local Abbreviation step := (applicationStep Date_parse nowDate depositRefundMap).
Local Abbreviation calc := (calculateAccrualAllocations Date_parse).
Local Abbreviation dstep := (depositStep Date_parse nowDate depositRefundMap).

Lemma applicationStep_fields l a :
  l_accrualTimeline (step l a) = mergeInto (l_accrualTimeline l) (allocations (calc a)) /\
  l_occupancyTimeline (step l a) =
    mergeInto (l_occupancyTimeline l) (nightsByMonth (calc a)) /\
  l_outstandingDeposits (step l a) =
    fst (dstep a (l_outstandingDeposits l) (l_releasedDeposits l)) /\
  l_releasedDeposits (step l a) =
    snd (dstep a (l_outstandingDeposits l) (l_releasedDeposits l)).
Proof.
  unfold applicationStep.
  destruct (depositStep _ _ _ _ _ _) as [o r]. done.
Qed.

(** What a lease adds to the two deposit totals does not depend on the
    totals. *)
Lemma depositStep_shift a o r :
  dstep a o r = (o + fst (dstep a 0 0), r + snd (dstep a 0 0)).
Proof.
  unfold depositStep.
  destruct (0 <? _); [|cbn; f_equal; lia].
  destruct (leaseEndOf Date_parse a) as [e|]; [|cbn; f_equal; lia].
  destruct (nowDate <? e); cbn; f_equal; lia.
Qed.

Lemma ledger_timelines (apps : list application) : forall l,
  l_accrualTimeline (fold_left step apps l) =
    fold_left mergeInto (List.map (fun a => allocations (calc a)) apps)
      (l_accrualTimeline l) /\
  l_occupancyTimeline (fold_left step apps l) =
    fold_left mergeInto (List.map (fun a => nightsByMonth (calc a)) apps)
      (l_occupancyTimeline l).
Proof.
  induction apps as [|a apps IH]; intros l; cbn [fold_left List.map]; [done|].
  destruct (IH (step l a)) as [-> ->].
  destruct (applicationStep_fields l a) as (-> & -> & _). done.
Qed.

Lemma ledger_deposits (apps : list application) : forall l,
  l_outstandingDeposits (fold_left step apps l) =
    l_outstandingDeposits l + sumZ (List.map (fun a => fst (dstep a 0 0)) apps) /\
  l_releasedDeposits (fold_left step apps l) =
    l_releasedDeposits l + sumZ (List.map (fun a => snd (dstep a 0 0)) apps).
Proof.
  induction apps as [|a apps IH]; intros l; cbn [fold_left List.map].
  - unfold sumZ. cbn. lia.
  - destruct (IH (step l a)) as [-> ->].
    destruct (applicationStep_fields l a) as (_ & _ & -> & ->).
    rewrite depositStep_shift. unfold sumZ. cbn [fst snd fold_right]. lia.
Qed.

End Ledger.

End SummaryFacts.

Module SummaryProps.

Import Calendar JS Num Engine Route Spec Samples MoreSamples.
Import CalendarFacts KeyFacts MapFacts AllocatorFacts RouteFacts ListFacts SummaryFacts.

Local Opaque Math_round Number_of_Z.

(** X13: in every summary the accrual timeline is, month by month, the sum of
    the allocations of the leases that the query returns, and the occupancy
    timeline the sum of their nights; a month is present exactly when some
    lease has an entry for it, and the two timelines have the same
    months. *)
Theorem timeline_is_sum_over_leases
    Date_parse tz period year month db apps now body k :
  admin_revenue_summary Date_parse tz true period year month db apps now = Json body ->
  let leases := findApplications apps in
  let calc := calculateAccrualAllocations Date_parse in
  default 0 (accrualTimeline body !! k) =
    sumZ (List.map (fun a => default 0 (allocations (calc a) !! k)) leases) /\
  default 0 (occupancyTimeline body !! k) =
    sumZ (List.map (fun a => default 0 (nightsByMonth (calc a) !! k)) leases) /\
  (is_Some (accrualTimeline body !! k) <->
     exists a, a ∈ leases /\ is_Some (allocations (calc a) !! k)) /\
  (is_Some (occupancyTimeline body !! k) <-> is_Some (accrualTimeline body !! k)).
Proof.
  intros H leases calc.
  apply RouteClaims.admin_revenue_summary_Json in H as (payments & _ & ->).
  cbn [accrualTimeline occupancyTimeline]. unfold ledgerOf.
  destruct (ledger_timelines Date_parse now
              (depositRefundMapOf (findDepositRefunds db)) (findApplications apps)
              {| l_accrualTimeline := ∅; l_occupancyTimeline := ∅;
                 l_outstandingDeposits := 0; l_releasedDeposits := 0 |}) as [-> ->].
  cbn [l_accrualTimeline l_occupancyTimeline]. fold leases. fold calc.
  rewrite !merge_all_default, !merge_all_is_Some, !lookup_empty.
  rewrite !List.map_map. cbn [default].
  assert (forall f : application -> gmap string Z,
            (is_Some (@None Z) \/
             exists m, m ∈ List.map f leases /\ is_Some (m !! k)) <->
            exists a, a ∈ leases /\ is_Some (f a !! k)) as Hex.
  { intros f. split.
    - intros [[? ?]|(m & Hm & Hk)]; [discriminate|].
      apply list_elem_of_fmap in Hm as (a & -> & Ha). by exists a.
    - intros (a & Ha & Hk). right. exists (f a). split; [|done].
      apply list_elem_of_fmap. by exists a. }
  split; [lia|]. split; [lia|]. rewrite !Hex. split; [done|].
  split; intros (a & Ha & Hk); exists a; (split; [done|]);
    apply elem_of_dom; apply elem_of_dom in Hk;
    pose proof (EngineProps.allocation_dom Date_parse a) as Hd;
    fold calc in Hd; [by rewrite Hd | by rewrite <- Hd].
Qed.


Lemma timeline_is_sum_witness :
  exists body,
    admin_revenue_summary isoDateOnly 0 true JUndefined JUndefined JUndefined
      samplePayments [leaseJanFeb; leaseYear2024] sampleNow = Json body /\
    default 0 (accrualTimeline body !! "2024-01"%string) =
      sumZ (List.map
              (fun a => default 0 (allocations (calculateAccrualAllocations isoDateOnly a)
                                     !! "2024-01"%string))
              (findApplications [leaseJanFeb; leaseYear2024])) /\
    accrualTimeline body !! "2024-01"%string = Some 154839.
Proof.
  eexists. split; [reflexivity|].
  destruct (timeline_is_sum_over_leases isoDateOnly 0 JUndefined JUndefined JUndefined
              samplePayments [leaseJanFeb; leaseYear2024] sampleNow _ "2024-01"%string
              eq_refl) as (H1 & _).
  split; [exact H1 | vm_compute; reflexivity].
Defined.

(** *** The order of the stored documents *)

Lemma sumOver_perm (f : payment -> Z) l l' : l ≡ₚ l' -> sumOver f l = sumOver f l'.
Proof. intros Hp. apply fold_left_perm; [intros; lia | done]. Qed.

Lemma cashSummaryOf_perm l l' : l ≡ₚ l' -> cashSummaryOf l = cashSummaryOf l'.
Proof.
  intros Hp. unfold cashSummaryOf.
  rewrite (sumOver_perm amount l l' Hp).
  rewrite (sumOver_perm (fun payment => amount payment - feeOf payment) l l' Hp).
  rewrite (sumOver_perm feeOf l l' Hp).
  rewrite (sumOver_perm (fun payment => Z.abs (amount payment)) _ _
             (filter_perm (fun payment => isRefund payment || (amount payment <? 0))
                l l' Hp)).
  by rewrite (Permutation_length Hp).
Qed.

Lemma addTo_comm k1 v1 k2 v2 (m : gmap string Z) :
  addTo k1 v1 (addTo k2 v2 m) = addTo k2 v2 (addTo k1 v1 m).
Proof.
  unfold addTo. destruct (decide (k1 = k2)) as [->|Hne].
  - rewrite !lookup_insert_eq, !insert_insert_eq. cbn. f_equal. lia.
  - rewrite !lookup_insert_ne by done. by apply insert_insert_ne.
Qed.

Lemma depositRefundMapOf_perm l l' :
  l ≡ₚ l' -> depositRefundMapOf l = depositRefundMapOf l'.
Proof.
  intros Hp. unfold depositRefundMapOf. apply fold_left_perm; [|done].
  intros m x y. destruct (applicationId x), (applicationId y); try done.
  apply addTo_comm.
Qed.

Lemma addPaymentToMonth_comm tz (m : gmap string Z) p q :
  addPaymentToMonth tz (addPaymentToMonth tz m p) q =
  addPaymentToMonth tz (addPaymentToMonth tz m q) p.
Proof.
  unfold addPaymentToMonth.
  destruct (paidAt p) as [tp|], (paidAt q) as [tq|]; try done.
  set (kp := localMonthKey tz tp). set (kq := localMonthKey tz tq).
  destruct (decide (kp = kq)) as [E|Hne].
  - rewrite <- E. destruct (m !! kp) as [v|] eqn:Hv; [|by rewrite Hv].
    rewrite !lookup_insert_eq, !insert_insert_eq. f_equal. lia.
  - destruct (m !! kp) as [v|] eqn:Hv, (m !! kq) as [w|] eqn:Hw;
      rewrite ?lookup_insert_ne, ?Hv, ?Hw by done; try done.
    by apply insert_insert_ne.
Qed.

Lemma monthlyRevenueOf_perm tz now l l' :
  l ≡ₚ l' -> monthlyRevenueOf tz now l = monthlyRevenueOf tz now l'.
Proof.
  intros Hp. unfold monthlyRevenueOf.
  apply fold_left_perm; [|done]. intros. apply addPaymentToMonth_comm.
Qed.

Lemma mergeInto_comm (d s1 s2 : gmap string Z) :
  mergeInto (mergeInto d s1) s2 = mergeInto (mergeInto d s2) s1.
Proof.
  apply map_eq. intros k. rewrite !mergeInto_lookup.
  destruct (s1 !! k), (s2 !! k), (d !! k); cbn; try done; f_equal; lia.
Qed.

Lemma ledger_eq (l l' : ledger) :
  l_accrualTimeline l = l_accrualTimeline l' ->
  l_occupancyTimeline l = l_occupancyTimeline l' ->
  l_outstandingDeposits l = l_outstandingDeposits l' ->
  l_releasedDeposits l = l_releasedDeposits l' -> l = l'.
Proof. destruct l, l'; cbn; by intros -> -> -> ->. Qed.

Lemma applicationStep_comm Date_parse now refunds l a b :
  applicationStep Date_parse now refunds (applicationStep Date_parse now refunds l a) b =
  applicationStep Date_parse now refunds (applicationStep Date_parse now refunds l b) a.
Proof.
  set (step := applicationStep Date_parse now refunds).
  destruct (applicationStep_fields Date_parse now refunds l a) as (A1 & A2 & A3 & A4).
  destruct (applicationStep_fields Date_parse now refunds l b) as (B1 & B2 & B3 & B4).
  destruct (applicationStep_fields Date_parse now refunds (step l a) b)
    as (C1 & C2 & C3 & C4).
  destruct (applicationStep_fields Date_parse now refunds (step l b) a)
    as (D1 & D2 & D3 & D4).
  fold step in A1, A2, A3, A4, B1, B2, B3, B4, C1, C2, C3, C4, D1, D2, D3, D4.
  apply ledger_eq.
  - rewrite C1, D1, A1, B1. apply mergeInto_comm.
  - rewrite C2, D2, A2, B2. apply mergeInto_comm.
  - rewrite C3, D3, A3, B3, A4, B4.
    rewrite (depositStep_shift _ _ _ a (l_outstandingDeposits l) (l_releasedDeposits l)),
      (depositStep_shift _ _ _ b (l_outstandingDeposits l) (l_releasedDeposits l)).
    cbn [fst snd].
    rewrite (depositStep_shift _ _ _ b (_ + _) (_ + _)),
      (depositStep_shift _ _ _ a (_ + _) (_ + _)). cbn [fst snd]. lia.
  - rewrite C4, D4, A3, B3, A4, B4.
    rewrite (depositStep_shift _ _ _ a (l_outstandingDeposits l) (l_releasedDeposits l)),
      (depositStep_shift _ _ _ b (l_outstandingDeposits l) (l_releasedDeposits l)).
    cbn [fst snd].
    rewrite (depositStep_shift _ _ _ b (_ + _) (_ + _)),
      (depositStep_shift _ _ _ a (_ + _) (_ + _)). cbn [fst snd]. lia.
Qed.

Lemma findPayments_perm db db' f :
  db ≡ₚ db' ->
  match findPayments db f, findPayments db' f with
  | Some l, Some l' => l ≡ₚ l'
  | None, None => True
  | _, _ => False
  end.
Proof.
  intros Hp. unfold findPayments.
  destruct f as [|[gte|] [lt|]]; try done; by apply filter_perm.
Qed.

(** X16: the response does not depend on the order in which the two stores
    list their documents: permuting the payments and the applications
    leaves every field of the embedded response unchanged, for every
    request. *)
Theorem summary_order_independent
    Date_parse tz isAdmin period year month db db' apps apps' now :
  db ≡ₚ db' -> apps ≡ₚ apps' ->
  admin_revenue_summary Date_parse tz isAdmin period year month db apps now =
  admin_revenue_summary Date_parse tz isAdmin period year month db' apps' now.
Proof.
  intros Hdb Happs. unfold admin_revenue_summary.
  destruct isAdmin; [|reflexivity]. cbn [negb].
  pose proof (findPayments_perm db db'
                (buildDateFilter Date_parse (defaultPeriod period) year month) Hdb) as Hf.
  destruct (findPayments db _) as [l|], (findPayments db' _) as [l'|]; try done.
  rewrite (cashSummaryOf_perm l l' Hf), (monthlyRevenueOf_perm tz now l l' Hf).
  rewrite (depositRefundMapOf_perm _ _
             (filter_perm _ db db' Hdb : findDepositRefunds db ≡ₚ findDepositRefunds db')).
  unfold ledgerOf.
  rewrite (fold_left_perm _ (applicationStep_comm Date_parse now _) _ _
             (filter_perm _ apps apps' Happs : findApplications apps ≡ₚ findApplications apps')).
  reflexivity.
Qed.

Lemma summary_order_witness :
  admin_revenue_summary isoDateOnly 0 true JUndefined JUndefined JUndefined
    samplePayments [leaseJanFeb; leaseYear2024] sampleNow =
  admin_revenue_summary isoDateOnly 0 true JUndefined JUndefined JUndefined
    (rev samplePayments) [leaseYear2024; leaseJanFeb] sampleNow.
Proof.
  apply summary_order_independent.
  - apply Permutation_rev.
  - apply perm_swap.
Defined.


(** *** Deposit refunds and the deposit totals *)

(** [refund.applicationId.toString() === k] *)
Local Abbreviation linkedTo k :=
  (fun p : payment =>
     match applicationId p with
     | Some i => String.eqb i k
     | None => false
     end).

Lemma refund_fold_default (rs : list payment) k : forall m : gmap string Z,
  default 0 (fold_left (fun map refund =>
      match applicationId refund with
      | None => map
      | Some key => addTo key (refundCentsOf refund) map
      end) rs m !! k) =
  default 0 (m !! k) + sumZ (List.map refundCentsOf (List.filter (linkedTo k) rs)).
Proof.
  induction rs as [|r rs IH]; intros m; cbn [fold_left List.filter List.map].
  - unfold sumZ. cbn. lia.
  - rewrite IH. destruct (applicationId r) as [i|]; [|done].
    unfold addTo. destruct (String.eqb_spec i k) as [->|Hne].
    + rewrite lookup_insert_eq. cbn [List.map]. rewrite sumZ_cons. cbn. lia.
    + by rewrite lookup_insert_ne.
Qed.

Lemma refund_fold_None (rs : list payment) k : forall m : gmap string Z,
  fold_left (fun map refund =>
      match applicationId refund with
      | None => map
      | Some key => addTo key (refundCentsOf refund) map
      end) rs m !! k = None <->
  m !! k = None /\ List.filter (linkedTo k) rs = [].
Proof.
  induction rs as [|r rs IH]; intros m; cbn [fold_left List.filter]; [tauto|].
  rewrite IH. destruct (applicationId r) as [i|]; [|done].
  unfold addTo. destruct (String.eqb_spec i k) as [->|Hne].
  - rewrite lookup_insert_eq. split; intros [? ?]; discriminate.
  - by rewrite lookup_insert_ne.
Qed.

Lemma linked_deposit_refunds (db : list payment) k :
  List.filter (linkedTo k) (findDepositRefunds db) =
  List.filter (fun p => isRefund p && isDepositCategory p && linkedTo k p) db.
Proof.
  unfold findDepositRefunds. induction db as [|p db IH]; [done|].
  cbn [List.filter]. destruct (isRefund p), (isDepositCategory p); cbn [andb];
    try exact IH.
  destruct (applicationId p) as [i|] eqn:E; cbn [bool_decide]; [|exact IH].
  rewrite bool_decide_eq_true_2 by (by eexists).
  cbn [List.filter]. rewrite E, IH. reflexivity.
Qed.

(** X12: the entry of [depositRefundMap] for a lease is the sum, over the
    stored payments of type refund and category deposit that are linked to
    the lease, of the absolute value of the amount (of [refundAmount] when
    the amount is 0), whatever their status and date; it is never negative,
    and the lease has no entry exactly when no such payment exists. *)
Theorem refund_map_by_lease (db : list payment) (k : string) :
  let linked :=
    List.filter (fun p => isRefund p && isDepositCategory p &&
                          match applicationId p with
                          | Some i => String.eqb i k
                          | None => false
                          end) db in
  let refunded := depositRefundMapOf (findDepositRefunds db) !! k in
  default 0 refunded = sumZ (List.map refundCentsOf linked) /\
  0 <= default 0 refunded /\
  (refunded = None <-> linked = []).
Proof.
  cbv zeta. unfold depositRefundMapOf.
  rewrite refund_fold_default, refund_fold_None, lookup_empty, linked_deposit_refunds.
  cbn [default]. split; [lia|]. split; [|tauto].
  apply Z.add_nonneg_nonneg; [done|]. apply sumZ_nonneg.
  intros x Hx. apply list_elem_of_fmap in Hx as (p & -> & _).
  unfold refundCentsOf. lia.
Qed.

Lemma refund_map_nonneg (db : list payment) k :
  0 <= default 0 (depositRefundMapOf db !! k).
Proof.
  unfold depositRefundMapOf. rewrite refund_fold_default, lookup_empty. cbn [default].
  apply Z.add_nonneg_nonneg; [done|]. apply sumZ_nonneg.
  intros x Hx. apply list_elem_of_fmap in Hx as (p & -> & _).
  unfold refundCentsOf. lia.
Qed.

Section Deposits.

Variable Date_parse : string -> option Z.
Variables (now : Z) (refunds : gmap string Z).
Hypothesis refunds_nonneg : forall k, 0 <= default 0 (refunds !! k).

Local Abbreviation depositCents a :=
  (Math_round (numberOrZero (depositAmount a) * 100)%float).

Lemma depositStep_counted a :
  let r := depositStep Date_parse now refunds a 0 0 in
  0 <= fst r /\ 0 <= snd r /\
  fst r + snd r <= Z.max 0 (depositCents a) /\
  (is_Some (leaseEndOf Date_parse a) -> fst r + snd r = Z.max 0 (depositCents a)).
Proof.
  cbv zeta. unfold depositStep.
  pose proof (refunds_nonneg (app_id a)) as Hr.
  set (dc := depositCents a) in *.
  set (rf := default 0 (refunds !! app_id a)) in *.
  destruct (Z.ltb_spec 0 dc); [|cbn [fst snd]; lia].
  destruct (leaseEndOf Date_parse a) as [e|].
  - destruct (now <? e); cbn [fst snd]; lia.
  - cbn [fst snd]. split; [lia|]. split; [lia|]. split; [lia|].
    intros [? ?]. discriminate.
Qed.

Lemma ledger_counted (apps : list application) :
  let l := ledgerOf Date_parse now refunds apps in
  let total := sumZ (List.map (fun a => Z.max 0 (depositCents a)) apps) in
  0 <= l_outstandingDeposits l /\ 0 <= l_releasedDeposits l /\
  l_outstandingDeposits l + l_releasedDeposits l <= total /\
  ((forall a, a ∈ apps -> is_Some (leaseEndOf Date_parse a)) ->
   l_outstandingDeposits l + l_releasedDeposits l = total).
Proof.
  cbv zeta. unfold ledgerOf.
  destruct (ledger_deposits Date_parse now refunds apps
              {| l_accrualTimeline := ∅; l_occupancyTimeline := ∅;
                 l_outstandingDeposits := 0; l_releasedDeposits := 0 |}) as [-> ->].
  cbn [l_outstandingDeposits l_releasedDeposits].
  induction apps as [|a apps IH]; cbn [List.map].
  - unfold sumZ. cbn. split; [lia|]. split; [lia|]. split; [lia|]. intros _. lia.
  - rewrite !sumZ_cons. destruct IH as (I1 & I2 & I3 & I4).
    destruct (depositStep_counted a) as (A1 & A2 & A3 & A4).
    split; [lia|]. split; [lia|]. split; [lia|].
    intros Hall.
    pose proof (A4 (Hall a ltac:(by left))).
    pose proof (I4 ltac:(intros b Hb; apply Hall; by right)). lia.
Qed.

End Deposits.

(** X14: with the refund map of the handler, the outstanding and the released
    deposits of the ledger are not negative, and together they never exceed
    the deposit cents of the leases (the positive
    [Math.round(depositAmount * 100)]); they are equal to that total when
    the end date of every lease parses. *)
Theorem deposits_counted_once Date_parse now db (apps : list application) :
  let l := ledgerOf Date_parse now (depositRefundMapOf (findDepositRefunds db)) apps in
  let total :=
    sumZ (List.map
            (fun a => Z.max 0 (Math_round (numberOrZero (depositAmount a) * 100)%float))
            apps) in
  0 <= l_outstandingDeposits l /\ 0 <= l_releasedDeposits l /\
  l_outstandingDeposits l + l_releasedDeposits l <= total /\
  ((forall a, a ∈ apps -> is_Some (leaseEndOf Date_parse a)) ->
   l_outstandingDeposits l + l_releasedDeposits l = total).
Proof.
  apply ledger_counted. intros k. apply refund_map_nonneg.
Qed.


(** *** The amounts of the cash timeline *)

Section Buckets.

Variable tz : Z.

(** The payment is dated in the local calendar month with key [k]. *)
Local Abbreviation paidIn k :=
  (fun p : payment =>
     match paidAt p with
     | Some t => String.eqb (monthKey (monthOf (t + tz))) k
     | None => false
     end).




End Buckets.







End SummaryProps.

(** ** The order of the month keys *)

Module OrderFacts.

Import Calendar JS Num Engine Route Spec.
Import CalendarFacts KeyFacts MapFacts.

Lemma ascii_compare_code a b : Ascii.compare a b = (charCode a ?= charCode b).
Proof. unfold Ascii.compare, charCode. by rewrite N2Z.inj_compare. Qed.

Lemma append_cons c (s r : string) : (String c s ++ r)%string = String c (s ++ r).
Proof. reflexivity. Qed.

Lemma append_nil (r : string) : (EmptyString ++ r)%string = r.
Proof. reflexivity. Qed.

(** The decimal string of a number with four digits. *)
Lemma four_digits y :
  1000 <= y <= 9999 ->
  exists a b c d,
    Number_toString y = String a (String b (String c (String d EmptyString))) /\
    (48 <= charCode a <= 57 /\ 48 <= charCode b <= 57 /\
     48 <= charCode c <= 57 /\ 48 <= charCode d <= 57) /\
    y = 1000 * (charCode a - 48) + 100 * (charCode b - 48) +
        10 * (charCode c - 48) + (charCode d - 48).
Proof.
  intros Hy.
  assert (forallb (fun y =>
            match Number_toString y with
            | String a (String b (String c (String d EmptyString))) =>
                (48 <=? charCode a) && (charCode a <=? 57) &&
                (48 <=? charCode b) && (charCode b <=? 57) &&
                (48 <=? charCode c) && (charCode c <=? 57) &&
                (48 <=? charCode d) && (charCode d <=? 57) &&
                (y =? 1000 * (charCode a - 48) + 100 * (charCode b - 48) +
                      10 * (charCode c - 48) + (charCode d - 48))
            | _ => false
            end) (seqZ 1000 9000) = true) as Hall by (vm_compute; reflexivity).
  rewrite forallb_forall in Hall. specialize (Hall y).
  rewrite <- list_elem_of_In, elem_of_seqZ in Hall. specialize (Hall ltac:(lia)).
  destruct (Number_toString y) as [|a [|b [|c [|d [|? ?]]]]]; try discriminate.
  exists a, b, c, d. split; [done|].
  repeat (apply andb_prop in Hall as [Hall ?]). lia.
Qed.

Lemma year_compare y y' r r' :
  1000 <= y <= 9999 -> 1000 <= y' <= 9999 ->
  String.compare (Number_toString y ++ r) (Number_toString y' ++ r') =
  match y ?= y' with
  | Eq => String.compare r r'
  | c => c
  end.
Proof.
  intros Hy Hy'.
  destruct (four_digits y Hy) as (a & b & c & d & -> & Hr & E).
  destruct (four_digits y' Hy') as (a' & b' & c' & d' & -> & Hr' & E').
  rewrite !append_cons, !append_nil. cbn [String.compare].
  rewrite !ascii_compare_code.
  destruct (Z.compare_spec (charCode a) (charCode a')) as [Ha|Ha|Ha];
    [|by rewrite (proj2 (Z.compare_lt_iff y y')) by lia
     |by rewrite (proj2 (Z.compare_gt_iff y y')) by lia].
  destruct (Z.compare_spec (charCode b) (charCode b')) as [Hb|Hb|Hb];
    [|by rewrite (proj2 (Z.compare_lt_iff y y')) by lia
     |by rewrite (proj2 (Z.compare_gt_iff y y')) by lia].
  destruct (Z.compare_spec (charCode c) (charCode c')) as [Hc|Hc|Hc];
    [|by rewrite (proj2 (Z.compare_lt_iff y y')) by lia
     |by rewrite (proj2 (Z.compare_gt_iff y y')) by lia].
  destruct (Z.compare_spec (charCode d) (charCode d')) as [Hd|Hd|Hd];
    [|by rewrite (proj2 (Z.compare_lt_iff y y')) by lia
     |by rewrite (proj2 (Z.compare_gt_iff y y')) by lia].
  by rewrite (proj2 (Z.compare_eq_iff y y')) by lia.
Qed.

Lemma padMonth_compare m m' :
  1 <= m <= 12 -> 1 <= m' <= 12 ->
  String.compare (padMonth (Some m)) (padMonth (Some m')) = (m ?= m').
Proof.
  intros Hm Hm'.
  assert (forallb (fun m =>
            forallb (fun m' =>
              match String.compare (padMonth (Some m)) (padMonth (Some m')), m ?= m' with
              | Eq, Eq | Lt, Lt | Gt, Gt => true
              | _, _ => false
              end) (seqZ 1 12)) (seqZ 1 12) = true) as Hall by (vm_compute; reflexivity).
  rewrite forallb_forall in Hall. specialize (Hall m).
  rewrite <- list_elem_of_In, elem_of_seqZ in Hall. specialize (Hall ltac:(lia)).
  rewrite forallb_forall in Hall. specialize (Hall m').
  rewrite <- list_elem_of_In, elem_of_seqZ in Hall. specialize (Hall ltac:(lia)).
  by destruct (String.compare _ _), (m ?= m').
Qed.

(** For years of four digits the order of the strings is the order of the
    months. *)
Lemma monthKey_compare n n' :
  12000 <= n < 120000 -> 12000 <= n' < 120000 ->
  String.compare (monthKey n) (monthKey n') = (n ?= n').
Proof.
  intros Hn Hn'. unfold monthKey.
  rewrite year_compare by lia. rewrite !append_cons, !append_nil. cbn [String.compare].
  change (Ascii.compare "-" "-") with Eq. cbv iota.
  rewrite padMonth_compare by lia.
  destruct (Z.compare_spec (n / 12) (n' / 12)) as [Hy|Hy|Hy];
    [|by rewrite (proj2 (Z.compare_lt_iff n n')) by lia
     |by rewrite (proj2 (Z.compare_gt_iff n n')) by lia].
  destruct (Z.compare_spec (n mod 12 + 1) (n' mod 12 + 1)) as [Hm|Hm|Hm];
    [by rewrite (proj2 (Z.compare_eq_iff n n')) by lia
    |by rewrite (proj2 (Z.compare_lt_iff n n')) by lia
    |by rewrite (proj2 (Z.compare_gt_iff n n')) by lia].
Qed.

Lemma monthKey_ltb n n' :
  12000 <= n < 120000 -> 12000 <= n' < 120000 ->
  String.ltb (monthKey n) (monthKey n') = (n <? n').
Proof.
  intros Hn Hn'. unfold String.ltb, Z.ltb. by rewrite monthKey_compare.
Qed.

End OrderFacts.

Module UpcomingProps.

Import Calendar JS Num Engine Route Spec Samples MoreSamples.
Import CalendarFacts KeyFacts MapFacts ListFacts OrderFacts.

Lemma sum_lookup_insert (m : gmap string Z) n0 x (l : list Z) :
  m !! monthKey n0 = None -> NoDup l ->
  sumZ (List.map (fun n => default 0 (<[monthKey n0 := x]> m !! monthKey n)) l) =
  sumZ (List.map (fun n => default 0 (m !! monthKey n)) l) +
  (if bool_decide (n0 ∈ l) then x else 0).
Proof.
  intros Hm. induction l as [|n l IH]; intros Hnd.
  - rewrite bool_decide_eq_false_2 by apply not_elem_of_nil. reflexivity.
  - apply NoDup_cons in Hnd as [Hn Hnd]. cbn [List.map].
    rewrite !sumZ_cons, IH by done.
    destruct (decide (n = n0)) as [->|Hne].
    + rewrite lookup_insert_eq, Hm. cbn [default].
      rewrite (bool_decide_eq_false_2 (n0 ∈ l)) by done.
      rewrite bool_decide_eq_true_2 by (by left). cbn. lia.
    + rewrite lookup_insert_ne by (intros E; apply monthKey_inj in E; done).
      destruct (decide (n0 ∈ l)) as [Hin|Hnin].
      * rewrite !bool_decide_eq_true_2; [lia | by right | done].
      * rewrite !bool_decide_eq_false_2; [lia | | done].
        intros [E|E]%elem_of_cons; done.
Qed.

(** X15: for month keys with a year of four digits the order of the strings
    is the order of the months, so [upcomingRevenue] is the sum of the
    entries of the accrual timeline for the months after the current UTC
    month: with every key of the timeline a month between year 1000 and
    month [hi], it is the sum of the entries of the months
    [monthOf now + 1 .. hi]. *)
Theorem upcoming_revenue_months (timeline : gmap string Z) (now hi : Z) :
  12000 <= monthOf now <= hi -> hi < 120000 ->
  (forall k, is_Some (timeline !! k) -> exists n, k = monthKey n /\ 12000 <= n <= hi) ->
  upcomingRevenueOf (getMonthKey now) timeline =
  sumZ (List.map (fun n => default 0 (timeline !! monthKey n))
          (seqZ (monthOf now + 1) (hi - monthOf now))).
Proof.
  intros Hc Hhi. rewrite getMonthKey_monthKey. set (c := monthOf now) in *.
  unfold upcomingRevenueOf.
  apply (map_fold_weak_ind
    (fun (r : Z) (m : gmap string Z) =>
       (forall k, is_Some (m !! k) -> exists n, k = monthKey n /\ 12000 <= n <= hi) ->
       r = sumZ (List.map (fun n => default 0 (m !! monthKey n))
                   (seqZ (c + 1) (hi - c))))).
  - intros _. induction (seqZ (c + 1) (hi - c)) as [|n l IH]; [done|].
    cbn [List.map]. rewrite sumZ_cons, <- IH, lookup_empty. done.
  - intros i x m r Hi IH Hkeys.
    destruct (Hkeys i) as (n0 & -> & Hn0); [by rewrite lookup_insert_eq|].
    rewrite IH.
    2:{ intros k Hk. apply Hkeys. destruct (decide (k = monthKey n0)) as [->|Hne].
        - by rewrite lookup_insert_eq.
        - by rewrite lookup_insert_ne. }
    rewrite sum_lookup_insert by (done || apply NoDup_seqZ).
    rewrite monthKey_ltb by lia.
    destruct (Z.ltb_spec c n0).
    + rewrite bool_decide_eq_true_2 by (apply elem_of_seqZ; lia). done.
    + rewrite bool_decide_eq_false_2 by (rewrite elem_of_seqZ; lia). lia.
Qed.


Lemma upcoming_revenue_witness :
  let timeline := allocations (calculateAccrualAllocations isoDateOnly leaseJanFeb) in
  let now := Date_UTC 2024 0 20 in
  upcomingRevenueOf (getMonthKey now) timeline =
    sumZ (List.map (fun n => default 0 (timeline !! monthKey n))
            (seqZ (monthOf now + 1) (24289 - monthOf now))) /\
  monthOf now = 24288 /\ monthKey 24289 = "2024-02"%string /\
  upcomingRevenueOf (getMonthKey now) timeline = 34483.
Proof.
  split; [|vm_compute; auto].
  apply upcoming_revenue_months; [vm_compute; split; discriminate | lia |].
  intros k Hk.
  destruct (AllocatorFacts.calculateAccrualAllocations_entries isoDateOnly leaseJanFeb
              (Date_UTC 2024 0 15) (Date_UTC 2024 1 10)) as (Ha & _).
  { vm_compute. intuition discriminate. }
  rewrite Ha in Hk. destruct Hk as [v Hk].
  apply EntryFacts.entries_lookup_inv in Hk as (n & Hn & -> & _).
  apply AllocatorFacts.elem_of_monthsTouched in Hn as [Hn _].
  exists n. split; [reflexivity|].
  change (monthOf (Date_UTC 2024 0 15)) with 24288 in Hn.
  change (monthOf (Date_UTC 2024 1 10)) with 24289 in Hn. lia.
Defined.

End UpcomingProps.

(** ** The date filter of the payment query *)

Module FilterProps.

Import Calendar JS Num Engine Route Spec Samples MoreSamples.
Import CalendarFacts KeyFacts ParseFacts EngineProps.

(** The first of January of a year with four digits, in the ISO format. *)
Lemma iso_january y :
  1000 <= y <= 9999 ->
  isoDateOnly (Number_toString y ++ "-01-01")%string = Some (Date_UTC y 0 1).
Proof.
  intros Hy.
  assert (forallb (fun y =>
            match isoDateOnly (Number_toString y ++ "-01-01")%string with
            | Some t => t =? Date_UTC y 0 1
            | None => false
            end) (seqZ 1000 9000) = true) as Hall by (vm_compute; reflexivity).
  rewrite forallb_forall in Hall. specialize (Hall y).
  rewrite <- list_elem_of_In, elem_of_seqZ in Hall. specialize (Hall ltac:(lia)).
  destruct (isoDateOnly _) as [t|]; [|discriminate].
  f_equal. lia.
Qed.

Lemma Date_UTC_january y : Date_UTC y 0 1 = DayFromYear y * msPerDay.
Proof.
  unfold Date_UTC, MakeDay. change (0 / 12) with 0. change (0 mod 12) with 0.
  cbn [monthStartDay]. replace (y + 0) with y by lia. f_equal. lia.
Qed.

Lemma in_utc_year y t :
  (Date_UTC y 0 1 <=? t) && (t <? Date_UTC (y + 1) 0 1) = (getUTCFullYear t =? y).
Proof.
  rewrite !Date_UTC_january. unfold getUTCFullYear, YearFromTime, Day.
  pose proof (YearFromDay_spec (t / msPerDay)) as Hs.
  destruct (Z.eqb_spec (YearFromDay (t / msPerDay)) y) as [E|Hne].
  - rewrite E in Hs. unfold msPerDay in *.
    apply andb_true_intro. rewrite Z.leb_le, Z.ltb_lt. lia.
  - apply andb_false_iff. rewrite Z.leb_gt, Z.ltb_ge.
    destruct (Z.le_gt_cases (DayFromYear y * msPerDay) t) as [H1|H1]; [|by left].
    destruct (Z.le_gt_cases (DayFromYear (y + 1) * msPerDay) t) as [H2|H2];
      [by right|].
    exfalso. apply Hne, YearFromDay_unique. unfold msPerDay in *. lia.
Qed.

(** X8: with a [Date] parser that reads the ISO date-only form, a "year"
    request for a year [y] of four digits (its decimal string) makes the
    payment query return exactly the succeeded payments whose [paidAt] lies
    in the UTC calendar year [y]; a payment without [paidAt] is left
    out. *)
Theorem year_filter_is_utc_year Date_parse y (month : jsval) (db : list payment) :
  (forall str t, isoDateOnly str = Some t -> Date_parse str = Some t) ->
  1000 <= y <= 9998 ->
  findPayments db
    (buildDateFilter Date_parse (JString "year") (JString (Number_toString y)) month) =
  Some (List.filter (fun p =>
          isSucceeded p &&
          match paidAt p with
          | Some t => getUTCFullYear t =? y
          | None => false
          end) db).
Proof.
  intros Hiso Hy. unfold buildDateFilter.
  rewrite Number_toString_truthy. cbn [strictEqString].
  change (String.eqb "year" "year") with true. cbn [andb ToString].
  rewrite parseInt_Number_toString by auto. cbn [addOne intOrNaN_toString].
  rewrite (Hiso _ _ (iso_january y ltac:(lia))).
  rewrite (Hiso _ _ (iso_january (y + 1) ltac:(lia))).
  cbn [findPayments]. f_equal. apply filter_ext. intros p.
  destruct (paidAt p) as [t|]; [|done]. by rewrite in_utc_year.
Qed.

Lemma year_filter_witness :
  findPayments samplePayments
    (buildDateFilter isoDateOnly (JString "year") (JString (Number_toString 2024))
       JUndefined) =
  Some (List.filter (fun p =>
          isSucceeded p &&
          match paidAt p with
          | Some t => getUTCFullYear t =? 2024
          | None => false
          end) samplePayments) /\
  Number_toString 2024 = "2024"%string.
Proof.
  split; [|reflexivity].
  apply year_filter_is_utc_year; [intros str t H; exact H | lia].
Defined.

(** X9: a "month" request for month "12" builds the upper bound of the date
    filter from the string year-13-01.  When the [Date] parser refuses that
    string, as it does month 13 of the ISO form, the bound is an Invalid
    Date, the payment query fails and the administrator gets the server
    error, for every store and every year. *)
Theorem december_request_fails Date_parse tz (year : jsval) db apps now :
  truthy year = true ->
  Date_parse (ToString year ++ "-13-01")%string = None ->
  admin_revenue_summary Date_parse tz true (JString "month") year (JString "12")
    db apps now = ServerError.
Proof.
  intros Hy Hp. unfold admin_revenue_summary, buildDateFilter. cbn [negb defaultPeriod].
  rewrite Hy. cbn [strictEqString].
  change (String.eqb "month" "year") with false.
  change (String.eqb "month" "month") with true.
  change (truthy (JString "12")) with true. cbn [andb].
  change (parseInt (JString "12") None) with (Some 12).
  cbn [addOne intOrNaN_toString ToString].
  change (Number_toString (12 + 1)) with "13"%string.
  change ("-" ++ "13" ++ "-01")%string with "-13-01"%string.
  rewrite Hp.
  match goal with |- context [PaidBetween ?gte None] => by destruct gte end.
Qed.

Lemma december_request_witness :
  admin_revenue_summary isoDateOnly 0 true (JString "month") (JString "2024")
    (JString "12") samplePayments [leaseJanFeb] sampleNow = ServerError /\
  monthMatchesPeriod "2024-12"
    (getPeriodConfig (JString "month") (JString "2024") (JString "12")) = true.
Proof.
  split; [|reflexivity].
  apply december_request_fails; reflexivity.
Defined.

(** X7: the date filter of the payment query and the period configuration of
    the accrual side are switched on by the same requests: there is no date
    filter exactly when the configuration is "all". *)
Theorem period_applies_to_both Date_parse (period year month : jsval) :
  buildDateFilter Date_parse period year month = NoDateFilter <->
  getPeriodConfig period year month = PeriodAll.
Proof.
  unfold buildDateFilter, getPeriodConfig.
  destruct (strictEqString period "year" && truthy year); [done|].
  by destruct (strictEqString period "month" && truthy year && truthy month).
Qed.

End FilterProps.

(** ** The breakdown by payment type *)

Module BreakdownProps.

Import Calendar JS Num Engine Route Spec Samples MoreSamples.
Import MapFacts RouteFacts ListFacts.

Local Abbreviation zero := {| Breakdown.count := 0; Breakdown.amount := 0 |}.

Local Abbreviation step :=
  (fun (acc : gmap payment_type Breakdown.typeRevenue) (payment : payment) =>
     let type := paymentType payment in
     let entry := default zero (acc !! type) in
     <[type := {| Breakdown.count := Breakdown.count entry + 1;
                  Breakdown.amount := Breakdown.amount entry + amount payment |}]> acc).

Local Abbreviation ofType t :=
  (List.filter (fun p : payment => bool_decide (paymentType p = t))).

Lemma byType_lookup (payments : list payment) t :
  forall acc : gmap payment_type Breakdown.typeRevenue,
  fold_left step payments acc !! t =
  match ofType t payments with
  | [] => acc !! t
  | l => Some {| Breakdown.count :=
                   Breakdown.count (default zero (acc !! t)) + Z.of_nat (length l);
                 Breakdown.amount :=
                   Breakdown.amount (default zero (acc !! t)) + sumZ (List.map amount l) |}
  end.
Proof.
  induction payments as [|p ps IH]; intros acc; cbn [fold_left List.filter]; [done|].
  rewrite IH. destruct (decide (paymentType p = t)) as [E|Hne].
  - rewrite (bool_decide_eq_true_2 _ E). rewrite E, lookup_insert_eq. cbn [default].
    destruct (ofType t ps) as [|q l];
      cbn [Breakdown.count Breakdown.amount length List.map];
      rewrite !sumZ_cons, ?sumZ_nil; unfold id;
      cbn [Breakdown.count Breakdown.amount]; f_equal; f_equal; lia.
  - rewrite (bool_decide_eq_false_2 _ Hne). by rewrite lookup_insert_ne.
Qed.

Lemma byType_totals (payments : list payment) :
  forall acc : gmap payment_type Breakdown.typeRevenue,
  map_fold (fun _ v sum => sum + Breakdown.amount v) 0 (fold_left step payments acc) =
    map_fold (fun _ v sum => sum + Breakdown.amount v) 0 acc +
    sumZ (List.map amount payments) /\
  map_fold (fun _ v sum => sum + Breakdown.count v) 0 (fold_left step payments acc) =
    map_fold (fun _ v sum => sum + Breakdown.count v) 0 acc +
    Z.of_nat (length payments).
Proof.
  induction payments as [|p ps IH]; intros acc; cbn [fold_left List.map length].
  - unfold sumZ. cbn. lia.
  - destruct (IH (step acc p)) as [E1 E2]. cbv beta zeta in E1, E2 |- *.
    rewrite E1, E2, !total_insert. cbn [Breakdown.count Breakdown.amount].
    unfold sumZ. cbn [fold_right].
    destruct (acc !! paymentType p); cbn; lia.
Qed.

(** X10: the breakdown by payment type adds up to the cash summary: its
    amounts sum to [totalRevenue] (the total the dashboard computes from
    it), its counts to [paymentCount]; a type has an entry exactly when a
    payment of that type qualifies, with the number and the sum of the
    amounts of these payments. *)
Theorem revenue_by_type_adds_up (payments : list payment) :
  let byType := Breakdown.revenueByTypeOf payments in
  Dashboard.totalRevenueByType byType = totalRevenue (cashSummaryOf payments) /\
  map_fold (fun _ v sum => sum + Breakdown.count v) 0 byType =
    Z.of_nat (paymentCount (cashSummaryOf payments)) /\
  (forall t,
     byType !! t =
     match List.filter (fun p => bool_decide (paymentType p = t)) payments with
     | [] => None
     | l => Some {| Breakdown.count := Z.of_nat (length l);
                    Breakdown.amount := sumZ (List.map amount l) |}
     end).
Proof.
  cbv zeta. unfold Dashboard.totalRevenueByType, Breakdown.revenueByTypeOf.
  destruct (byType_totals payments ∅) as [E1 E2]. cbv beta zeta in E1, E2 |- *.
  rewrite E1, E2, !map_fold_empty.
  cbn [totalRevenue paymentCount cashSummaryOf]. rewrite sumOver_sumZ.
  split; [lia|]. split; [lia|].
  intros t. rewrite byType_lookup, lookup_empty. cbn [default].
  destruct (ofType t payments); [done|]. f_equal.
Qed.

End BreakdownProps.

(** ** The dashboard *)

Module DashboardProps.

Import Calendar JS Num Engine Route Spec Samples MoreSamples.
Import CalendarFacts KeyFacts MapFacts RouteFacts ListFacts OrderFacts.
Import Dashboard.

Lemma elem_of_monthKeys (cash : gmap string Z) k :
  k ∈ monthKeys cash <-> is_Some (cash !! k).
Proof.
  unfold monthKeys. rewrite merge_sort_Permutation.
  rewrite list_elem_of_fmap. split.
  - intros ([k' v] & -> & H). apply elem_of_map_to_list in H. by exists v.
  - intros [v H]. exists (k, v). split; [done|]. by apply elem_of_map_to_list.
Qed.

Lemma fold_max_bounds (f : string -> Z) (keys : list string) : forall init,
  init <= fold_left (fun max key => Z.max max (f key)) keys init /\
  (forall k, k ∈ keys -> f k <= fold_left (fun max key => Z.max max (f key)) keys init).
Proof.
  induction keys as [|key keys IH]; intros init; cbn [fold_left].
  - split; [lia|]. intros k Hk. by apply elem_of_nil in Hk.
  - destruct (IH (Z.max init (f key))) as [H1 H2]. split; [lia|].
    intros k [->|Hk]%elem_of_cons; [lia | by apply H2].
Qed.

(** X17: the scale of the bars of the dashboard, [maxBarValue], is positive,
    so the division by it is defined, and no cash or accrual amount of a
    month of the cash timeline exceeds it. *)
Theorem bar_scale_bounds (cash accrual : gmap string Z) :
  let scale := maxBarValue (monthKeys cash) cash accrual in
  0 < scale /\
  (forall k, is_Some (cash !! k) ->
     default 0 (cash !! k) <= scale /\ default 0 (accrual !! k) <= scale).
Proof.
  cbv zeta. unfold maxBarValue.
  destruct (fold_max_bounds
              (fun key => Z.max (default 0 (cash !! key)) (default 0 (accrual !! key)))
              (monthKeys cash) 0) as [H0 Hk].
  set (m := fold_left _ _ _) in *. unfold orZ.
  split.
  - destruct (Z.eqb_spec m 0); lia.
  - intros k Hin. apply elem_of_monthKeys in Hin. specialize (Hk k Hin).
    destruct (Z.eqb_spec m 0); lia.
Qed.


(** *** The order of [sort] on strings *)

Lemma string_compare_refl (a : string) : String.compare a a = Eq.
Proof.
  induction a as [|c a IH]; [done|]. cbn [String.compare].
  unfold Ascii.compare. by rewrite N.compare_refl.
Qed.

Lemma string_compare_trans (a : string) : forall b c,
  String.compare a b <> Gt -> String.compare b c <> Gt -> String.compare a c <> Gt.
Proof.
  induction a as [|x a IH]; intros [|y b] [|z c]; cbn [String.compare]; try done.
  unfold Ascii.compare.
  destruct (N.compare_spec (N_of_ascii x) (N_of_ascii y)) as [E1|L1|G1]; [|..|done];
  destruct (N.compare_spec (N_of_ascii y) (N_of_ascii z)) as [E2|L2|G2]; try done.
  - rewrite E1, E2, N.compare_refl. apply IH.
  - intros _ _. rewrite E1. by rewrite (proj2 (N.compare_lt_iff _ _) L2).
  - intros _ _. rewrite <- E2. by rewrite (proj2 (N.compare_lt_iff _ _) L1).
  - intros _ _. by rewrite (proj2 (N.compare_lt_iff _ _) (N.lt_trans _ _ _ L1 L2)).
Qed.

Lemma stringLe_compare a b : stringLe a b <-> String.compare a b <> Gt.
Proof. unfold stringLe, String.leb. by destruct (String.compare a b). Qed.

Local Instance stringLe_trans : Transitive stringLe.
Proof. intros a b c. rewrite !stringLe_compare. apply string_compare_trans. Qed.

Local Instance stringLe_total : Total stringLe.
Proof. intros a b. apply String.leb_total. Qed.

Local Instance stringLe_antisym : AntiSymm (=) stringLe.
Proof. intros a b. apply String.leb_antisym. Qed.

Lemma monthKey_le n n' :
  12000 <= n < 120000 -> 12000 <= n' < 120000 -> n <= n' ->
  stringLe (monthKey n) (monthKey n').
Proof.
  intros Hn Hn' Hle. rewrite stringLe_compare, monthKey_compare by done.
  by apply Z.compare_le_iff.
Qed.

(** The sorted keys of the cash timeline are the trailing window, oldest
    month first. *)
Lemma monthKeys_window tz now (cash : gmap string Z) :
  dom cash = list_to_set (trailingWindow tz now) ->
  12011 <= monthOf (now + tz) < 120000 ->
  monthKeys cash = trailingWindow tz now.
Proof.
  intros Hdom Hc. apply (StronglySorted_unique stringLe).
  - apply StronglySorted_merge_sort; apply _.
  - unfold trailingWindow. cbn [List.map].
    repeat (apply SSorted_cons; [|repeat (apply Forall_cons; split;
                                            [apply monthKey_le; lia|]);
                                  apply Forall_nil_2]).
    apply SSorted_nil.
  - apply NoDup_Permutation.
    + unfold monthKeys. rewrite merge_sort_Permutation. apply NoDup_fst_map_to_list.
    + apply trailingWindow_NoDup.
    + intros k. rewrite elem_of_monthKeys, <- elem_of_dom, Hdom.
      apply elem_of_list_to_set.
Qed.

(** X18: on a response of the server (years of four digits) the occupancy
    table of the dashboard has six rows, for the current local month and
    the five months before it, latest first; a row shows the nights of the
    month (0 when absent) and, when there are nights, the earned cents per
    night rounded half up, otherwise 0. *)
Theorem occupancy_rows_latest_six tz now (payments : list payment)
    (occupancyByMonth accrualMonthlyRevenue : gmap string Z) :
  12011 <= monthOf (now + tz) < 120000 ->
  let rows :=
    occupancyRows (monthKeys (monthlyRevenueOf tz now payments))
      occupancyByMonth accrualMonthlyRevenue in
  List.map key rows =
    List.map (fun i => monthKey (monthOf (now + tz) - i)) [0; 1; 2; 3; 4; 5] /\
  (forall row, row ∈ rows ->
     nights row = default 0 (occupancyByMonth !! key row) /\
     (0 < nights row ->
        nightlyRate row =
          roundDiv (default 0 (accrualMonthlyRevenue !! key row)) (nights row) /\
        2 * default 0 (accrualMonthlyRevenue !! key row) - nights row
          < 2 * nights row * nightlyRate row
          <= 2 * default 0 (accrualMonthlyRevenue !! key row) + nights row) /\
     (nights row <= 0 -> nightlyRate row = 0)).
Proof.
  intros Hc rows. unfold rows, occupancyRows.
  rewrite (monthKeys_window tz now) by (done || apply monthlyRevenueOf_dom).
  split.
  - rewrite List.map_map. cbn [key]. rewrite List.map_id. reflexivity.
  - intros row Hrow. apply list_elem_of_fmap in Hrow as (k & -> & _).
    cbn [key nights nightlyRate]. split; [done|]. split.
    + intros Hpos. destruct (Z.ltb_spec 0 (default 0 (occupancyByMonth !! k))); [|lia].
      split; [done|]. by apply roundDiv_spec.
    + intros Hle. destruct (Z.ltb_spec 0 (default 0 (occupancyByMonth !! k))); [lia|done].
Qed.


Lemma occupancy_rows_witness :
  let rows :=
    occupancyRows (monthKeys (monthlyRevenueOf 0 sampleNow samplePayments))
      {[ "2024-01"%string := 17 ]} {[ "2024-01"%string := 54839 ]} in
  List.map key rows =
    ["2024-02"; "2024-01"; "2023-12"; "2023-11"; "2023-10"; "2023-09"]%string /\
  List.map nightlyRate rows = [0; 3226; 0; 0; 0; 0].
Proof.
  destruct (occupancy_rows_latest_six 0 sampleNow samplePayments
              {[ "2024-01"%string := 17 ]} {[ "2024-01"%string := 54839 ]})
    as [Hkeys _].
  { vm_compute. split; [discriminate | reflexivity]. }
  split; [exact Hkeys | vm_compute; reflexivity].
Defined.

End DashboardProps.

(** ** The routes that move deposits *)

Module StoreFacts.

Import Calendar JS Num Engine Route Spec.
Import MapFacts RouteFacts ListFacts.
Import Store.

Lemma fold_amounts (l : list paymentDoc) : forall a,
  fold_left (fun sum payment => sum + amount (fields payment)) l a =
  a + sumZ (List.map (fun d => amount (fields d)) l).
Proof.
  induction l as [|d l IH]; intros a; cbn [fold_left List.map].
  - rewrite sumZ_nil. lia.
  - rewrite IH, sumZ_cons. lia.
Qed.

Lemma balanceOf_sum user app s :
  balanceOf user app s =
  sumZ (List.map (fun d => amount (fields d)) (sourcePaymentsOf user app s)).
Proof. unfold balanceOf. rewrite fold_amounts. lia. Qed.

(** What a successful admin transfer has checked and written. *)
Lemma admin_transfer_ok isAdmin from to amt nowTo nowFrom idTo idFrom s s' :
  admin_transfer_amount isAdmin from to amt nowTo nowFrom idTo idFrom s = (Ok200, s') ->
  exists f t d user fromApp toApp,
    from = Some f /\ to = Some t /\ amt = Some d /\
    f <> EmptyString /\ t <> EmptyString /\ d <> 0 /\ isAdmin = true /\
    findById f s = Some fromApp /\ findById t s = Some toApp /\
    owner fromApp = Some user /\ owner toApp = Some user /\
    sourcePaymentsOf user f s <> [] /\
    d <= balanceOf user f s /\
    s' = markReceived t
           {| payments :=
                (payments s ++ [adminTransferDoc idTo user t f t d d nowTo]) ++
                [adminTransferDoc idFrom user f f t (- d) d nowFrom];
              applications := applications s |}.
Proof.
  unfold admin_transfer_amount. intros H.
  destruct isAdmin; [|discriminate]. cbn [negb] in H.
  destruct from as [f|]; [|destruct (_ || _); discriminate].
  destruct to as [t|]; [|destruct (_ || _); discriminate].
  destruct amt as [d|]; [|destruct (_ || _); discriminate].
  destruct (negb (truthyId (Some f)) || negb (truthyId (Some t)) ||
            negb (truthyAmount (Some d))) eqn:Hreq; [discriminate|].
  apply orb_false_elim in Hreq as [Hreq Hd].
  apply orb_false_elim in Hreq as [Hf Ht].
  apply negb_false_iff in Hf, Ht, Hd. cbn [truthyId truthyAmount] in Hf, Ht, Hd.
  apply negb_true_iff in Hf, Ht, Hd.
  apply String.eqb_neq in Hf, Ht. apply Z.eqb_neq in Hd.
  destruct (findById f s) as [fromApp|] eqn:Efrom; [|discriminate].
  destruct (findById t s) as [toApp|] eqn:Eto; [|discriminate].
  destruct (owner fromApp) as [u1|] eqn:Eu1; [|discriminate].
  destruct (owner toApp) as [u2|] eqn:Eu2; [|discriminate].
  destruct (String.eqb_spec u1 u2) as [<-|]; [|discriminate]. cbn [negb] in H.
  destruct (length (sourcePaymentsOf u1 f s) =? 0)%nat eqn:Elen; [discriminate|].
  destruct (Z.ltb_spec (balanceOf u1 f s) d) as [|Hbal]; [discriminate|].
  unfold save, validate in H. cbn in H.
  injection H as <-.
  exists f, t, d, u1, fromApp, toApp. repeat split; try done.
  intros E. rewrite E in Elen. discriminate.
Qed.

End StoreFacts.

Module StoreProps.

Import Calendar JS Num Engine Route Spec Samples MoreSamples.
Import MapFacts RouteFacts ListFacts StoreFacts.
Import Store StoreSamples.

(** X20: [POST /transfer-deposit] never records a transfer.  The document it
    builds has no [totalAmount], which the schema requires, so [save]
    refuses it; every request ends with a status other than 200 and leaves
    the store as it was. *)
Theorem transfer_deposit_never_succeeds user from to amt now newId s :
  fst (transfer_deposit user from to amt now newId s) <> Ok200 /\
  snd (transfer_deposit user from to amt now newId s) = s.
Proof.
  unfold transfer_deposit.
  destruct (_ || _); [done|].
  destruct from as [f|]; [|done]. destruct to as [t|]; [|done].
  destruct amt as [d|]; [|done].
  destruct (findOwned f user s); [|done].
  destruct (findOwned t user s); [|done].
  destruct (List.find _ _) as [originalDeposit|]; [|done].
  destruct (_ <? _); [done|].
  unfold save, validate. cbn [totalAmount].
  rewrite bool_decide_eq_false_2 by (intros [? ?]; discriminate). done.
Qed.

(** *** The admin transfer *)

Lemma sourcePayments_app user a (s : store) extra :
  sourcePaymentsOf user a
    {| payments := payments s ++ extra; applications := applications s |} =
  sourcePaymentsOf user a s ++
  List.filter (fun d => String.eqb (userId d) user && appIs a d && isSucceeded (fields d))
    extra.
Proof. unfold sourcePaymentsOf. cbn [payments]. apply List.filter_app. Qed.

Lemma sourcePayments_markReceived user a t s :
  sourcePaymentsOf user a (markReceived t s) = sourcePaymentsOf user a s.
Proof. reflexivity. Qed.

(** X21: a successful [POST /admin/transfer-amount] has checked the amount
    against the balance of the source application, the sum of the succeeded
    payments of the user on it.  Afterwards the balance of every
    application of the user is the old one, plus the amount for the
    destination, minus the amount for the source; for two different
    applications the source balance is down by the amount and not
    negative, and the destination is up by it.  Other users are not
    touched. *)
Theorem admin_transfer_balances isAdmin from to amt nowTo nowFrom idTo idFrom s s' :
  admin_transfer_amount isAdmin from to amt nowTo nowFrom idTo idFrom s = (Ok200, s') ->
  exists f t d user,
    from = Some f /\ to = Some t /\ amt = Some d /\
    owner <$> findById f s = Some (Some user) /\
    d <= balanceOf user f s /\
    (forall a, balanceOf user a s' =
               balanceOf user a s + (if String.eqb t a then d else 0)
                                  - (if String.eqb f a then d else 0)) /\
    (f <> t ->
       balanceOf user f s' = balanceOf user f s - d /\
       0 <= balanceOf user f s' /\
       balanceOf user t s' = balanceOf user t s + d) /\
    (forall u a, u <> user -> balanceOf u a s' = balanceOf u a s).
Proof.
  intros H. apply admin_transfer_ok in H
    as (f & t & d & user & fromApp & toApp & -> & -> & -> & Hf & Ht & Hd & _ &
        Efrom & _ & Eowner & _ & _ & Hbal & ->).
  exists f, t, d, user. split; [done|]. split; [done|]. split; [done|].
  split; [by rewrite Efrom, <- Eowner|]. split; [done|].
  assert (forall u a,
            balanceOf u a
              (markReceived t
                 {| payments :=
                      (payments s ++ [adminTransferDoc idTo user t f t d d nowTo]) ++
                      [adminTransferDoc idFrom user f f t (- d) d nowFrom];
                    applications := applications s |}) =
            balanceOf u a s +
            (if String.eqb user u && String.eqb t a then d else 0) -
            (if String.eqb user u && String.eqb f a then d else 0)) as Hall.
  { intros u a. rewrite !balanceOf_sum, sourcePayments_markReceived.
    rewrite <- app_assoc, sourcePayments_app, List.map_app, sumZ_app.
    cbn [app List.filter userId fields adminTransferDoc transferFields appIs
         applicationId isSucceeded status andb].
    destruct (String.eqb user u), (String.eqb t a), (String.eqb f a);
      cbn [andb List.map fields adminTransferDoc transferFields amount];
      rewrite ?sumZ_cons, ?sumZ_nil; lia. }
  split; [|split].
  - intros a. rewrite Hall, String.eqb_refl. cbn [andb]. lia.
  - intros Hne. rewrite !Hall, !String.eqb_refl. cbn [andb].
    rewrite (proj2 (String.eqb_neq t f)) by congruence.
    rewrite (proj2 (String.eqb_neq f t)) by congruence. lia.
  - intros u a Hu. rewrite Hall.
    rewrite (proj2 (String.eqb_neq user u)) by congruence. cbn [andb]. lia.
Qed.


Lemma admin_transfer_witness :
  exists s',
    admin_transfer_amount true (Some "A-1"%string) (Some "A-8"%string) (Some 40000)
      sampleNow sampleNow "P-3" "P-4" sampleStore = (Ok200, s') /\
    balanceOf "U-1" "A-1" sampleStore = 154839 /\
    balanceOf "U-1" "A-1" s' = 154839 - 40000 /\
    balanceOf "U-1" "A-8" s' = 0 + 40000.
Proof.
  eexists. split; [reflexivity|].
  destruct (admin_transfer_balances true (Some "A-1"%string) (Some "A-8"%string)
              (Some 40000) sampleNow sampleNow "P-3" "P-4" sampleStore _ eq_refl)
    as (f & t & d & user & Ef & Et & Ed & Eu & _ & _ & Hne & _).
  injection Ef as <-. injection Et as <-. injection Ed as <-. injection Eu as <-.
  destruct (Hne ltac:(discriminate)) as (H1 & _ & H2).
  split; [reflexivity|]. split; [exact H1 | exact H2].
Defined.


(** *** The admin transfer in the revenue summary *)

Lemma summary_all_time Date_parse tz db apps now :
  admin_revenue_summary Date_parse tz true JUndefined JUndefined JUndefined db apps now =
  let payments := List.filter isSucceeded db in
  let l := ledgerOf Date_parse now (depositRefundMapOf (findDepositRefunds db))
             (findApplications apps) in
  Json {| summary := cashSummaryOf payments;
          monthlyRevenue := monthlyRevenueOf tz now payments;
          accrualMonthlyRevenue :=
            windowOf (monthlyRevenueOf tz now payments) (l_accrualTimeline l);
          occupancyByMonth :=
            windowOf (monthlyRevenueOf tz now payments) (l_occupancyTimeline l);
          accrualSummary := accrualSummaryOf PeriodAll now l;
          accrualTimeline := l_accrualTimeline l;
          occupancyTimeline := l_occupancyTimeline l |}.
Proof. reflexivity. Qed.

Lemma sumOver_app f l1 l2 : sumOver f (l1 ++ l2) = sumOver f l1 + sumOver f l2.
Proof. rewrite !sumOver_sumZ, List.map_app, sumZ_app. done. Qed.

(** X22: after a successful admin transfer the all-time cash summary has the
    same [totalRevenue] and [netRevenue], two more payments, and a
    [refundsTotal] that is higher by the absolute value of the amount:
    the negative record of the pair counts as a refund.  The accrual
    summary is unchanged. *)
Theorem admin_transfer_in_summary Date_parse tz apps now
    isAdmin from to amt nowTo nowFrom idTo idFrom s s' :
  admin_transfer_amount isAdmin from to amt nowTo nowFrom idTo idFrom s = (Ok200, s') ->
  exists before after d,
    amt = Some d /\
    admin_revenue_summary Date_parse tz true JUndefined JUndefined JUndefined
      (paymentsOf s) apps now = Json before /\
    admin_revenue_summary Date_parse tz true JUndefined JUndefined JUndefined
      (paymentsOf s') apps now = Json after /\
    totalRevenue (summary after) = totalRevenue (summary before) /\
    netRevenue (summary after) = netRevenue (summary before) /\
    refundsTotal (summary after) = refundsTotal (summary before) + Z.abs d /\
    Route.paymentCount (summary after) = (Route.paymentCount (summary before) + 2)%nat /\
    accrualSummary after = accrualSummary before.
Proof.
  intros H. apply admin_transfer_ok in H
    as (f & t & d & user & fromApp & toApp & -> & -> & -> & Hf & Ht & Hd & _ &
        _ & _ & _ & _ & _ & Hbal & ->).
  rewrite !summary_all_time. cbv zeta. eexists _, _, d.
  split; [reflexivity|]. split; [reflexivity|]. split; [reflexivity|].
  cbn [summary accrualSummary].
  unfold paymentsOf. cbn [payments markReceived].
  rewrite !List.map_app. cbn [List.map fields adminTransferDoc].
  rewrite <- app_assoc. cbn [app].
  set (db := List.map fields (payments s)).
  set (credit := transferFields d admin_transfer t nowTo).
  set (debit := transferFields (- d) admin_transfer f nowFrom).
  assert (List.filter isSucceeded (db ++ [credit; debit]) =
          List.filter isSucceeded db ++ [credit; debit]) as ->
    by (by rewrite List.filter_app).
  assert (findDepositRefunds (db ++ [credit; debit]) = findDepositRefunds db) as ->.
  { unfold findDepositRefunds. rewrite List.filter_app. cbn. apply app_nil_r. }
  unfold cashSummaryOf. cbn [totalRevenue netRevenue refundsTotal Route.paymentCount].
  rewrite List.filter_app, !sumOver_app, length_app.
  split; [|split; [|split; [|split]]]; try done.
  - unfold sumOver. cbn. lia.
  - unfold sumOver, feeOf. cbn. lia.
  - f_equal. cbn [List.filter isRefund paymentType credit debit transferFields amount orb].
    destruct (Z.ltb_spec d 0), (Z.ltb_spec (- d) 0); try lia; unfold sumOver; cbn; lia.
Qed.

Lemma admin_transfer_summary_witness :
  exists before after,
    admin_revenue_summary isoDateOnly 0 true JUndefined JUndefined JUndefined
      (paymentsOf sampleStore) [leaseJanFeb] sampleNow = Json before /\
    admin_revenue_summary isoDateOnly 0 true JUndefined JUndefined JUndefined
      (paymentsOf
         (snd (admin_transfer_amount true (Some "A-1"%string) (Some "A-8"%string)
                 (Some 40000) sampleNow sampleNow "P-3" "P-4" sampleStore)))
      [leaseJanFeb] sampleNow = Json after /\
    totalRevenue (summary before) = 154839 /\
    totalRevenue (summary after) = 154839 /\
    refundsTotal (summary before) = 0 /\
    refundsTotal (summary after) = 0 + Z.abs 40000.
Proof.
  destruct (admin_transfer_in_summary isoDateOnly 0 [leaseJanFeb] sampleNow
              true (Some "A-1"%string) (Some "A-8"%string) (Some 40000)
              sampleNow sampleNow "P-3" "P-4" sampleStore _ eq_refl)
    as (before & after & d & Ed & Hb & Ha & Ht & _ & Hr & _).
  injection Ed as <-.
  exists before, after. split; [exact Hb|]. split; [exact Ha|].
  assert (totalRevenue (summary before) = 154839 /\ refundsTotal (summary before) = 0)
    as [E1 E2].
  { rewrite summary_all_time in Hb. injection Hb as <-. vm_compute. done. }
  rewrite Ht, Hr, E1, E2. done.
Defined.


(** *** The balances the admin sees *)

Local Abbreviation zeroBalance := {| totalBalance := 0; Store.paymentCount := 0 |}.

Local Abbreviation groupStep s :=
  (fun (acc : option (gmap string balance)) (payment : paymentDoc) =>
     match acc, populated s payment with
     | Some applicationBalances, Some application =>
         let appId := app_id (lease application) in
         let entry := default zeroBalance (applicationBalances !! appId) in
         Some (<[appId := {| totalBalance := totalBalance entry + amount (fields payment);
                             Store.paymentCount := Store.paymentCount entry + 1 |}]>
                 applicationBalances)
     | _, _ => None
     end).

Lemma group_None s (l : list paymentDoc) : fold_left (groupStep s) l None = None.
Proof. induction l as [|p l IH]; [done|]. cbn [fold_left]. exact IH. Qed.

Lemma group_totals s (l : list paymentDoc) : forall acc : gmap string balance,
  match fold_left (groupStep s) l (Some acc) with
  | Some m =>
      (forall p, p ∈ l -> is_Some (populated s p)) /\
      map_fold (fun _ b sum => sum + totalBalance b) 0 m =
        map_fold (fun _ b sum => sum + totalBalance b) 0 acc +
        sumZ (List.map (fun p => amount (fields p)) l) /\
      map_fold (fun _ b sum => sum + Store.paymentCount b) 0 m =
        map_fold (fun _ b sum => sum + Store.paymentCount b) 0 acc +
        Z.of_nat (length l) /\
      ((forall a b, acc !! a = Some b -> 1 <= Store.paymentCount b) ->
       forall a b, m !! a = Some b -> 1 <= Store.paymentCount b)
  | None => exists p, p ∈ l /\ populated s p = None
  end.
Proof.
  induction l as [|p l IH]; intros acc; cbn [fold_left].
  - split; [intros p Hp; by apply elem_of_nil in Hp|].
    cbn [List.map length]. rewrite sumZ_nil. split; [lia|]. split; [lia|]. done.
  - destruct (populated s p) as [application|] eqn:Ep.
    + cbv zeta. set (appId := app_id (lease application)).
      set (entry := default zeroBalance (acc !! appId)).
      specialize (IH (<[appId := {| totalBalance := totalBalance entry + amount (fields p);
                                    Store.paymentCount := Store.paymentCount entry + 1 |}]>
                        acc)).
      destruct (fold_left _ l _) as [m|].
      * destruct IH as (Hpop & Hsum & Hcount & Hpos).
        rewrite !total_insert in Hsum, Hcount.
        cbn [totalBalance Store.paymentCount List.map length] in *.
        rewrite sumZ_cons. split; [|split; [|split]].
        -- intros q [->|Hq]%elem_of_cons; [by rewrite Ep | by apply Hpop].
        -- rewrite Hsum. unfold entry. destruct (acc !! appId); cbn; lia.
        -- rewrite Hcount. unfold entry. destruct (acc !! appId); cbn; lia.
        -- intros Hacc. apply Hpos. intros a b.
           destruct (decide (a = appId)) as [->|Hne].
           ++ rewrite lookup_insert_eq. intros [= <-]. cbn [Store.paymentCount].
              unfold entry. destruct (acc !! appId) as [b0|] eqn:Eb; cbn.
              ** specialize (Hacc _ _ Eb). lia.
              ** lia.
           ++ rewrite lookup_insert_ne by done. apply Hacc.
      * destruct IH as (q & Hq & Eq). exists q. split; [by right | done].
    + rewrite group_None. exists p. split; [by left | done].
Qed.

(** X19: [GET /admin/available-deposits] for a user groups the succeeded
    payments without [transferredToApplicationId] by application.  When it
    answers, every such payment has its application, the balances add up to
    the sum of the amounts, the counts to the number of these payments, and
    every listed application has at least one payment.  It fails with the
    server error exactly when one of these payments has no application. *)
Theorem admin_listing_totals (user : string) (s : store) :
  user <> EmptyString ->
  let available := availablePaymentsOf user s in
  match admin_available_deposits true (Some user) s with
  | (Ok200, balances) =>
      (forall p, p ∈ available -> is_Some (populated s p)) /\
      map_fold (fun _ b sum => sum + totalBalance b) 0 balances =
        sumZ (List.map (fun p => amount (fields p)) available) /\
      map_fold (fun _ b sum => sum + Store.paymentCount b) 0 balances =
        Z.of_nat (length available) /\
      (forall a b, balances !! a = Some b -> 1 <= Store.paymentCount b)
  | (Err500, _) => exists p, p ∈ available /\ populated s p = None
  | _ => False
  end.
Proof.
  intros Hu available. unfold admin_available_deposits. cbn [negb truthyId].
  rewrite (proj2 (String.eqb_neq user EmptyString) Hu). cbn [negb].
  fold available. unfold groupBalances.
  pose proof (group_totals s available ∅) as H.
  destruct (fold_left _ available (Some ∅)) as [m|]; [|done].
  destruct H as (Hpop & Hsum & Hcount & Hpos).
  rewrite map_fold_empty in Hsum, Hcount.
  split; [done|]. split; [lia|]. split; [lia|].
  apply Hpos. intros a b Hab. by rewrite lookup_empty in Hab.
Qed.

Lemma admin_listing_witness :
  (exists balances,
     admin_available_deposits true (Some "U-1"%string) sampleStore = (Ok200, balances) /\
     map_fold (fun _ b sum => sum + totalBalance b) 0 balances = 154839 /\
     balances !! "A-1"%string =
       Some {| totalBalance := 154839; Store.paymentCount := 2 |}) /\
  fst (admin_available_deposits true (Some "U-1"%string) storeWithOrphan) = Err500.
Proof.
  pose proof (admin_listing_totals "U-1" sampleStore ltac:(discriminate)) as H.
  split; [|reflexivity].
  destruct (admin_available_deposits true (Some "U-1"%string) sampleStore)
    as [r balances] eqn:E.
  assert (r = Ok200) as -> by (by apply (f_equal fst) in E; vm_compute in E).
  exists balances. split; [reflexivity|].
  destruct H as (_ & Hsum & _). split; [exact Hsum|].
  apply (f_equal snd) in E. cbn [snd] in E. rewrite <- E. vm_compute. reflexivity.
Defined.

(** The records of an admin transfer carry [transferredToApplicationId] and
    are not listed. *)
Lemma populated_markReceived t s p :
  populated (markReceived t s) p =
  (fun a => if String.eqb (app_id (lease a)) t
            then {| lease := lease a; owner := owner a; paymentReceived := true |}
            else a) <$> populated s p.
Proof.
  unfold populated. destruct (applicationId (fields p)) as [id|]; [|done].
  cbn [applications markReceived].
  induction (applications s) as [|a l IH]; [done|]. cbn [List.map List.find].
  destruct (String.eqb (app_id (lease a)) t) eqn:Et; cbn [lease];
    destruct (String.eqb (app_id (lease a)) id) eqn:Ei; cbn; rewrite ?Et; done.
Qed.

Lemma groupBalances_markReceived t s l :
  groupBalances (markReceived t s) l = groupBalances s l.
Proof.
  unfold groupBalances. generalize (Some (∅ : gmap string balance)).
  induction l as [|p l IH]; intros acc; [done|]. cbn [fold_left].
  rewrite IH. f_equal. destruct acc as [m|]; [|done].
  rewrite populated_markReceived.
  destruct (populated s p) as [a|]; [|done]. cbn.
  by destruct (String.eqb (app_id (lease a)) t).
Qed.

(** X23: the two records of an admin transfer carry
    [transferredToApplicationId], so [GET /admin/available-deposits] leaves
    them out: after a successful transfer it answers as before, for every
    user, although the balance that the transfer route checks has
    changed. *)
Theorem admin_transfer_not_listed isAdmin from to amt nowTo nowFrom idTo idFrom s s' :
  admin_transfer_amount isAdmin from to amt nowTo nowFrom idTo idFrom s = (Ok200, s') ->
  forall admin user,
    admin_available_deposits admin user s' = admin_available_deposits admin user s.
Proof.
  intros H admin user. apply admin_transfer_ok in H
    as (f & t & d & u & fromApp & toApp & -> & -> & -> & Hf & Ht & Hd & _ &
        _ & _ & _ & _ & _ & Hbal & ->).
  unfold admin_available_deposits.
  destruct admin; [|done]. cbn [negb]. destruct user as [user|]; [|done].
  destruct (negb (truthyId (Some user))); [done|].
  rewrite groupBalances_markReceived.
  assert (availablePaymentsOf user
            (markReceived t
               {| payments :=
                    (payments s ++ [adminTransferDoc idTo u t f t d d nowTo]) ++
                    [adminTransferDoc idFrom u f f t (- d) d nowFrom];
                  applications := applications s |}) =
          availablePaymentsOf user s) as ->.
  { unfold availablePaymentsOf. cbn [payments markReceived].
    rewrite <- app_assoc, !List.filter_app.
    assert (truthyId (Some t) = true) as Et.
    { cbn. by rewrite (proj2 (String.eqb_neq t EmptyString) Ht). }
    cbn [app List.filter userId fields adminTransferDoc transferFields isSucceeded
         status transferredToApplicationId].
    destruct (String.eqb u user); cbn [andb List.filter transferredToApplicationId
                                       adminTransferDoc];
      rewrite ?Et; cbn [negb app]; by rewrite app_nil_r. }
  reflexivity.
Qed.

Lemma admin_transfer_not_listed_witness :
  admin_available_deposits true (Some "U-1"%string)
    (snd (admin_transfer_amount true (Some "A-1"%string) (Some "A-8"%string)
            (Some 40000) sampleNow sampleNow "P-3" "P-4" sampleStore)) =
  admin_available_deposits true (Some "U-1"%string) sampleStore /\
  balanceOf "U-1" "A-1"
    (snd (admin_transfer_amount true (Some "A-1"%string) (Some "A-8"%string)
            (Some 40000) sampleNow sampleNow "P-3" "P-4" sampleStore)) = 114839 /\
  snd (admin_available_deposits true (Some "U-1"%string) sampleStore) !! "A-1"%string =
    Some {| totalBalance := 154839; Store.paymentCount := 2 |}.
Proof.
  split; [|vm_compute; done].
  exact (admin_transfer_not_listed true (Some "A-1"%string) (Some "A-8"%string)
           (Some 40000) sampleNow sampleNow "P-3" "P-4" sampleStore _ eq_refl
           true (Some "U-1"%string)).
Defined.


(** *** The manual refund *)

(** X24: a successful [POST /admin/manual-refund] appends one payment with the
    amount [- cents], [cents = Math.round(amount * 100)].  When the refund
    type is "deposit" (or absent), the entry of the lease in the deposit
    refund map of the revenue summary grows by [|cents|]; for any other
    type the map is unchanged. *)
Theorem manual_refund_reaches_ledger
    isAdmin appId amount refundType paidAt newId s s' :
  manual_refund isAdmin appId amount refundType paidAt newId s = (Ok200, s') ->
  exists app x t,
    appId = Some app /\ amount = Some x /\ paidAt = Some t /\
    let cents := Math_round (x * 100)%float in
    let before := depositRefundMapOf (findDepositRefunds (paymentsOf s)) in
    let after := depositRefundMapOf (findDepositRefunds (paymentsOf s')) in
    List.map (fun p => Route.amount p) (paymentsOf s') =
      List.map (fun p => Route.amount p) (paymentsOf s) ++ [- cents] /\
    (normalizeRefundType refundType = refund_deposit ->
       after = addTo app (Z.abs cents) before) /\
    (normalizeRefundType refundType <> refund_deposit -> after = before).
Proof.
  unfold manual_refund. intros H.
  destruct isAdmin; [|discriminate]. cbn [negb] in H.
  destruct appId as [app|]; [|discriminate].
  destruct amount as [x|]; [|discriminate].
  destruct (negb (truthyId (Some app))); [discriminate|].
  destruct (_ || _); [discriminate|].
  destruct (findById app s) as [application|] eqn:Eapp; [|discriminate].
  destruct (owner application) as [user|]; [|discriminate].
  destruct paidAt as [t|]; [|discriminate].
  cbv zeta in H. unfold save, validate in H.
  cbn [totalAmount fields feeOf creditCardFee default] in H.
  rewrite bool_decide_eq_true_2 in H by (by eexists).
  change (0 <=? id 0) with true in H. cbn [andb] in H.
  injection H as <-.
  assert (app_id (lease application) = app) as Eid.
  { unfold findById in Eapp. apply List.find_some in Eapp as [_ E].
    by apply String.eqb_eq in E. }
  rewrite Eid.
  exists app, x, t. split; [done|]. split; [done|]. split; [done|]. cbv zeta.
  set (cents := Math_round (x * 100)%float).
  unfold paymentsOf. cbn [payments]. rewrite !List.map_app. cbn [List.map fields amount].
  split; [f_equal; f_equal; lia|].
  unfold findDepositRefunds, depositRefundMapOf.
  rewrite List.filter_app. cbn [List.filter isRefund isDepositCategory paymentType
                                refundCategory applicationId andb].
  rewrite bool_decide_eq_true_2 by (by eexists).
  split.
  - intros ->. cbn [andb]. rewrite fold_left_app. cbn [fold_left applicationId].
    f_equal. unfold refundCentsOf. cbn [amount refundAmount].
    destruct (Z.eqb_spec (cents * -1) 0); cbn [negb]; lia.
  - intros Hne. destruct (normalizeRefundType refundType); [done|..];
      cbn [andb]; by rewrite app_nil_r.
Qed.

Lemma manual_refund_witness :
  exists s',
    manual_refund true (Some "A-1"%string) (Some 250.5%float) None (Some sampleNow)
      "P-5" sampleStore = (Ok200, s') /\
    Math_round (250.5 * 100)%float = 25050 /\
    depositRefundMapOf (findDepositRefunds (paymentsOf sampleStore)) = ∅ /\
    depositRefundMapOf (findDepositRefunds (paymentsOf s')) =
      addTo "A-1" (Z.abs 25050) ∅.
Proof.
  eexists. split; [reflexivity|].
  destruct (manual_refund_reaches_ledger true (Some "A-1"%string) (Some 250.5%float)
              None (Some sampleNow) "P-5" sampleStore _ eq_refl)
    as (app & x & t & Eid & Ex & _ & _ & Hdep & _).
  injection Eid as <-. injection Ex as <-.
  split; [reflexivity|]. split; [reflexivity|].
  exact (Hdep eq_refl).
Defined.

End StoreProps.
